(** * Analize-Gmod: wire codec, scanner, persistence, enrichment client and
    classifier, embedded from the JavaScript sources.

    Conventions of the embedding.
    - A Node [Buffer] is a [list byte]; [buffer[i]] is the list lookup
      [buffer !! i], whose [None] is JavaScript's [undefined].
    - A JavaScript string every code unit of which is below 256 is a
      [string], one [ascii] per code unit.  A text decoded from the wire
      is such a string when its characters are below U+0100
      ([WireCodec.utf8]); other texts are outside the model.
    - A call that can throw and that writes to the database gives the
      pair of its outcome and of the database after it; a rejected
      statement leaves the database as it was.
    - [Date.now()] is an integer number of milliseconds, a [Z].
    - Numbers that the code only counts with are [nat], [N] or [Z]; the
      confidences blended by the regional-affinity combiner are binary64
      floats ([PrimFloat.float]), JavaScript's number type. *)

From Stdlib Require Import ZArith NArith QArith Qminmax Strings.String Strings.Ascii Strings.Byte DecimalString.
From Stdlib Require Import Floats.PrimFloat Floats.SpecFloat Floats.FloatOps.
From stdpp Require Import base option list strings sorting gmap.

Set Warnings "-inexact-float".

Local Open Scope string_scope.
Local Close Scope Q_scope.
Local Open Scope nat_scope.

(** ** JavaScript helpers shared by the components *)

Module JS.

(** [`${n}`] for a non-negative integer. *)
Definition decimal (n : N) : string := NilEmpty.string_of_uint (N.to_uint n).

(** The outcome of a call that can throw, or of a settled promise. *)
Inductive outcome (A : Type) : Type :=
| Returned (a : A)
| Thrown (message : string).
Arguments Returned {A} a.
Arguments Thrown {A} message.

(** [try { body } catch (error) { throw new Error(prefix + error.message) }] *)
Definition rethrow {A} (prefix : string) (body : outcome A) : outcome A :=
  match body with
  | Returned a => Returned a
  | Thrown message => Thrown (prefix ++ message)
  end.

(** [s || d] for a string that may be [undefined]: the empty string is
    falsy as well. *)
Definition orElse (s : option string) (d : string) : string :=
  match s with
  | Some v => if String.eqb v "" then d else v
  | None => d
  end.

(** [Array.prototype.sort(compare)]: a stable sort, [x] going before [y]
    when [compare(x, y) <= 0]; written as an insertion sort, which on a
    consistent comparator gives the one stable sorted arrangement. *)
Fixpoint insert {A} (compare : A -> A -> Z) (x : A) (l : list A) : list A :=
  match l with
  | [] => [x]
  | y :: l' =>
      if (compare x y <=? 0)%Z then x :: y :: l' else y :: insert compare x l'
  end.

Definition sort {A} (compare : A -> A -> Z) (l : list A) : list A :=
  foldr (insert compare) [] l.

(** [text.includes(needle)] *)
Fixpoint includes (needle text : string) : bool :=
  String.prefix needle text ||
  match text with
  | EmptyString => false
  | String _ text' => includes needle text'
  end.

(** [s[0]] and [s[s.length - 1]]; [None] on the empty string. *)
Definition firstChar (s : string) : option ascii :=
  match s with
  | EmptyString => None
  | String c _ => Some c
  end.

Fixpoint lastChar (s : string) : option ascii :=
  match s with
  | EmptyString => None
  | String c EmptyString => Some c
  | String _ s' => lastChar s'
  end.

Definition inRange (lo hi : N) (c : ascii) : bool :=
  (lo <=? N_of_ascii c)%N && (N_of_ascii c <=? hi)%N.

(** [String.prototype.toLowerCase] on code units below 256: [A-Z] and the
    Latin-1 capitals (0xC0-0xDE but 0xD7) move up by 32. *)
Definition lowerChar (c : ascii) : ascii :=
  if inRange 65 90 c || (inRange 192 222 c && negb (N_of_ascii c =? 215)%N)
  then ascii_of_N (N_of_ascii c + 32) else c.

Fixpoint toLowerCase (s : string) : string :=
  match s with
  | EmptyString => EmptyString
  | String c s' => String (lowerChar c) (toLowerCase s')
  end.

(** The batching loop of [queryServersBatch] and of [getPlayerSummaries]:
    [for (let i = 0; i < items.length; i += size)
       batches.push(items.slice(i, i + size))].
    With [size >= 1] every pass moves [i] on, so [items.length] passes are
    enough; with [size = 0] the loop of the source does not end. *)
Fixpoint chunkLoop {A} (fuel size : nat) (items : list A) (i : nat)
    (batches : list (list A)) : list (list A) :=
  match fuel with
  | 0 => batches
  | S fuel' =>
      if i <? List.length items
      then chunkLoop fuel' size items (i + size)
             (batches ++ [take size (drop i items)])
      else batches
  end.

Definition chunks {A} (size : nat) (items : list A) : list (list A) :=
  chunkLoop (List.length items) size items 0 [].

(** A [Set] of strings, as the list of its members in insertion order:
    [set.add(x)] appends [x] unless it is a member already. *)
Definition setAdd (set : list string) (x : string) : list string :=
  if existsb (String.eqb x) set then set else set ++ [x].

(** [items.forEach(x => set.add(x))] *)
Definition setAddAll (set items : list string) : list string :=
  fold_left setAdd items set.

(** The retry loop shared by [makeRequest] and [executeWithRetry]:
    [for (attempt = 1; attempt <= maxRetries; attempt++)] with a [return]
    on success, a [throw] at the last attempt and a timer of
    [retryDelays[attempt - 1]] before the next one.  [responses attempt]
    is the outcome of the call made at that attempt, [remaining] is
    [maxRetries + 1 - attempt], [timer] gives the delay a [setTimeout]
    arms for an entry of [retryDelays].  The result is the outcome (none
    when the loop is left without a call), the number of calls made and
    the time spent in timers. *)
Fixpoint retryLoop {A} (timer : option Z -> Z) (failure : string -> string)
    (maxRetries : nat) (retryDelays : list Z) (responses : nat -> outcome A)
    (remaining attempt : nat) (waited : Z) : option (outcome A) * nat * Z :=
  match remaining with
  | 0 => (None, attempt - 1, waited)
  | S remaining' =>
      match responses attempt with
      | Returned data => (Some (Returned data), attempt, waited)
      | Thrown message =>
          if attempt =? maxRetries
          then (Some (Thrown (failure message)), attempt, waited)
          else
            let delay := timer (retryDelays !! (attempt - 1)) in
            retryLoop timer failure maxRetries retryDelays responses
              remaining' (S attempt) (waited + delay)%Z
      end
  end.

End JS.

(** ** Regular expressions

    The fragment of JavaScript regular expressions that the detectors are
    written in, all under the [i] flag and without [g]: literals, [\b],
    [\s*], concatenation and alternation, matched by backtracking in the
    order ECMAScript prescribes (alternatives left to right, [*] greedy,
    start positions from the left). *)

Module Regex.

Inductive regex : Type :=
| Lit (s : string)
| WordBoundary
| Spaces
| Seq (r1 r2 : regex)
| Alt (r1 r2 : regex).

(** A position in the subject: the character before it, the characters
    from it on, and its index. *)
Record cursor := { prev : option ascii; rest : list ascii; index : nat }.

(** [\w] is [A-Za-z0-9_]. *)
Definition isWordChar (c : ascii) : bool :=
  JS.inRange 48 57 c || JS.inRange 65 90 c || (N_of_ascii c =? 95)%N || JS.inRange 97 122 c.

(** [\s] on code units below 256: TAB, LF, VT, FF, CR, space, NBSP. *)
Definition isSpace (c : ascii) : bool :=
  JS.inRange 9 13 c || (N_of_ascii c =? 32)%N || (N_of_ascii c =? 160)%N.

(** Canonicalize of the [i] flag: the upper-case form.  The two Latin-1
    letters whose capital lies above 255 keep their code, which no other
    code unit below 256 maps to. *)
Definition canonicalize (c : ascii) : ascii :=
  if JS.inRange 97 122 c || (JS.inRange 224 254 c && negb (N_of_ascii c =? 247)%N)
  then ascii_of_N (N_of_ascii c - 32) else c.

Definition sameChar (p x : ascii) : bool :=
  Ascii.eqb (canonicalize p) (canonicalize x).

Definition wordAt (c : option ascii) : bool :=
  match c with Some x => isWordChar x | None => false end.

Definition atBoundary (c : cursor) : bool :=
  xorb (wordAt (prev c)) (wordAt (head (rest c))).

Fixpoint lit (s : list ascii) (c : cursor) : option cursor :=
  match s with
  | [] => Some c
  | p :: s' =>
      match rest c with
      | x :: rest' =>
          if sameChar p x
          then lit s' {| prev := Some x; rest := rest'; index := S (index c) |}
          else None
      | [] => None
      end
  end.

(** Greedy [\s*] followed by the continuation [k]: take one more space if
    the remainder then matches, otherwise stop here. *)
Fixpoint spaces (k : cursor -> option nat) (before : option ascii)
    (text : list ascii) (i : nat) : option nat :=
  match text with
  | x :: text' =>
      if isSpace x then
        match spaces k (Some x) text' (S i) with
        | Some e => Some e
        | None => k {| prev := before; rest := text; index := i |}
        end
      else k {| prev := before; rest := text; index := i |}
  | [] => k {| prev := before; rest := text; index := i |}
  end.

(** [run r k c]: the end index of the first way to match [r] at [c] for
    which the continuation [k] succeeds. *)
Fixpoint run (r : regex) (k : cursor -> option nat) (c : cursor) : option nat :=
  match r with
  | Lit s =>
      match lit (list_ascii_of_string s) c with
      | Some c' => k c'
      | None => None
      end
  | WordBoundary => if atBoundary c then k c else None
  | Spaces => spaces k (prev c) (rest c) (index c)
  | Seq r1 r2 => run r1 (run r2 k) c
  | Alt r1 r2 =>
      match run r1 k c with
      | Some e => Some e
      | None => run r2 k c
      end
  end.

Definition matchAt (r : regex) (c : cursor) : option nat :=
  run r (fun c' => Some (index c')) c.

(** The leftmost match: start and end index. *)
Fixpoint search (r : regex) (before : option ascii) (text : list ascii)
    (i : nat) : option (nat * nat) :=
  match matchAt r {| prev := before; rest := text; index := i |} with
  | Some e => Some (i, e)
  | None =>
      match text with
      | x :: text' => search r (Some x) text' (S i)
      | [] => None
      end
  end.

(** [text.match(pattern)], as the span of [matches[0]]. *)
Definition exec (r : regex) (text : string) : option (nat * nat) :=
  search r None (list_ascii_of_string text) 0.

(** [text.match(pattern)[0].length] *)
Definition matchedLength (r : regex) (text : string) : option nat :=
  (fun span => snd span - fst span) <$> exec r text.

(** [pattern.test(text)] *)
Definition test (r : regex) (text : string) : bool :=
  match exec r text with Some _ => true | None => false end.

(** [\b(a1|...|an)\b] *)
Definition word (alternatives : regex) : regex :=
  Seq WordBoundary (Seq alternatives WordBoundary).

Fixpoint oneOf (first : regex) (others : list regex) : regex :=
  match others with
  | [] => first
  | r :: others' => Alt first (oneOf r others')
  end.

End Regex.

(** ** Wire codec (scanner/service.js) *)

Module StringScan.
(** The object literal [{ value, length }] returned by [readString]. *)
Record t := { value : string; length : nat }.
End StringScan.

Module Info.
(** The object built by [parseA2SInfo].  A single-byte field is
    [undefined] ([None]) when its offset is past the end of the buffer. *)
Record t := {
  protocol : option byte;
  name : StringScan.t;
  map : string;
  folder : string;
  game : string;
  players : option byte;
  max_players : option byte;
  bots : option byte;
  server_type : string;
  environment : string;
  visibility : option byte;
  vac : option byte;
  version : string;
  port : N;
  tags : string
}.
End Info.

Module WireCodec.

Definition Buffer := list byte.

(** [bytes.toString('utf8')] for a text whose characters are all below
    U+0100, which are the strings of this model: a byte below 0x80 is its
    character, and [C2 xx] and [C3 xx] with a continuation byte [xx]
    (0x80 to 0xBF) are the characters U+0080 to U+00FF.  [None] is a text
    with a character above U+00FF, the replacement character U+FFFD that
    an ill-formed sequence decodes to included; such a text is outside
    this model. *)
Fixpoint utf8 (bytes : list byte) : option string :=
  match bytes with
  | [] => Some EmptyString
  | b :: rest =>
      if (Byte.to_N b <? 128)%N then String (ascii_of_byte b) <$> utf8 rest
      else
        match rest with
        | c :: rest' =>
            if ((194 <=? Byte.to_N b) && (Byte.to_N b <=? 195)
                && (128 <=? Byte.to_N c) && (Byte.to_N c <=? 191))%N
            then
              String (ascii_of_N ((Byte.to_N b - 192) * 64 + (Byte.to_N c - 128)))
                <$> utf8 rest'
            else None
        | [] => None
        end
  end.

(** The string a run of bytes decodes to.  A text outside the model is
    kept byte by byte; the statements about decoded texts assume
    [utf8] answers. *)
Definition decoded (bytes : list byte) : string :=
  match utf8 bytes with
  | Some text => text
  | None => string_of_list_byte bytes
  end.


(** [buffer.slice(start, end).toString('utf8')] *)
Definition sliceString (buffer : Buffer) (start finish : nat) : string :=
  decoded (take (finish - start) (drop start buffer)).

(** The loop of [readString]: [length] grows while [offset + length] is
    inside the buffer and the byte there is not zero.  The recursion runs
    over the bytes from [offset] on. *)
Fixpoint scanLength (rest : list byte) : nat :=
  match rest with
  | [] => 0
  | b :: rest' => if Byte.eqb b x00 then 0 else S (scanLength rest')
  end.

Definition readString (buffer : Buffer) (offset : nat) : StringScan.t :=
  let length := scanLength (drop offset buffer) in
  {| StringScan.value := sliceString buffer offset (offset + length);
     StringScan.length := length |}.

(** [String.fromCharCode(buffer[i])]; [undefined] converts to code 0. *)
Definition fromCharCode (b : option byte) : string :=
  String (ascii_of_byte (default x00 b)) EmptyString.

(** The body of the [try] block of [parseA2SInfo].  Nothing in it throws:
    indexing past the end yields [undefined], [slice] clamps. *)
Definition parseA2SInfo_body (buffer : Buffer) : Info.t :=
  let offset := 4 in
  let protocol := buffer !! offset in
  let offset := S offset in
  let name := readString buffer offset in
  let offset := offset + StringScan.length name + 1 in
  let mapResult := readString buffer offset in
  let offset := offset + StringScan.length mapResult + 1 in
  let folderResult := readString buffer offset in
  let offset := offset + StringScan.length folderResult + 1 in
  let gameResult := readString buffer offset in
  let offset := offset + StringScan.length gameResult + 1 in
  let players := buffer !! offset in
  let max_players := buffer !! (offset + 1) in
  let bots := buffer !! (offset + 2) in
  let server_type := fromCharCode (buffer !! (offset + 3)) in
  let environment := fromCharCode (buffer !! (offset + 4)) in
  let visibility := buffer !! (offset + 5) in
  let vac := buffer !! (offset + 6) in
  let offset := offset + 7 in
  let versionResult := readString buffer offset in
  {| Info.protocol := protocol;
     Info.name := name;
     Info.map := StringScan.value mapResult;
     Info.folder := StringScan.value folderResult;
     Info.game := StringScan.value gameResult;
     Info.players := players;
     Info.max_players := max_players;
     Info.bots := bots;
     Info.server_type := server_type;
     Info.environment := environment;
     Info.visibility := visibility;
     Info.vac := vac;
     Info.version := StringScan.value versionResult;
     Info.port := 0%N;
     Info.tags := "" |}.

Definition parseA2SInfo (buffer : Buffer) : JS.outcome Info.t :=
  JS.rethrow "Failed to parse A2S_INFO: " (JS.Returned (parseA2SInfo_body buffer)).

(** [`${msg[i]}`]: a byte in decimal, or the word for a read past the end. *)
Definition showByte (b : option byte) : string :=
  match b with
  | Some v => JS.decimal (Byte.to_N v)
  | None => "undefined"
  end.

(** The operand of [<<] and [|]: [undefined] converts to 0. *)
Definition toInt32 (b : option byte) : N :=
  match b with
  | Some v => Byte.to_N v
  | None => 0%N
  end.

(** One record of the directory response: [`${ip}:${port}`]. *)
Definition candidate (a b c d hi lo : option byte) : string :=
  showByte a ++ "." ++ showByte b ++ "." ++ showByte c ++ "." ++ showByte d
    ++ ":" ++ JS.decimal (N.lor (N.shiftl (toInt32 hi) 8) (toInt32 lo)).

(** A record of the directory response as the wire carries it: four
    address octets and the two bytes of the port, high byte first. *)
Record directoryRecord := {
  octet1 : byte; octet2 : byte; octet3 : byte; octet4 : byte;
  portHigh : byte; portLow : byte
}.

Definition recordBytes (r : directoryRecord) : list byte :=
  [octet1 r; octet2 r; octet3 r; octet4 r; portHigh r; portLow r].

Definition recordCandidate (r : directoryRecord) : string :=
  candidate (Some (octet1 r)) (Some (octet2 r)) (Some (octet3 r))
    (Some (octet4 r)) (Some (portHigh r)) (Some (portLow r)).

(** The loop of the ['message'] handler of [discoverFromSteamMaster]:
    [offset] starts at 6 and a record is read while
    [offset < msg.length - 6]. *)
Fixpoint parseLoop (fuel : nat) (msg : Buffer) (offset : nat)
    (servers : list string) : list string :=
  match fuel with
  | 0 => servers
  | S fuel' =>
      if (Z.of_nat offset <? Z.of_nat (List.length msg) - 6)%Z then
        parseLoop fuel' msg (offset + 6)
          (servers ++ [candidate (msg !! offset) (msg !! (offset + 1))
                         (msg !! (offset + 2)) (msg !! (offset + 3))
                         (msg !! (offset + 4)) (msg !! (offset + 5))])
      else servers
  end.

(** [servers] is the array shared by all datagrams of one discovery; every
    pass of the loop moves [offset] on by 6, so [msg.length] passes are
    enough. *)
Definition onMessage (servers : list string) (msg : Buffer) : list string :=
  parseLoop (List.length msg) msg 6 servers.


(** The fields of an info response as the wire carries them, for
    building responses in the layout [parseA2SInfo] reads. *)
Record infoFields := {
  protocolByte : byte;
  nameBytes : list byte;
  mapBytes : list byte;
  folderBytes : list byte;
  gameBytes : list byte;
  playersByte : byte;
  maxPlayersByte : byte;
  botsByte : byte;
  serverTypeByte : byte;
  environmentByte : byte;
  visibilityByte : byte;
  vacByte : byte;
  versionBytes : list byte
}.



End WireCodec.

(** ** Persistence gateway (database/index.js and the schema) *)

Module ServerData.
(** The value bound to the [name] parameter: [saveServerData] passes
    [serverInfo?.name || 'Unknown'], a string or the object that
    [parseA2SInfo] left in [name]. *)
Inductive nameValue : Type :=
| NameText (s : string)
| NameObject (o : StringScan.t).

(** The object handed to [insertServer]. *)
Record t := {
  ip : string;
  port : N;
  name : nameValue;
  map : string;
  description : string;
  tags : string;
  max_players : N;
  password_protected : bool;
  secure : bool;
  version : string;
  os : string;
  game_id : N;
  country : string;
  region : string
}.
End ServerData.

Module ServerRow.
(** A row of the [servers] table; [UNIQUE(ip, port)].  [name] is kept
    nullable, as the dashboard query tests it for NULL. *)
Record t := {
  id : N;
  ip : string;
  port : N;
  name : option string;
  map : string;
  description : string;
  tags : string;
  max_players : N;
  password_protected : bool;
  secure : bool;
  version : string;
  os : string;
  game_id : N;
  first_seen : Z;
  last_seen : Z;
  is_active : bool;
  country : string;
  region : string
}.
End ServerRow.

Module SnapshotData.
(** The object handed to [createSnapshot]. *)
Record t := {
  server_id : option N;
  player_count : N;
  max_players : N;
  map : string;
  gamemode : string;
  gamemode_confidence : float;
  is_polish_server : bool;
  polish_confidence : float;
  ping_ms : N
}.
End SnapshotData.

Module SnapshotRow.
(** A row of the [server_snapshots] table. *)
Record t := {
  id : N;
  snapshot_time : Z;
  data : SnapshotData.t
}.
End SnapshotRow.

Module PredictionRow.
(** A row of the [polish_server_predictions] table; a nullable column is
    an [option]. *)
Record t := {
  id : N;
  server_id : option N;
  is_polish_predicted : option bool;
  confidence : option float;
  prediction_reason : option string;
  features_json : option string;
  prediction_time : Z;
  needs_review : bool;
  manual_feedback : option string;
  feedback_time : option Z;
  feedback_reason : option string;
  model_version : option string
}.
End PredictionRow.

Module Database.

(** The tables the scanner and the feedback path write, each with the
    counter of its [AUTOINCREMENT] key (the largest id given out so far).
    [other_server_ids] holds the [server_id] values of the rows of
    [sessions], [gamemode_predictions] and [manual_labels]: tables that
    refer to [servers (id)] too and that no function modelled here
    writes. *)
Record t := {
  servers : list ServerRow.t;
  servers_sequence : N;
  server_snapshots : list SnapshotRow.t;
  snapshots_sequence : N;
  polish_server_predictions : list PredictionRow.t;
  other_server_ids : list N
}.

Definition empty : t :=
  {| servers := []; servers_sequence := 0; server_snapshots := [];
     snapshots_sequence := 0; polish_server_predictions := [];
     other_server_ids := [] |}.

(** [Object.prototype.toString], which the driver applies to a plain
    object bound as a parameter. *)
Definition objectToString (o : StringScan.t) : string := "[object Object]".

Definition bindText (v : ServerData.nameValue) : string :=
  match v with
  | ServerData.NameText s => s
  | ServerData.NameObject o => objectToString o
  end.

(** [WHERE ip = ? AND port = ?], also the test of [UNIQUE(ip, port)]. *)
Definition sameIdentity (ip : string) (port : N) (r : ServerRow.t) : bool :=
  String.eqb (ServerRow.ip r) ip && (ServerRow.port r =? port)%N.

(** The message of the error a statement is rejected with when it would
    leave a row whose [server_id] refers to no server: every connection
    runs [PRAGMA foreign_keys = ON]. *)
Definition foreignKeyFailed : string :=
  "SQLITE_CONSTRAINT: FOREIGN KEY constraint failed".

(** [id = server_id] for a nullable [server_id]. *)
Definition refersTo (id : N) (server_id : option N) : bool :=
  match server_id with
  | Some referred => (referred =? id)%N
  | None => false
  end.

(** Some row of a table with [FOREIGN KEY (server_id) REFERENCES
    servers (id)] refers to the server [id]. *)
Definition referenced (id : N) (db : t) : bool :=
  existsb (fun s => refersTo id (SnapshotData.server_id (SnapshotRow.data s)))
    (server_snapshots db)
  || existsb (fun p => refersTo id (PredictionRow.server_id p))
       (polish_server_predictions db)
  || existsb (N.eqb id) (other_server_ids db).

(** The row a [server_id] refers to. *)
Definition serverById (id : N) (db : t) : option ServerRow.t :=
  List.find (fun r => (ServerRow.id r =? id)%N) (servers db).

(** What [INSERT OR REPLACE INTO servers (ip, ..., region, last_seen)
    VALUES (?, ..., ?, CURRENT_TIMESTAMP)] does when it is accepted: the
    row that holds the same (ip, port) is deleted, then the new row is
    inserted; the columns the statement does not name ([id],
    [first_seen], [is_active]) take their defaults.  [now] is
    CURRENT_TIMESTAMP. *)
Definition replaceServer (now : Z) (serverData : ServerData.t) (db : t) : t :=
  let id := (servers_sequence db + 1)%N in
  let row :=
    {| ServerRow.id := id;
       ServerRow.ip := ServerData.ip serverData;
       ServerRow.port := ServerData.port serverData;
       ServerRow.name := Some (bindText (ServerData.name serverData));
       ServerRow.map := ServerData.map serverData;
       ServerRow.description := ServerData.description serverData;
       ServerRow.tags := ServerData.tags serverData;
       ServerRow.max_players := ServerData.max_players serverData;
       ServerRow.password_protected := ServerData.password_protected serverData;
       ServerRow.secure := ServerData.secure serverData;
       ServerRow.version := ServerData.version serverData;
       ServerRow.os := ServerData.os serverData;
       ServerRow.game_id := ServerData.game_id serverData;
       ServerRow.first_seen := now;
       ServerRow.last_seen := now;
       ServerRow.is_active := true;
       ServerRow.country := ServerData.country serverData;
       ServerRow.region := ServerData.region serverData |} in
  {| servers :=
       List.filter
         (fun r => negb (sameIdentity (ServerData.ip serverData)
                           (ServerData.port serverData) r))
         (servers db) ++ [row];
     servers_sequence := id;
     server_snapshots := server_snapshots db;
     snapshots_sequence := snapshots_sequence db;
     polish_server_predictions := polish_server_predictions db;
     other_server_ids := other_server_ids db |}.

(** [insertServer]: the statement is rejected, and the tables are left as
    they are, when the row it would delete is referred to from another
    table (the new row takes a new [id]); [executeWithRetry] then fails
    three times alike and throws the error on.  The result is the
    outcome of the call and the database after it. *)
Definition insertServer (now : Z) (serverData : ServerData.t) (db : t)
    : JS.outcome unit * t :=
  if existsb
       (fun r => sameIdentity (ServerData.ip serverData)
                   (ServerData.port serverData) r
                 && referenced (ServerRow.id r) db)
       (servers db)
  then (JS.Thrown foreignKeyFailed, db)
  else (JS.Returned tt, replaceServer now serverData db).

(** What [INSERT INTO server_snapshots (...) VALUES (...)] does when it
    is accepted. *)
Definition appendSnapshot (now : Z) (snapshotData : SnapshotData.t) (db : t) : t :=
  let id := (snapshots_sequence db + 1)%N in
  {| servers := servers db;
     servers_sequence := servers_sequence db;
     server_snapshots :=
       server_snapshots db
         ++ [{| SnapshotRow.id := id; SnapshotRow.snapshot_time := now;
                SnapshotRow.data := snapshotData |}];
     snapshots_sequence := id;
     polish_server_predictions := polish_server_predictions db;
     other_server_ids := other_server_ids db |}.

(** [createSnapshot]: the statement is rejected when [server_id] is not
    NULL and no server has that id. *)
Definition createSnapshot (now : Z) (snapshotData : SnapshotData.t) (db : t)
    : JS.outcome unit * t :=
  match SnapshotData.server_id snapshotData with
  | Some id =>
      match serverById id db with
      | Some _ => (JS.Returned tt, appendSnapshot now snapshotData db)
      | None => (JS.Thrown foreignKeyFailed, db)
      end
  | None => (JS.Returned tt, appendSnapshot now snapshotData db)
  end.

(** [SELECT * FROM servers WHERE ip = ? AND port = ?], first row. *)
Definition lookupServer (ip : string) (port : N) (db : t) : option ServerRow.t :=
  List.find (sameIdentity ip port) (servers db).

(** [SELECT id FROM servers WHERE ip = ? AND port = ?] *)
Definition getServerId (ip : string) (port : N) (db : t) : option N :=
  ServerRow.id <$> lookupServer ip port db.

Definition touch (now : Z) (r : ServerRow.t) : ServerRow.t :=
  {| ServerRow.id := ServerRow.id r;
     ServerRow.ip := ServerRow.ip r;
     ServerRow.port := ServerRow.port r;
     ServerRow.name := ServerRow.name r;
     ServerRow.map := ServerRow.map r;
     ServerRow.description := ServerRow.description r;
     ServerRow.tags := ServerRow.tags r;
     ServerRow.max_players := ServerRow.max_players r;
     ServerRow.password_protected := ServerRow.password_protected r;
     ServerRow.secure := ServerRow.secure r;
     ServerRow.version := ServerRow.version r;
     ServerRow.os := ServerRow.os r;
     ServerRow.game_id := ServerRow.game_id r;
     ServerRow.first_seen := ServerRow.first_seen r;
     ServerRow.last_seen := now;
     ServerRow.is_active := ServerRow.is_active r;
     ServerRow.country := ServerRow.country r;
     ServerRow.region := ServerRow.region r |}.

(** [UPDATE servers SET last_seen = CURRENT_TIMESTAMP WHERE ip = ? AND
    port = ?], the statement of [markServerOffline]. *)
Definition updateLastSeen (now : Z) (ip : string) (port : N) (db : t) : t :=
  {| servers :=
       List.map (fun r => if sameIdentity ip port r then touch now r else r)
         (servers db);
     servers_sequence := servers_sequence db;
     server_snapshots := server_snapshots db;
     snapshots_sequence := snapshots_sequence db;
     polish_server_predictions := polish_server_predictions db;
     other_server_ids := other_server_ids db |}.

(** [WHERE server_id = ? AND manual_feedback IS NULL] *)
Definition awaitsFeedback (serverId : N) (r : PredictionRow.t) : bool :=
  match PredictionRow.server_id r, PredictionRow.manual_feedback r with
  | Some s, None => (s =? serverId)%N
  | _, _ => false
  end.

Definition attach (now : Z) (feedback reason : option string)
    (r : PredictionRow.t) : PredictionRow.t :=
  {| PredictionRow.id := PredictionRow.id r;
     PredictionRow.server_id := PredictionRow.server_id r;
     PredictionRow.is_polish_predicted := PredictionRow.is_polish_predicted r;
     PredictionRow.confidence := PredictionRow.confidence r;
     PredictionRow.prediction_reason := PredictionRow.prediction_reason r;
     PredictionRow.features_json := PredictionRow.features_json r;
     PredictionRow.prediction_time := PredictionRow.prediction_time r;
     PredictionRow.needs_review := PredictionRow.needs_review r;
     PredictionRow.manual_feedback := feedback;
     PredictionRow.feedback_time := Some now;
     PredictionRow.feedback_reason := reason;
     PredictionRow.model_version := PredictionRow.model_version r |}.

(** What the UPDATE of [submitFeedback] does to one row. *)
Definition feedbackUpdate (now : Z) (serverId : N)
    (feedback reason : option string) (r : PredictionRow.t) : PredictionRow.t :=
  if awaitsFeedback serverId r then attach now feedback reason r else r.

(** [UPDATE polish_server_predictions SET manual_feedback = ?,
    feedback_time = CURRENT_TIMESTAMP, feedback_reason = ? WHERE
    server_id = ? AND manual_feedback IS NULL].  A parameter is [None]
    when the caller passes [null]. *)
Definition submitFeedback (now : Z) (serverId : N)
    (feedback reason : option string) (db : t) : t :=
  {| servers := servers db;
     servers_sequence := servers_sequence db;
     server_snapshots := server_snapshots db;
     snapshots_sequence := snapshots_sequence db;
     polish_server_predictions :=
       List.map (feedbackUpdate now serverId feedback reason)
         (polish_server_predictions db);
     other_server_ids := other_server_ids db |}.


(** The key of [UNIQUE(ip, port)]. *)
Definition identity (r : ServerRow.t) : string * N :=
  (ServerRow.ip r, ServerRow.port r).

(** What the schema promises of the [servers] table: one row per
    (ip, port), one row per id, and no id above the counter of the
    [AUTOINCREMENT] key. *)
Definition wellFormed (db : t) : Prop :=
  NoDup (List.map identity (servers db)) /\
  NoDup (List.map ServerRow.id (servers db)) /\
  List.Forall (fun r => (ServerRow.id r <= servers_sequence db)%N) (servers db).

(** The rows [getServersNeedingReview] selects, before [ORDER BY]:
    [FROM servers s JOIN polish_server_predictions p ON s.id = p.server_id
     WHERE p.needs_review = 1 AND p.manual_feedback IS NULL]. *)
Definition reviewRow (s : ServerRow.t) (p : PredictionRow.t) : bool :=
  match PredictionRow.server_id p with
  | Some id => (ServerRow.id s =? id)%N
  | None => false
  end
  && PredictionRow.needs_review p
  && match PredictionRow.manual_feedback p with None => true | Some _ => false end.

Definition needingReview (db : t) : list (ServerRow.t * PredictionRow.t) :=
  flat_map
    (fun s => List.map (pair s)
                (List.filter (reviewRow s) (polish_server_predictions db)))
    (servers db).

End Database.

(** ** Dashboard (GET /api/stats and /api/polish-servers) *)

Module Dashboard.

(** The column expression of both listing queries:
    [CASE WHEN name = '[object Object]' OR name IS NULL
     THEN 'Unknown Server' ELSE name END]. *)
Definition displayName (r : ServerRow.t) : string :=
  match ServerRow.name r with
  | Some n => if String.eqb n "[object Object]" then "Unknown Server" else n
  | None => "Unknown Server"
  end.

End Dashboard.

(** ** Batch query scheduler (scanner/service.js) *)

Module Player.
(** An entry of the array built by [parseA2SPlayer]. *)
Record t := { index : option byte; name : string; score : Z; duration : float }.
End Player.

Module PlayerCodec.

(** The two's-complement reading of a 32-bit pattern. *)
Definition toSigned32 (w : Z) : Z :=
  if (w <? 2147483648)%Z then w else (w - 4294967296)%Z.

(** The 32-bit pattern of four bytes, least significant first. *)
Definition word32 (b0 b1 b2 b3 : byte) : Z :=
  (Z.of_N (Byte.to_N b0) + Z.of_N (Byte.to_N b1) * 2 ^ 8
     + Z.of_N (Byte.to_N b2) * 2 ^ 16 + Z.of_N (Byte.to_N b3) * 2 ^ 24)%Z.

(** The number a binary32 pattern stands for, as the binary64 number
    JavaScript holds it in: sign bit, 8 exponent bits, 23 fraction bits. *)
Definition float32 (w : Z) : float :=
  let sign := (2147483648 <=? w)%Z in
  let exponent := ((w / 8388608) mod 256)%Z in
  let fraction := (w mod 8388608)%Z in
  SF2Prim
    (if (exponent =? 255)%Z then
       if (fraction =? 0)%Z then S754_infinity sign else S754_nan
     else if (exponent =? 0)%Z then
       match fraction with
       | Zpos m => S754_finite sign m (-149)
       | _ => S754_zero sign
       end
     else
       match (8388608 + fraction)%Z with
       | Zpos m => S754_finite sign m (exponent - 150)
       | _ => S754_zero sign
       end).

Section Reads.

(** The text of the [RangeError] that Node's [Buffer] raises for a read at
    [offset] in a buffer of [length] bytes; it is not part of the
    sources. *)
Variable boundsMessage : nat -> nat -> string.

(** [buffer.readInt32LE(offset)] and [buffer.readFloatLE(offset)]: both
    throw unless the bytes at [offset] and [offset + 3] exist. *)
Definition read32 (buffer : list byte) (offset : nat) : JS.outcome Z :=
  match buffer !! offset, buffer !! (offset + 1),
        buffer !! (offset + 2), buffer !! (offset + 3) with
  | Some b0, Some b1, Some b2, Some b3 => JS.Returned (word32 b0 b1 b2 b3)
  | _, _, _, _ => JS.Thrown (boundsMessage offset (List.length buffer))
  end.

Definition readInt32LE (buffer : list byte) (offset : nat) : JS.outcome Z :=
  match read32 buffer offset with
  | JS.Returned w => JS.Returned (toSigned32 w)
  | JS.Thrown message => JS.Thrown message
  end.

Definition readFloatLE (buffer : list byte) (offset : nat) : JS.outcome float :=
  match read32 buffer offset with
  | JS.Returned w => JS.Returned (float32 w)
  | JS.Thrown message => JS.Thrown message
  end.

(** The loop of [parseA2SPlayer]; [remaining] is [playerCount - i]. *)
Fixpoint playerLoop (remaining : nat) (buffer : list byte) (offset : nat)
    (players : list Player.t) : JS.outcome (list Player.t) :=
  match remaining with
  | 0 => JS.Returned players
  | S remaining' =>
      if offset <? List.length buffer then
        let index := buffer !! offset in
        let offset := offset + 1 in
        let nameResult := WireCodec.readString buffer offset in
        let name := StringScan.value nameResult in
        let offset := offset + StringScan.length nameResult + 1 in
        match readInt32LE buffer offset with
        | JS.Thrown message => JS.Thrown message
        | JS.Returned score =>
            let offset := offset + 4 in
            match readFloatLE buffer offset with
            | JS.Thrown message => JS.Thrown message
            | JS.Returned duration =>
                let offset := offset + 4 in
                playerLoop remaining' buffer offset
                  (players ++ [{| Player.index := index; Player.name := name;
                                  Player.score := score;
                                  Player.duration := duration |}])
            end
        end
      else JS.Returned players
  end.

(** [parseA2SPlayer]: the count byte sits at offset 5; when the buffer
    has none, [i < undefined] is false and the loop is not entered. *)
Definition parseA2SPlayer (buffer : list byte) : JS.outcome (list Player.t) :=
  JS.rethrow "Failed to parse A2S_PLAYER: "
    (let playerCount :=
       match buffer !! 5 with
       | Some count => N.to_nat (Byte.to_N count)
       | None => 0
       end in
     playerLoop playerCount buffer 6 []).

End Reads.

(** A player entry as the wire carries it, for building responses. *)
Record entry := {
  entryIndex : byte;
  entryName : list byte;
  score0 : byte; score1 : byte; score2 : byte; score3 : byte;
  duration0 : byte; duration1 : byte; duration2 : byte; duration3 : byte
}.

Definition entryBytes (e : entry) : list byte :=
  entryIndex e :: entryName e
    ++ [x00; score0 e; score1 e; score2 e; score3 e;
        duration0 e; duration1 e; duration2 e; duration3 e].

(** The object [parseA2SPlayer] builds from a whole entry. *)
Definition entryPlayer (e : entry) : Player.t :=
  {| Player.index := Some (entryIndex e);
     Player.name := WireCodec.decoded (entryName e);
     Player.score :=
       toSigned32 (word32 (score0 e) (score1 e) (score2 e) (score3 e));
     Player.duration :=
       float32 (word32 (duration0 e) (duration1 e) (duration2 e) (duration3 e)) |}.


(** The four bytes of a 32-bit two's-complement number, least significant
    first. *)
Definition byteOf (n : Z) : byte :=
  default x00 (Byte.of_N (Z.to_N (n mod 256))).

Definition int32Entry (index : byte) (name : list byte) (score : Z)
    (d0 d1 d2 d3 : byte) : entry :=
  {| entryIndex := index; entryName := name;
     score0 := byteOf score; score1 := byteOf (score / 2 ^ 8);
     score2 := byteOf (score / 2 ^ 16); score3 := byteOf (score / 2 ^ 24);
     duration0 := d0; duration1 := d1; duration2 := d2; duration3 := d3 |}.

End PlayerCodec.

Module ScanStats.
Record t := {
  totalServers : N;
  polishServers : N;
  onlineServers : N;
  offlineServers : N;
  lastScan : option Z
}.
End ScanStats.

Module ServerScannerService.

(** The fields of the service that [queryServer] reads and writes. *)
Record t := {
  polishServers : gset string;
  scanStats : ScanStats.t
}.

Definition initial : t :=
  {| polishServers := ∅;
     scanStats := {| ScanStats.totalServers := 0; ScanStats.polishServers := 0;
                     ScanStats.onlineServers := 0; ScanStats.offlineServers := 0;
                     ScanStats.lastScan := None |} |}.

Definition polishIndicators : list Regex.regex :=
  [ Regex.word (Regex.oneOf (Regex.Lit "pl")
      [Regex.Lit "poland"; Regex.Lit "polska"; Regex.Lit "polish"]);
    Regex.word (Regex.oneOf (Regex.Lit "warszawa")
      [Regex.Lit "krakow"; Regex.Lit "gdansk"; Regex.Lit "wroclaw"; Regex.Lit "poznan"]);
    Regex.Lit "[pl]";
    Regex.Lit "polska";
    Regex.word (Regex.Lit "pl") ].

(** [serverInfo.name] is the object left by [parseA2SInfo], which the
    template literal converts with [toString]. *)
Definition isPolishServer (serverInfo : option Info.t) : bool :=
  match serverInfo with
  | None => false
  | Some info =>
      let textToCheck :=
        JS.toLowerCase
          (Database.objectToString (Info.name info) ++ " " ++ Info.tags info) in
      existsb (fun pattern => Regex.test pattern textToCheck) polishIndicators
  end.

(** [serverInfo?.field || 0] for a single-byte field. *)
Definition byteOrZero (b : option byte) : N :=
  match b with Some v => Byte.to_N v | None => 0%N end.

(** [serverInfo?.field === 1] *)
Definition isOne (b : option byte) : bool :=
  match b with Some v => Byte.eqb v x01 | None => false end.

(** The object [saveServerData] hands to [insertServer]. *)
Definition serverDataOf (ip : string) (port : N) (serverInfo : option Info.t)
    : ServerData.t :=
  {| ServerData.ip := ip;
     ServerData.port := port;
     ServerData.name :=
       match serverInfo with
       | Some info => ServerData.NameObject (Info.name info)
       | None => ServerData.NameText "Unknown"
       end;
     ServerData.map := JS.orElse (Info.map <$> serverInfo) "Unknown";
     ServerData.description := "";
     ServerData.tags := JS.orElse (Info.tags <$> serverInfo) "";
     ServerData.max_players := byteOrZero (serverInfo ≫= Info.max_players);
     ServerData.password_protected := isOne (serverInfo ≫= Info.visibility);
     ServerData.secure := isOne (serverInfo ≫= Info.vac);
     ServerData.version := JS.orElse (Info.version <$> serverInfo) "";
     ServerData.os := JS.orElse (Info.environment <$> serverInfo) "l";
     ServerData.game_id := 4000;
     ServerData.country := "Unknown";
     ServerData.region := "Unknown" |}.

(** The object [saveServerData] hands to [createSnapshot]; [db] is the
    database after [insertServer], where [getServerId] looks the id up. *)
Definition snapshotDataOf (ip : string) (port : N) (serverInfo : option Info.t)
    (db : Database.t) : SnapshotData.t :=
  {| SnapshotData.server_id := Database.getServerId ip port db;
     SnapshotData.player_count := byteOrZero (serverInfo ≫= Info.players);
     SnapshotData.max_players := byteOrZero (serverInfo ≫= Info.max_players);
     SnapshotData.map := JS.orElse (Info.map <$> serverInfo) "Unknown";
     SnapshotData.gamemode := "Unknown";
     SnapshotData.gamemode_confidence := 0%float;
     SnapshotData.is_polish_server := isPolishServer serverInfo;
     SnapshotData.polish_confidence :=
       if isPolishServer serverInfo then 0.9%float else 0.1%float;
     SnapshotData.ping_ms := 0 |}.

(** [saveServerData]; [playerInfo] is received and not used.  An error
    of [insertServer] or of [createSnapshot] is logged and thrown on; the
    two statements read the same CURRENT_TIMESTAMP [now].  The result is
    the outcome of the call and the database after it. *)
Definition saveServerData (now : Z) (ip : string) (port : N)
    (serverInfo : option Info.t) (playerInfo : option (list Player.t))
    (db : Database.t) : JS.outcome unit * Database.t :=
  match Database.insertServer now (serverDataOf ip port serverInfo) db with
  | (JS.Thrown message, db) => (JS.Thrown message, db)
  | (JS.Returned _, db) =>
      Database.createSnapshot now (snapshotDataOf ip port serverInfo db) db
  end.

Definition markServerOffline (now : Z) (ip : string) (port : N)
    (db : Database.t) : Database.t :=
  Database.updateLastSeen now ip port db.

(** [Promise.all] of the two queries: fulfilled with both values when
    both are, rejected as soon as one of them is. *)
Definition promiseAll {A B} (a : JS.outcome A) (b : JS.outcome B) : JS.outcome (A * B) :=
  match a, b with
  | JS.Returned x, JS.Returned y => JS.Returned (x, y)
  | JS.Thrown e, _ => JS.Thrown e
  | JS.Returned _, JS.Thrown e => JS.Thrown e
  end.

Definition countOnline (s : ScanStats.t) : ScanStats.t :=
  {| ScanStats.totalServers := ScanStats.totalServers s;
     ScanStats.polishServers := ScanStats.polishServers s;
     ScanStats.onlineServers := ScanStats.onlineServers s + 1;
     ScanStats.offlineServers := ScanStats.offlineServers s;
     ScanStats.lastScan := ScanStats.lastScan s |}.

Definition countOffline (s : ScanStats.t) : ScanStats.t :=
  {| ScanStats.totalServers := ScanStats.totalServers s;
     ScanStats.polishServers := ScanStats.polishServers s;
     ScanStats.onlineServers := ScanStats.onlineServers s;
     ScanStats.offlineServers := ScanStats.offlineServers s + 1;
     ScanStats.lastScan := ScanStats.lastScan s |}.

Definition countPolish (s : ScanStats.t) : ScanStats.t :=
  {| ScanStats.totalServers := ScanStats.totalServers s;
     ScanStats.polishServers := ScanStats.polishServers s + 1;
     ScanStats.onlineServers := ScanStats.onlineServers s;
     ScanStats.offlineServers := ScanStats.offlineServers s;
     ScanStats.lastScan := ScanStats.lastScan s |}.

(** [queryServer] for the address [`${ip}:${port}`] as the discovery
    adapters write it, so that [split(':')] gives [ip] and the decimal
    numeral of [port] back; [parseInt(port) || 27015] replaces port 0.
    [info] and [players] are the settled promises of [queryServerInfo]
    and [queryServerPlayers] (a timeout, a socket error and a parse error
    all reject).  An error thrown by [saveServerData] is caught like a
    rejected query: the server is marked offline; [now] is then the
    CURRENT_TIMESTAMP of that statement. *)
Definition queryServer (now : Z) (ip : string) (port : N)
    (info : JS.outcome Info.t) (players : JS.outcome (list Player.t))
    (state : t * Database.t) : t * Database.t :=
  let '(self, db) := state in
  let serverAddress := ip ++ ":" ++ JS.decimal port in
  let serverPort := if (port =? 0)%N then 27015%N else port in
  let offline (db : Database.t) :=
    ({| polishServers := polishServers self;
        scanStats := countOffline (scanStats self) |},
     markServerOffline now ip serverPort db) in
  match promiseAll info players with
  | JS.Returned (i, p) =>
      let serverInfo := Some i in
      let playerInfo := Some p in
      if bool_decide (is_Some serverInfo) || bool_decide (is_Some playerInfo) then
        match saveServerData now ip serverPort serverInfo playerInfo db with
        | (JS.Returned _, db) =>
            let stats := countOnline (scanStats self) in
            if isPolishServer serverInfo then
              ({| polishServers := polishServers self ∪ {[ serverAddress ]};
                  scanStats := countPolish stats |}, db)
            else ({| polishServers := polishServers self; scanStats := stats |}, db)
        | (JS.Thrown _, db) => offline db
        end
      else offline db
  | JS.Thrown _ => offline db
  end.


(** The candidate list of [performFullScan]: the addresses of both
    discovery sources added to one [Set], then [Array.from]. *)
Definition discovered (steamServers gameTrackerServers : list string) : list string :=
  JS.setAddAll (JS.setAddAll [] steamServers) gameTrackerServers.

(** The batches of [queryServersBatch]. *)
Definition batches (maxConcurrentQueries : nat) (servers : list string)
    : list (list string) :=
  JS.chunks maxConcurrentQueries servers.

End ServerScannerService.

(** ** External profile client: the rate limiter (steam/client.js) *)

Module SteamAPIClient.

Record t := {
  rateLimitWindow : Z;
  maxRequestsPerWindow : nat;
  requestHistory : list Z
}.

(** The constructor: 200 requests per 5 minutes. *)
Definition create : t :=
  {| rateLimitWindow := 5 * 60 * 1000;
     maxRequestsPerWindow := 200;
     requestHistory := [] |}.

(** [requestHistory.filter(timestamp => now - timestamp < rateLimitWindow)] *)
Definition prune (window now : Z) (history : list Z) : list Z :=
  List.filter (fun timestamp => (now - timestamp <? window)%Z) history.

(** [Math.min(...history)]; [None] is the [Infinity] of no argument. *)
Definition oldestOf (history : list Z) : option Z :=
  match history with
  | [] => None
  | timestamp :: others => Some (fold_left Z.min others timestamp)
  end.

(** The delay [setTimeout] arms for a requested [waitTime]: a value
    outside 1 .. 2^31-1 (and [Infinity]) is replaced by 1. *)
Definition timerDelay (waitTime : option Z) : Z :=
  match waitTime with
  | Some ms => if ((1 <=? ms) && (ms <=? 2147483647))%Z then ms else 1%Z
  | None => 1%Z
  end.

(** [checkRateLimit] entered when [Date.now()] reads [clock]; the timer,
    if one is armed, fires [late] milliseconds after its delay.  Returns
    the reading of the clock at which the call resolves, that is, at
    which [makeRequest] goes on to issue the request. *)
Definition checkRateLimit (late : N) (clock : Z) (self : t) : Z * t :=
  let now := clock in
  let history := prune (rateLimitWindow self) now (requestHistory self) in
  if maxRequestsPerWindow self <=? List.length history then
    let waitTime :=
      (fun oldestRequest => rateLimitWindow self - (now - oldestRequest))%Z
        <$> oldestOf history in
    let clock := (clock + timerDelay waitTime + Z.of_N late)%Z in
    let history := prune (rateLimitWindow self) clock history in
    (clock,
     {| rateLimitWindow := rateLimitWindow self;
        maxRequestsPerWindow := maxRequestsPerWindow self;
        requestHistory := history ++ [now] |})
  else
    (clock,
     {| rateLimitWindow := rateLimitWindow self;
        maxRequestsPerWindow := maxRequestsPerWindow self;
        requestHistory := history ++ [now] |}).

(** A sequence of [makeRequest] calls, one after the other: each call is
    entered [gap] milliseconds after the previous one resolved.  The
    result lists the clock readings at which the requests are issued. *)
Fixpoint issueAll (calls : list (N * N)) (clock : Z) (self : t) : list Z :=
  match calls with
  | [] => []
  | (gap, late) :: calls' =>
      let '(issued, self') := checkRateLimit late (clock + Z.of_N gap) self in
      issued :: issueAll calls' issued self'
  end.

(** The number of requests issued in the window [[start, start + window)]. *)
Definition issuedIn (window start : Z) (issued : list Z) : nat :=
  List.length
    (List.filter (fun at_ => (start <=? at_)%Z && (at_ <? start + window)%Z) issued).


(** The retry settings of the constructor. *)
Definition maxRetries : nat := 3.
Definition retryDelays : list Z := [1000; 2000; 4000]%Z.

(** [makeRequest]: one pass through the rate limiter, then the retry
    loop.  Returns the outcome, the number of HTTP calls made, the time
    spent in retry timers and the client. *)
Definition makeRequest {A} (late : N) (clock : Z)
    (responses : nat -> JS.outcome A) (self : t)
    : option (JS.outcome A) * nat * Z * t :=
  let '(_, self) := checkRateLimit late clock self in
  (JS.retryLoop timerDelay
     (fun message =>
        "Steam API request failed after " ++ JS.decimal (N.of_nat maxRetries)
          ++ " attempts: " ++ message)
     maxRetries retryDelays responses maxRetries 1 0%Z,
   self).

(** What the limiter keeps of its history at a reading [clock]: no
    timestamp of the future and no more than the cap. *)
Definition bounded (clock : Z) (self : t) : Prop :=
  List.Forall (fun timestamp => (timestamp <= clock)%Z) (requestHistory self) /\
  List.length (requestHistory self) <= maxRequestsPerWindow self.

End SteamAPIClient.

(** ** Enrichment queue (steam/service.js) *)

Module DatabaseConnection.

(** The retry settings of the constructor (database/connection.js). *)
Definition retryAttempts : nat := 3.
Definition retryDelays : list Z := [1000; 2000; 4000]%Z.

(** [executeWithRetry]: the last error is thrown again as it is. *)
Definition executeWithRetry {A} (responses : nat -> JS.outcome A)
    : option (JS.outcome A) * nat * Z :=
  JS.retryLoop SteamAPIClient.timerDelay (fun message => message)
    retryAttempts retryDelays responses retryAttempts 1 0%Z.

End DatabaseConnection.

Module QueueItem.
Record t := { steamId : string; priority : string; addedAt : Z; retryCount : nat }.
End QueueItem.

Module SteamDataService.

Record t := {
  processingQueue : list QueueItem.t;
  isProcessing : bool;
  batchSize : nat
}.

Definition create : t :=
  {| processingQueue := []; isProcessing := false; batchSize := 50 |}.

Definition isHigh (item : QueueItem.t) : bool :=
  String.eqb (QueueItem.priority item) "high".

(** The comparator of [processQueue]. *)
Definition compareItems (a b : QueueItem.t) : Z :=
  if isHigh a && negb (isHigh b) then (-1)%Z
  else if isHigh b && negb (isHigh a) then 1%Z
  else (QueueItem.addedAt b - QueueItem.addedAt a)%Z.

(** The order the queue is to be served in: a high-priority item never
    follows a normal one, and within a class the later [addedAt] comes
    first. *)
Definition precedes (a b : QueueItem.t) : Prop :=
  (isHigh b = true -> isHigh a = true) /\
  (isHigh a = isHigh b -> (QueueItem.addedAt b <= QueueItem.addedAt a)%Z).

(** The array update of [addToQueue]: [unshift] for 'high', [push]
    otherwise.  [now] is the reading of [Date.now()] during the call. *)
Definition enqueue (now : Z) (steamIds : list string) (priority : string)
    (queue : list QueueItem.t) : list QueueItem.t :=
  let queueItems :=
    List.map (fun steamId =>
                {| QueueItem.steamId := steamId; QueueItem.priority := priority;
                   QueueItem.addedAt := now; QueueItem.retryCount := 0 |})
      steamIds in
  if String.eqb priority "high" then queueItems ++ queue else queue ++ queueItems.

(** One pass of the loop of [processQueue] up to the [await]: sort, then
    [splice(0, batchSize)].  Returns the batch and the remaining queue. *)
Definition nextBatch (size : nat) (queue : list QueueItem.t)
    : list QueueItem.t * list QueueItem.t :=
  let sorted := JS.sort compareItems queue in
  (take size sorted, drop size sorted).

(** The [catch] of a failed batch: its items go back to the end of the
    queue with one more retry, unless that is the third. *)
Definition requeueFailed (batch queue : list QueueItem.t) : list QueueItem.t :=
  queue ++
  List.filter (fun item => QueueItem.retryCount item <? 3)
    (List.map (fun item =>
                 {| QueueItem.steamId := QueueItem.steamId item;
                    QueueItem.priority := QueueItem.priority item;
                    QueueItem.addedAt := QueueItem.addedAt item;
                    QueueItem.retryCount := QueueItem.retryCount item + 1 |})
       batch).

(** [addToQueue]: the items are queued and, when no worker loop is
    running and the queue is not empty, [processQueue] starts and takes
    its first batch before the call returns. *)
Definition addToQueue (now : Z) (steamIds : list string) (priority : string)
    (self : t) : t * option (list QueueItem.t) :=
  let queue := enqueue now steamIds priority (processingQueue self) in
  if isProcessing self || (List.length queue =? 0) then
    ({| processingQueue := queue; isProcessing := isProcessing self;
        batchSize := batchSize self |}, None)
  else
    let '(batch, queue') := nextBatch (batchSize self) queue in
    ({| processingQueue := queue'; isProcessing := true;
        batchSize := batchSize self |}, Some batch).


(** The loop of [processQueue], run to its end with nothing queued
    meanwhile: [fails round] tells whether [processBatch] throws for the
    batch of that round.  Returns the batches served, in order, and the
    queue that is left. *)
Fixpoint processLoop (fuel : nat) (fails : nat -> bool) (round size : nat)
    (queue : list QueueItem.t) (served : list (list QueueItem.t))
    : list (list QueueItem.t) * list QueueItem.t :=
  match fuel with
  | 0 => (served, queue)
  | S fuel' =>
      match queue with
      | [] => (served, queue)
      | _ :: _ =>
          let '(batch, rest) := nextBatch size queue in
          processLoop fuel' fails (S round) size
            (if fails round then requeueFailed batch rest else rest)
            (served ++ [batch])
      end
  end.

(** The number of rounds an item can still take part in. *)
Definition roundsLeft (item : QueueItem.t) : nat :=
  Nat.max 1 (3 - QueueItem.retryCount item).

Definition workLeft (queue : list QueueItem.t) : nat :=
  list_sum (List.map roundsLeft queue).

End SteamDataService.

(** ** Classification ensemble (the ML service) *)

Module MLServerData.
(** The fields of [serverData] the classifiers read; [None] is a missing
    or [null] field. *)
Record t := { name : option string; tags : option string; map : option string }.
End MLServerData.

Module GamemodePrediction.
(** The result of the rule stage.  The score is a ratio of two string
    lengths plus one half; it is carried here as an exact rational. *)
Record t := {
  gamemode : string;
  confidence : Q;
  needs_review : bool;
  prediction_reason : string
}.
End GamemodePrediction.

Module PolishPrediction.
(** The fields of a regional-affinity prediction that
    [combinePolishPredictions] reads and computes; [prediction_reason],
    a formatted log text, is left out. *)
Record t := { is_polish : bool; confidence : float; needs_review : bool }.
End PolishPrediction.

Module MLService.

(** The thresholds set by the constructor. *)
Definition polishConfidenceThreshold : float := 0.7%float.
Definition reviewThreshold : Q := 0.5%Q.

(** [gamemodePatterns], in the order of the object literal. *)
Definition gamemodePatterns : list (string * Regex.regex) :=
  [ ("darkrp", Regex.word (Regex.oneOf (Regex.Lit "darkrp")
       [Regex.Seq (Regex.Lit "dark") (Regex.Seq Regex.Spaces (Regex.Lit "rp"));
        Regex.Lit "roleplay"; Regex.Lit "rp"]));
    ("sandbox", Regex.word (Regex.oneOf (Regex.Lit "sandbox")
       [Regex.Lit "build"; Regex.Lit "creative"]));
    ("ttt", Regex.word (Regex.oneOf (Regex.Lit "ttt")
       [Regex.Lit "trouble"; Regex.Lit "terrorist"; Regex.Lit "traitor"]));
    ("prophunt", Regex.word (Regex.oneOf
       (Regex.Seq (Regex.Lit "prop") (Regex.Seq Regex.Spaces (Regex.Lit "hunt")))
       [Regex.Lit "prophunt"; Regex.Lit "hide"]));
    ("murder", Regex.word (Regex.oneOf (Regex.Lit "murder") [Regex.Lit "gm_murder"]));
    ("deathrun", Regex.word (Regex.oneOf (Regex.Lit "deathrun")
       [Regex.Seq (Regex.Lit "death") (Regex.Seq Regex.Spaces (Regex.Lit "run"));
        Regex.Lit "dr_"]));
    ("jailbreak", Regex.word (Regex.oneOf (Regex.Lit "jailbreak")
       [Regex.Seq (Regex.Lit "jail") (Regex.Seq Regex.Spaces (Regex.Lit "break"));
        Regex.Lit "prison"]));
    ("zombiesurvival", Regex.word (Regex.oneOf (Regex.Lit "zombie")
       [Regex.Lit "zs_"; Regex.Lit "survival"]));
    ("cinema", Regex.word (Regex.oneOf (Regex.Lit "cinema")
       [Regex.Lit "movie"; Regex.Lit "theater"]));
    ("militaryrp", Regex.word (Regex.oneOf (Regex.Lit "military")
       [Regex.Lit "milrp"; Regex.Lit "army"; Regex.Lit "war"])) ].

(** The text blob of both rule stages. *)
Definition blob (serverData : MLServerData.t) : string :=
  JS.toLowerCase
    (JS.orElse (MLServerData.name serverData) "" ++ " "
       ++ JS.orElse (MLServerData.tags serverData) "" ++ " "
       ++ JS.orElse (MLServerData.map serverData) "").

(** [matches[0].length / text.length + 0.5] *)
Definition spanScore (matched total : nat) : Q :=
  (inject_Z (Z.of_nat matched) / inject_Z (Z.of_nat total) + 0.5)%Q.

Definition Qltb (a b : Q) : bool := negb (Qle_bool b a).

(** The first span is no longer than the second; no match counts as the
    shortest. *)
Definition spanLe (first second : option nat) : Prop :=
  match first, second with
  | None, _ => True
  | Some m1, Some m2 => m1 <= m2
  | Some _, None => False
  end.

(** The character next to an occurrence is not a word character, or
    there is none. *)
Definition outsideWord (c : option ascii) : Prop := Regex.wordAt c = false.

(** One pass of the loop over the detectors; the accumulator is
    [(bestMatch, highestScore)]. *)
Definition visit (text : string) (acc : option string * Q)
    (entry : string * Regex.regex) : option string * Q :=
  match Regex.matchedLength (snd entry) text with
  | Some matched =>
      let score := spanScore matched (String.length text) in
      if Qltb (snd acc) score then (Some (fst entry), score) else acc
  | None => acc
  end.

Definition scan (text : string) : option string * Q :=
  fold_left (visit text) gamemodePatterns (None, 0%Q).

(** The rule stage on the text blob. *)
Definition ruleStage (text : string) : GamemodePrediction.t :=
  let '(bestMatch, highestScore) := scan text in
  {| GamemodePrediction.gamemode := JS.orElse bestMatch "unknown";
     GamemodePrediction.confidence := Qmin highestScore 0.95%Q;
     GamemodePrediction.needs_review := Qltb highestScore reviewThreshold;
     GamemodePrediction.prediction_reason :=
       match bestMatch with
       | Some g => if String.eqb g "" then "No pattern match"
                   else "Rule-based match: " ++ g
       | None => "No pattern match"
       end |}.

Definition predictGamemodeRuleBased (serverData : MLServerData.t)
    : GamemodePrediction.t :=
  ruleStage (blob serverData).

(** [gamemodePatterns[gamemode]] *)
Definition patternOf (gamemode : string) : option Regex.regex :=
  snd <$> List.find (fun entry => String.eqb (fst entry) gamemode) gamemodePatterns.

(** The length of the matched span behind the answer of the rule stage:
    [matches[0].length] for the detector it names; none when no detector
    matches. *)
Definition matchedSpan (text : string) : option nat :=
  match fst (scan text) with
  | Some gamemode =>
      match patternOf gamemode with
      | Some pattern => Regex.matchedLength pattern text
      | None => None
      end
  | None => None
  end.

(** [combinePolishPredictions] on binary64 numbers. *)
Definition combinePolishPredictions (ruleBased ml : PolishPrediction.t)
    : PolishPrediction.t :=
  let combinedConfidence :=
    (PolishPrediction.confidence ruleBased * 0.6
       + PolishPrediction.confidence ml * 0.4)%float in
  let isPolish := (0.5 <? combinedConfidence)%float in
  {| PolishPrediction.is_polish := isPolish;
     PolishPrediction.confidence := combinedConfidence;
     PolishPrediction.needs_review :=
       (0.3 <? combinedConfidence)%float
         && (combinedConfidence <? polishConfidenceThreshold)%float |}.


(** The thresholds of the constructor that the functions below read. *)
Definition gamemodeConfidenceThreshold : Q := 0.6%Q.
Definition reviewThresholdNumber : float := 0.5%float.

(** [combineGamemodePredictions]; the confidence of the model is taken to
    be a number and is carried, like that of the rule stage, as a
    rational. *)
Definition combineGamemodePredictions (ruleBased ml : GamemodePrediction.t)
    : GamemodePrediction.t :=
  if Qltb 0.8%Q (GamemodePrediction.confidence ruleBased) then ruleBased
  else if Qltb (GamemodePrediction.confidence ruleBased)
            (GamemodePrediction.confidence ml)
       then ml
       else ruleBased.

(** [predictGamemode]; [mlResult] is what [predictGamemodeML] answers
    (it catches its own errors), asked for only when the rule stage is
    not confident. *)
Definition predictGamemode (serverData : MLServerData.t)
    (mlResult : GamemodePrediction.t) : GamemodePrediction.t :=
  let ruleBasedResult := predictGamemodeRuleBased serverData in
  if Qltb gamemodeConfidenceThreshold (GamemodePrediction.confidence ruleBasedResult)
  then ruleBasedResult
  else combineGamemodePredictions ruleBasedResult mlResult.

(** A detector of [polishPatterns]: its [source] text and its matcher.
    The detector of the flag has no matcher here: its source is the two
    regional-indicator symbols, four code units above 255, which no text
    of this model contains. *)
Record detector := { source : string; matcher : option Regex.regex }.

Definition polishPatterns : list detector :=
  [ {| source := "\b(pl|poland|polska|polish)\b";
       matcher := Some (Regex.word (Regex.oneOf (Regex.Lit "pl")
         [Regex.Lit "poland"; Regex.Lit "polska"; Regex.Lit "polish"])) |};
    {| source := "\b(warszawa|krakow|gdansk|wroclaw|poznan|lodz|katowice)\b";
       matcher := Some (Regex.word (Regex.oneOf (Regex.Lit "warszawa")
         [Regex.Lit "krakow"; Regex.Lit "gdansk"; Regex.Lit "wroclaw";
          Regex.Lit "poznan"; Regex.Lit "lodz"; Regex.Lit "katowice"])) |};
    {| source := "\[pl\]"; matcher := Some (Regex.Lit "[pl]") |};
    {| source := "polska"; matcher := Some (Regex.Lit "polska") |};
    {| source := "\bpl\b"; matcher := Some (Regex.word (Regex.Lit "pl")) |};
    {| source := "polsk"; matcher := Some (Regex.Lit "polsk") |};
    {| source := "🇵🇱"; matcher := None |};
    {| source := "polish"; matcher := Some (Regex.Lit "polish") |} ].

(** [pattern.test(text)] *)
Definition detects (text : string) (d : detector) : bool :=
  match matcher d with
  | Some r => Regex.test r text
  | None => false
  end.

(** The weight of a detector, read off its source text: 0.9 when it
    mentions [polska] or [poland], 0.8 for the flag, 0.6 otherwise. *)
Definition strength (d : detector) : float :=
  if JS.includes "polska" (source d) || JS.includes "poland" (source d)
  then 0.9%float
  else if JS.includes "🇵🇱" (source d) then 0.8%float
  else 0.6%float.

(** [Math.min(a, b)] for numbers that are not NaN. *)
Definition floatMin (a b : float) : float := if (b <? a)%float then b else a.

(** The loop of [predictPolishServerRuleBased] over the detectors that
    [hit]; the accumulator is [(matchCount, totalStrength)]. *)
Definition polishStep (hit : detector -> bool) (acc : nat * float) (d : detector)
    : nat * float :=
  if hit d then (S (fst acc), (snd acc + strength d)%float) else acc.

Definition polishRule (hit : detector -> bool) : PolishPrediction.t * string :=
  let '(matchCount, totalStrength) :=
    fold_left (polishStep hit) polishPatterns (0, 0%float) in
  let confidence := floatMin totalStrength 0.95%float in
  ({| PolishPrediction.is_polish := (reviewThresholdNumber <? confidence)%float;
      PolishPrediction.confidence := confidence;
      PolishPrediction.needs_review :=
        (confidence <? polishConfidenceThreshold)%float
          && (0.3 <? confidence)%float |},
   "Rule-based: " ++ JS.decimal (N.of_nat matchCount) ++ " patterns matched").

Definition predictPolishServerRuleBased (serverData : MLServerData.t)
    : PolishPrediction.t * string :=
  polishRule (detects (blob serverData)).

(** [text.split(/\s+/)]: the pieces between the runs of white space, an
    empty piece included where the text begins or ends with one. *)
Fixpoint splitLoop (text word : list ascii) (afterSpace : bool) : list string :=
  match text with
  | [] => [string_of_list_ascii word]
  | c :: text' =>
      if Regex.isSpace c then
        if afterSpace then splitLoop text' word true
        else string_of_list_ascii word :: splitLoop text' [] true
      else splitLoop text' (word ++ [c]) false
  end.

Definition split (text : string) : list string :=
  splitLoop (list_ascii_of_string text) [] false.

(** [text.split(/\s+/).filter(word => word.length > 2)] *)
Definition wordsOf (text : string) : list string :=
  List.filter (fun word => 2 <? String.length word) (split text).

(** The loop of [extractFeatures] over the words. *)
Definition mark (vocabulary : gmap string nat) (features : list nat)
    (word : string) : list nat :=
  match vocabulary !! word with
  | Some index =>
      if index <? List.length features then <[index := 1]> features else features
  | None => features
  end.

(** [extractFeatures]: a vector of 100 entries, [vocabulary] being the
    [Map] from word to index. *)
Definition extractFeatures (serverData : MLServerData.t)
    (vocabulary : gmap string nat) : list nat :=
  fold_left (mark vocabulary) (wordsOf (blob serverData)) (replicate 100 0).

(** The text of a row read by [buildVocabularies]. *)
Definition rowText (r : ServerRow.t) : string :=
  JS.toLowerCase
    (JS.orElse (ServerRow.name r) "" ++ " " ++ JS.orElse (Some (ServerRow.tags r)) ""
       ++ " " ++ JS.orElse (Some (ServerRow.map r)) "").

(** The [Set] [allText] of [buildVocabularies], over the rows of
    [SELECT name, tags, map FROM servers WHERE name IS NOT NULL]. *)
Definition allText (db : Database.t) : list string :=
  fold_left (fun set server => JS.setAddAll set (wordsOf (rowText server)))
    (List.filter
       (fun r => match ServerRow.name r with Some _ => true | None => false end)
       (Database.servers db))
    [].

(** [Array.from(allText).forEach((word, index) => vocabulary.set(word,
    index))], from the position [first] on. *)
Fixpoint indexFrom (first : nat) (words : list string)
    (vocabulary : gmap string nat) : gmap string nat :=
  match words with
  | [] => vocabulary
  | word :: words' => indexFrom (S first) words' (<[word := first]> vocabulary)
  end.

(** The vocabulary [buildVocabularies] leaves in both [Map]s, which the
    constructor created empty. *)
Definition buildVocabularies (db : Database.t) : gmap string nat :=
  indexFrom 0 (allText db) ∅.

End MLService.

(** ** Sample data *)

Module Sample.

(** An info response in the layout [parseA2SInfo] reads: four header
    bytes, the protocol byte, four strings, seven one-byte fields and the
    version string. *)
Definition infoResponse : list byte :=
  [xff; xff; xff; xff; x11]
    ++ list_byte_of_string "My Server" ++ [x00]
    ++ list_byte_of_string "gm_construct" ++ [x00]
    ++ list_byte_of_string "garrysmod" ++ [x00]
    ++ list_byte_of_string "Sandbox" ++ [x00]
    ++ [x05; x20; x00; x64; x6c; x00; x01]
    ++ list_byte_of_string "2023.06.28" ++ [x00].

(** The header of a directory response and the record 192.168.1.1:27047. *)
Definition directoryHeader : list byte := [xff; xff; xff; xff; x66; x0a].

Definition lanServer : WireCodec.directoryRecord :=
  {| WireCodec.octet1 := xc0; WireCodec.octet2 := xa8; WireCodec.octet3 := x01;
     WireCodec.octet4 := x01; WireCodec.portHigh := x69; WireCodec.portLow := xa7 |}.

Definition terminator : WireCodec.directoryRecord :=
  {| WireCodec.octet1 := x00; WireCodec.octet2 := x00; WireCodec.octet3 := x00;
     WireCodec.octet4 := x00; WireCodec.portHigh := x00; WireCodec.portLow := x00 |}.

Definition serverData (name map : string) (max_players : N) : ServerData.t :=
  {| ServerData.ip := "192.168.1.1"; ServerData.port := 27015;
     ServerData.name := ServerData.NameText name; ServerData.map := map;
     ServerData.description := ""; ServerData.tags := "";
     ServerData.max_players := max_players;
     ServerData.password_protected := false; ServerData.secure := true;
     ServerData.version := "2023.06.28"; ServerData.os := "l";
     ServerData.game_id := 4000; ServerData.country := "Unknown";
     ServerData.region := "Unknown" |}.

(** A limiter of 3 requests per second. *)
Definition threePerSecond : SteamAPIClient.t :=
  {| SteamAPIClient.rateLimitWindow := 1000;
     SteamAPIClient.maxRequestsPerWindow := 3;
     SteamAPIClient.requestHistory := [] |}.

(** Two normal items and a high-priority one, queued in that order. *)
Definition queue : list QueueItem.t :=
  SteamDataService.enqueue 20 ["76561198000000003"] "high"
    (SteamDataService.enqueue 10
       ["76561198000000001"; "76561198000000002"] "normal" []).

(** The same client with its window full at the reading 30. *)
Definition fullWindow : SteamAPIClient.t :=
  {| SteamAPIClient.rateLimitWindow := 1000;
     SteamAPIClient.maxRequestsPerWindow := 3;
     SteamAPIClient.requestHistory := [0; 10; 20]%Z |}.

Definition prediction (confidence : float) : PolishPrediction.t :=
  {| PolishPrediction.is_polish := (0.5 <? confidence)%float;
     PolishPrediction.confidence := confidence;
     PolishPrediction.needs_review := false |}.

(** Two blobs of 41 characters: in the first the longest match is
    [sandbox], in the second it is [roleplay]. *)
Definition shorterSpan : string := "rp sandbox aaaaaaaaaaaaaaaaaaaaaaaaaaaaaa".
Definition longerSpan : string := "roleplay aaaaaaaaaaaaaaaaaaaaaaaaaaaaaaaa".

Definition named (name : string) : MLServerData.t :=
  {| MLServerData.name := Some name; MLServerData.tags := None;
     MLServerData.map := None |}.


(** The fields of [infoResponse]. *)
Definition infoFields : WireCodec.infoFields :=
  {| WireCodec.protocolByte := x11;
     WireCodec.nameBytes := list_byte_of_string "My Server";
     WireCodec.mapBytes := list_byte_of_string "gm_construct";
     WireCodec.folderBytes := list_byte_of_string "garrysmod";
     WireCodec.gameBytes := list_byte_of_string "Sandbox";
     WireCodec.playersByte := x05; WireCodec.maxPlayersByte := x20;
     WireCodec.botsByte := x00; WireCodec.serverTypeByte := x64;
     WireCodec.environmentByte := x6c; WireCodec.visibilityByte := x00;
     WireCodec.vacByte := x01;
     WireCodec.versionBytes := list_byte_of_string "2023.06.28" |}.

(** Two player entries: [ab] with score -2 and a name of two characters,
    [P] and U+00F3, in the three bytes 50 C3 B3, with score 70000; both
    with the duration 1.0 (0x3F800000). *)
Definition playerEntries : list PlayerCodec.entry :=
  [ PlayerCodec.int32Entry x00 (list_byte_of_string "ab") (-2) x00 x00 x80 x3f;
    PlayerCodec.int32Entry x01 [x50; xc3; xb3] 70000 x00 x00 x80 x3f ].

Definition playerHeader : list byte := [xff; xff; xff; xff; x44].

End Sample.

(** * Properties *)

Local Open Scope list_scope.

(** ** Wire codec: the directory response *)

Section DirectoryResponse.

Import WireCodec.

Lemma lookup_after (pre : list byte) (l : list byte) (k : nat) :
  (pre ++ l) !! (List.length pre + k) = l !! k.
Proof.
  rewrite lookup_app_r by lia.
  f_equal. lia.
Qed.

Lemma flat_map_length_records (records : list directoryRecord) :
  List.length (flat_map recordBytes records) = 6 * List.length records.
Proof.
  induction records as [|r records IH]; simpl; [reflexivity | lia].
Qed.

(** The loop, started at the first of [records] with a tail of one to six
    bytes after the last, decodes exactly [records]. *)
Lemma parseLoop_records (records : list directoryRecord) :
  forall (pre tail : list byte) (servers : list string) (fuel : nat),
    1 <= List.length tail <= 6 ->
    List.length records < fuel ->
    parseLoop fuel (pre ++ flat_map recordBytes records ++ tail)
      (List.length pre) servers
    = servers ++ List.map recordCandidate records.
Proof.
  induction records as [|r records IH]; intros pre tail servers fuel Htail Hfuel.
  - destruct fuel as [|fuel]; [lia|].
    simpl. rewrite length_app.
    destruct (Z.ltb_spec (Z.of_nat (List.length pre))
                (Z.of_nat (List.length pre + List.length tail) - 6)) as [Hlt|_];
      [lia|].
    now rewrite app_nil_r.
  - destruct fuel as [|fuel]; [simpl in Hfuel; lia|].
    cbn [parseLoop].
    destruct (Z.ltb_spec (Z.of_nat (List.length pre))
                (Z.of_nat (List.length
                   (pre ++ flat_map recordBytes (r :: records) ++ tail)) - 6))
      as [_|Hge].
    2:{ rewrite !length_app in Hge. simpl in Hge. lia. }
    rewrite <- (Nat.add_0_r (List.length pre)) at 2.
    rewrite !lookup_after. cbn [flat_map recordBytes app lookup list_lookup].
    simpl (_ !! _).
    replace (pre ++ octet1 r :: octet2 r :: octet3 r :: octet4 r
               :: portHigh r :: portLow r :: flat_map recordBytes records ++ tail)
      with ((pre ++ recordBytes r) ++ flat_map recordBytes records ++ tail)
      by (rewrite <- app_assoc; reflexivity).
    replace (List.length pre + 6) with (List.length (pre ++ recordBytes r))
      by (rewrite length_app; reflexivity).
    rewrite IH by (simpl in Hfuel; lia).
    rewrite <- app_assoc. reflexivity.
Qed.

(** The loop never stops for lack of fuel: more fuel than the handler
    gives changes nothing. *)
Lemma parseLoop_enough (fuel : nat) :
  forall (extra : nat) (msg : Buffer) (offset : nat) (servers : list string),
    List.length msg <= offset + 6 * fuel + 6 ->
    parseLoop (fuel + extra) msg offset servers = parseLoop fuel msg offset servers.
Proof.
  induction fuel as [|fuel IH]; intros extra msg offset servers Hlen.
  - destruct extra as [|extra]; [reflexivity|]. cbn [Nat.add parseLoop].
    destruct (Z.ltb_spec (Z.of_nat offset) (Z.of_nat (List.length msg) - 6));
      [lia | reflexivity].
  - cbn [Nat.add parseLoop].
    destruct (Z.ltb_spec (Z.of_nat offset) (Z.of_nat (List.length msg) - 6));
      [|reflexivity].
    apply IH. lia.
Qed.

Lemma onMessage_enough (extra : nat) (servers : list string) (msg : Buffer) :
  parseLoop (List.length msg + extra) msg 6 servers = onMessage servers msg.
Proof. unfold onMessage. apply parseLoop_enough. lia. Qed.

(** A datagram of at most 12 bytes yields no candidate. *)
Lemma onMessage_short (servers : list string) (msg : Buffer) :
  List.length msg <= 12 -> onMessage servers msg = servers.
Proof.
  intros Hlen. unfold onMessage.
  destruct (List.length msg) as [|n] eqn:E; [reflexivity|].
  cbn [parseLoop]. rewrite E.
  destruct (Z.ltb_spec (Z.of_nat 6) (Z.of_nat (S n) - 6)); [lia | reflexivity].
Qed.

End DirectoryResponse.

(** C2, as amended: the handler decodes consecutive 6-byte records (four
    address octets, then the port with its high byte first) from offset 6
    on, for as long as more than 6 bytes are left; the last one to six
    bytes of a datagram, where the terminator record sits, are never
    decoded. *)
Theorem directory_records (servers : list string) (header tail : list byte)
    (records : list WireCodec.directoryRecord) :
  List.length header = 6 ->
  1 <= List.length tail <= 6 ->
  WireCodec.onMessage servers
    (header ++ flat_map WireCodec.recordBytes records ++ tail)
  = servers ++ List.map WireCodec.recordCandidate records.
Proof.
  intros Hheader Htail. unfold WireCodec.onMessage.
  rewrite <- Hheader.
  apply parseLoop_records; [exact Htail|].
  rewrite !length_app, flat_map_length_records. lia.
Qed.

(** The record 192.168.1.1:27047 followed by the terminator record is
    the one candidate of its datagram. *)
Lemma directory_records_witness :
  List.length Sample.directoryHeader = 6 /\
  1 <= List.length (WireCodec.recordBytes Sample.terminator) <= 6 /\
  WireCodec.onMessage []
    (Sample.directoryHeader ++ WireCodec.recordBytes Sample.lanServer
       ++ WireCodec.recordBytes Sample.terminator)
  = ["192.168.1.1:27047"%string].
Proof.
  split; [reflexivity|]. split; [simpl; lia|].
  apply (directory_records [] Sample.directoryHeader
           (WireCodec.recordBytes Sample.terminator) [Sample.lanServer]).
  - reflexivity.
  - simpl; lia.
Defined.

(** C2, as stated, fails: the 12-byte datagram of a header and the single
    record 192.168.1.1:27047 yields no candidate, the loop test
    [6 < 12 - 6] being false at once. *)
Lemma directory_single_record_dropped :
  WireCodec.onMessage []
    (Sample.directoryHeader ++ WireCodec.recordBytes Sample.lanServer) = [] /\
  WireCodec.onMessage []
    (Sample.directoryHeader ++ WireCodec.recordBytes Sample.lanServer)
  <> ["192.168.1.1:27047"%string].
Proof. split; [reflexivity | discriminate]. Qed.

(** ** Wire codec: the info response *)

Section InfoResponse.

Import WireCodec.

Lemma scanLength_le (rest : list byte) : scanLength rest <= List.length rest.
Proof.
  induction rest as [|b rest IH]; simpl; [lia|].
  destruct (Byte.eqb b x00); lia.
Qed.

(** A string whose terminator was cut off is read up to the end of the
    buffer. *)
Lemma scanLength_unterminated (rest : list byte) :
  Forall (fun b => b <> x00) rest -> scanLength rest = List.length rest.
Proof.
  induction 1 as [|b rest Hb _ IH]; simpl; [reflexivity|].
  destruct (Byte.eqb b x00) eqn:E; [|now rewrite IH].
  apply Byte.byte_dec_bl in E. contradiction.
Qed.

Lemma readString_unterminated (buffer : Buffer) (offset : nat) :
  Forall (fun b => b <> x00) (drop offset buffer) ->
  readString buffer offset
  = {| StringScan.value := decoded (drop offset buffer);
       StringScan.length := List.length buffer - offset |}.
Proof.
  intros H. unfold readString, sliceString.
  rewrite (scanLength_unterminated _ H), length_drop.
  f_equal. f_equal. apply firstn_all2. rewrite length_drop. lia.
Qed.

End InfoResponse.

(** C3 fails on the code: a truncated info response is not refused.  The
    sample response cut inside its first string (after [My Se]) is
    decoded without any error, into an object with that part of the name,
    with the later strings empty and with the single-byte fields
    [undefined], each of them read past the end of the buffer; and the
    response cut by its last byte alone decodes to the same object as the
    whole response.  The [catch] of [parseA2SInfo], written to turn a
    failed read into [Failed to parse A2S_INFO], is never entered. *)
Theorem truncated_info_is_accepted :
  WireCodec.parseA2SInfo (take 10 Sample.infoResponse)
  = JS.Returned
      {| Info.protocol := Some x11;
         Info.name := {| StringScan.value := "My Se"; StringScan.length := 5 |};
         Info.map := ""; Info.folder := ""; Info.game := "";
         Info.players := None; Info.max_players := None; Info.bots := None;
         Info.server_type := String Ascii.zero EmptyString;
         Info.environment := String Ascii.zero EmptyString;
         Info.visibility := None; Info.vac := None;
         Info.version := ""; Info.port := 0; Info.tags := "" |} /\
  WireCodec.parseA2SInfo
    (take (List.length Sample.infoResponse - 1) Sample.infoResponse)
  = WireCodec.parseA2SInfo Sample.infoResponse.
Proof. split; reflexivity. Qed.

(** ** Persistence gateway *)

Section Persistence.

Lemma find_filter_out {A} (f : A -> bool) (l : list A) :
  List.find f (List.filter (fun x => negb (f x)) l) = None.
Proof.
  induction l as [|x l IH]; simpl; [reflexivity|].
  destruct (f x) eqn:E; simpl; [exact IH|].
  now rewrite E.
Qed.

Lemma find_app_none {A} (f : A -> bool) (l1 l2 : list A) :
  List.find f l1 = None -> List.find f (l1 ++ l2) = List.find f l2.
Proof.
  induction l1 as [|x l1 IH]; simpl; [reflexivity|].
  destruct (f x); [discriminate | exact IH].
Qed.

Lemma filter_filter_out {A} (f : A -> bool) (l : list A) :
  List.filter f (List.filter (fun x => negb (f x)) l) = [].
Proof.
  induction l as [|x l IH]; simpl; [reflexivity|].
  destruct (f x) eqn:E; simpl; [exact IH|].
  now rewrite E.
Qed.

Lemma sameIdentity_refl (ip : string) (port : N) (r : ServerRow.t) :
  ServerRow.ip r = ip -> ServerRow.port r = port ->
  Database.sameIdentity ip port r = true.
Proof.
  intros <- <-. unfold Database.sameIdentity.
  now rewrite String.eqb_refl, N.eqb_refl.
Qed.

(** After an accepted [insertServer] the identity has exactly one row,
    the new one: its columns are those of the call and both timestamps
    are the time of the call. *)
Lemma replaceServer_one_row (now : Z) (serverData : ServerData.t) (db : Database.t) :
  List.filter
    (Database.sameIdentity (ServerData.ip serverData) (ServerData.port serverData))
    (Database.servers (Database.replaceServer now serverData db))
  = [ {| ServerRow.id := (Database.servers_sequence db + 1)%N;
         ServerRow.ip := ServerData.ip serverData;
         ServerRow.port := ServerData.port serverData;
         ServerRow.name := Some (Database.bindText (ServerData.name serverData));
         ServerRow.map := ServerData.map serverData;
         ServerRow.description := ServerData.description serverData;
         ServerRow.tags := ServerData.tags serverData;
         ServerRow.max_players := ServerData.max_players serverData;
         ServerRow.password_protected := ServerData.password_protected serverData;
         ServerRow.secure := ServerData.secure serverData;
         ServerRow.version := ServerData.version serverData;
         ServerRow.os := ServerData.os serverData;
         ServerRow.game_id := ServerData.game_id serverData;
         ServerRow.first_seen := now;
         ServerRow.last_seen := now;
         ServerRow.is_active := true;
         ServerRow.country := ServerData.country serverData;
         ServerRow.region := ServerData.region serverData |} ].
Proof.
  unfold Database.replaceServer. cbn [Database.servers].
  rewrite List.filter_app, filter_filter_out. cbn [List.filter app].
  now rewrite sameIdentity_refl.
Qed.

Lemma replaceServer_lookup (now : Z) (serverData : ServerData.t) (db : Database.t) :
  exists row,
    Database.lookupServer (ServerData.ip serverData) (ServerData.port serverData)
      (Database.replaceServer now serverData db) = Some row /\
    ServerRow.id row = (Database.servers_sequence db + 1)%N /\
    ServerRow.name row = Some (Database.bindText (ServerData.name serverData)) /\
    ServerRow.first_seen row = now.
Proof.
  eexists. unfold Database.lookupServer, Database.replaceServer.
  cbn [Database.servers].
  rewrite find_app_none by apply find_filter_out.
  cbn [List.find]. rewrite sameIdentity_refl by reflexivity.
  repeat split.
Qed.

(** [insertServer] is rejected, leaving the database as it is, or it
    replaces the row. *)
Lemma insertServer_cases (now : Z) (serverData : ServerData.t) (db : Database.t) :
  Database.insertServer now serverData db
  = (JS.Thrown Database.foreignKeyFailed, db) \/
  Database.insertServer now serverData db
  = (JS.Returned tt, Database.replaceServer now serverData db).
Proof.
  unfold Database.insertServer. destruct (existsb _ _); [now left | now right].
Qed.

Lemma insertServer_one_row (now : Z) (serverData : ServerData.t) (db : Database.t) :
  fst (Database.insertServer now serverData db) = JS.Returned tt ->
  List.filter
    (Database.sameIdentity (ServerData.ip serverData) (ServerData.port serverData))
    (Database.servers (snd (Database.insertServer now serverData db)))
  = List.filter
      (Database.sameIdentity (ServerData.ip serverData) (ServerData.port serverData))
      (Database.servers (Database.replaceServer now serverData db)) /\
  List.length
    (List.filter
       (Database.sameIdentity (ServerData.ip serverData) (ServerData.port serverData))
       (Database.servers (snd (Database.insertServer now serverData db)))) = 1.
Proof.
  destruct (insertServer_cases now serverData db) as [-> | ->];
    [discriminate|].
  intros _. cbn [snd]. split; [reflexivity|].
  now rewrite replaceServer_one_row.
Qed.

(** The new row is found by its id. *)
Lemma serverById_replaceServer (now : Z) (serverData : ServerData.t)
    (db : Database.t) :
  is_Some (Database.serverById (Database.servers_sequence db + 1)
             (Database.replaceServer now serverData db)).
Proof.
  unfold Database.serverById, Database.replaceServer. cbn [Database.servers].
  induction (List.filter _ (Database.servers db)) as [|r rows IH];
    cbn [app List.find ServerRow.id].
  - rewrite N.eqb_refl. now eexists.
  - destruct (ServerRow.id r =? _)%N; [now eexists | exact IH].
Qed.

(** [saveServerData] is rejected by [insertServer], leaving the database
    as it is, or it replaces the row of the address and adds the
    snapshot that refers to it. *)
Lemma saveServerData_cases (now : Z) (ip : string) (port : N)
    (info : option Info.t) (players : option (list Player.t))
    (db : Database.t) :
  let serverData := ServerScannerService.serverDataOf ip port info in
  let replaced := Database.replaceServer now serverData db in
  (Database.insertServer now serverData db
   = (JS.Thrown Database.foreignKeyFailed, db) /\
   ServerScannerService.saveServerData now ip port info players db
   = (JS.Thrown Database.foreignKeyFailed, db)) \/
  (Database.insertServer now serverData db = (JS.Returned tt, replaced) /\
   Database.getServerId ip port replaced
   = Some (Database.servers_sequence db + 1)%N /\
   ServerScannerService.saveServerData now ip port info players db
   = (JS.Returned tt,
      Database.appendSnapshot now
        (ServerScannerService.snapshotDataOf ip port info replaced) replaced)).
Proof.
  cbv zeta. unfold ServerScannerService.saveServerData.
  destruct (insertServer_cases now
              (ServerScannerService.serverDataOf ip port info) db) as [E | E];
    rewrite E; [left; split; reflexivity|].
  right. split; [reflexivity|].
  destruct (replaceServer_lookup now
              (ServerScannerService.serverDataOf ip port info) db)
    as (row & Hrow & Hid & _).
  cbn [ServerScannerService.serverDataOf ServerData.ip ServerData.port] in Hrow.
  assert (Hfound : Database.getServerId ip port
                     (Database.replaceServer now
                        (ServerScannerService.serverDataOf ip port info) db)
                   = Some (Database.servers_sequence db + 1)%N)
    by (unfold Database.getServerId; rewrite Hrow; cbn; now rewrite Hid).
  split; [exact Hfound|].
  unfold Database.createSnapshot.
  cbn [ServerScannerService.snapshotDataOf SnapshotData.server_id].
  rewrite Hfound.
  destruct (serverById_replaceServer now
              (ServerScannerService.serverDataOf ip port info) db)
    as (found & ->).
  reflexivity.
Qed.

End Persistence.

(** C10: on every buffer the decoder returns an object whose [name] is
    the whole record of the string scan at offset 5, while [map],
    [folder], [game] and [version] are the scanned strings; whenever
    [saveServerData] stores that object, the name column of the server's
    row is the text [[object Object]], which the dashboard query shows as
    [Unknown Server].  (A save that the database rejects stores nothing;
    a save into the empty database is accepted.) *)
Theorem info_name_is_scan_record (buffer : list byte) :
  exists info,
    WireCodec.parseA2SInfo buffer = JS.Returned info /\
    Info.name info = WireCodec.readString buffer 5 /\
    (let o1 := 5 + StringScan.length (Info.name info) + 1 in
     let s1 := WireCodec.readString buffer o1 in
     let o2 := o1 + StringScan.length s1 + 1 in
     let s2 := WireCodec.readString buffer o2 in
     let o3 := o2 + StringScan.length s2 + 1 in
     let s3 := WireCodec.readString buffer o3 in
     let o4 := o3 + StringScan.length s3 + 1 + 7 in
     Info.map info = StringScan.value s1 /\
     Info.folder info = StringScan.value s2 /\
     Info.game info = StringScan.value s3 /\
     Info.version info = StringScan.value (WireCodec.readString buffer o4)) /\
    (forall now ip port playerInfo db,
       let saved :=
         ServerScannerService.saveServerData now ip port (Some info) playerInfo db in
       (fst saved = JS.Thrown Database.foreignKeyFailed /\ snd saved = db) \/
       (fst saved = JS.Returned tt /\
        exists row,
          Database.lookupServer ip port (snd saved) = Some row /\
          ServerRow.name row = Some "[object Object]"%string /\
          Dashboard.displayName row = "Unknown Server"%string)) /\
    (forall now ip port playerInfo,
       fst (ServerScannerService.saveServerData now ip port (Some info)
              playerInfo Database.empty)
       = JS.Returned tt).
Proof.
  eexists. split; [reflexivity|]. split; [reflexivity|]. split; [|split].
  - cbv zeta. repeat split.
  - intros now ip port playerInfo db. cbv zeta.
    destruct (saveServerData_cases now ip port
                (Some (WireCodec.parseA2SInfo_body buffer)) playerInfo db)
      as [[_ ->] | (_ & _ & ->)]; [left; split; reflexivity|].
    right. split; [reflexivity|]. cbn [snd].
    destruct (replaceServer_lookup now
                (ServerScannerService.serverDataOf ip port
                   (Some (WireCodec.parseA2SInfo_body buffer))) db)
      as (row & Hrow & _ & Hname & _).
    exists row.
    cbn [ServerScannerService.serverDataOf ServerData.ip ServerData.port
         ServerData.name Database.bindText Database.objectToString]
      in Hrow, Hname.
    split; [exact Hrow|]. split; [exact Hname|].
    unfold Dashboard.displayName. rewrite Hname. reflexivity.
  - intros now ip port playerInfo.
    destruct (saveServerData_cases now ip port
                (Some (WireCodec.parseA2SInfo_body buffer)) playerInfo
                Database.empty)
      as [[Hrejected _] | (_ & _ & ->)]; [discriminate Hrejected | reflexivity].
Qed.

(** C4 fails on the code: [INSERT OR REPLACE] deletes the row of the
    identity and inserts a new one, so the second call leaves one row with
    its own values, as claimed, but with [first_seen] (and [id]) taken
    anew: first seen at 100, the server reads first seen at 200 after the
    second call. *)
Theorem upsert_resets_first_seen :
  let first := Sample.serverData "Old name" "gm_flatgrass" 16 in
  let second := Sample.serverData "New name" "gm_construct" 32 in
  let db1 := snd (Database.insertServer 100 first Database.empty) in
  let db2 := snd (Database.insertServer 200 second db1) in
  fst (Database.insertServer 100 first Database.empty) = JS.Returned tt /\
  fst (Database.insertServer 200 second db1) = JS.Returned tt /\
  ServerRow.first_seen <$> Database.lookupServer "192.168.1.1" 27015 db1 = Some 100%Z /\
  ServerRow.first_seen <$> Database.lookupServer "192.168.1.1" 27015 db2 = Some 200%Z /\
  Database.getServerId "192.168.1.1" 27015 db1 = Some 1%N /\
  Database.getServerId "192.168.1.1" 27015 db2 = Some 2%N /\
  List.length (Database.servers db2) = 1 /\
  ServerRow.name <$> Database.lookupServer "192.168.1.1" 27015 db2
    = Some (Some "New name"%string).
Proof. cbv zeta. repeat split. Qed.

Section Feedback.

Lemma feedbackUpdate_settled (t1 t2 : Z) (serverId : N) (verdict : string)
    (reason1 feedback2 reason2 : option string) (row : PredictionRow.t) :
  Database.feedbackUpdate t2 serverId feedback2 reason2
    (Database.feedbackUpdate t1 serverId (Some verdict) reason1 row)
  = Database.feedbackUpdate t1 serverId (Some verdict) reason1 row.
Proof.
  unfold Database.feedbackUpdate at 2 3.
  destruct (Database.awaitsFeedback serverId row) eqn:E.
  - unfold Database.feedbackUpdate, Database.awaitsFeedback. simpl.
    now destruct (PredictionRow.server_id row).
  - unfold Database.feedbackUpdate. now rewrite E.
Qed.

End Feedback.

(** C6: once a verdict is stored for a server's prediction, a second
    [submitFeedback] changes nothing: the table is the same after it, and
    a row that carries the first verdict, time and reason keeps them. *)
Theorem feedback_attaches_once (t1 t2 : Z) (serverId : N) (verdict : string)
    (reason1 feedback2 reason2 : option string) (db : Database.t) :
  let db1 := Database.submitFeedback t1 serverId (Some verdict) reason1 db in
  Database.submitFeedback t2 serverId feedback2 reason2 db1 = db1 /\
  forall row,
    let stored := Database.attach t1 (Some verdict) reason1 row in
    Database.feedbackUpdate t2 serverId feedback2 reason2 stored = stored /\
    PredictionRow.manual_feedback stored = Some verdict /\
    PredictionRow.feedback_time stored = Some t1 /\
    PredictionRow.feedback_reason stored = reason1.
Proof.
  cbv zeta. split.
  - unfold Database.submitFeedback. cbn [Database.polish_server_predictions
      Database.servers Database.servers_sequence Database.server_snapshots
      Database.snapshots_sequence].
    f_equal. rewrite List.map_map. apply List.map_ext.
    intros row. apply feedbackUpdate_settled.
  - intros row. repeat split.
    unfold Database.feedbackUpdate, Database.awaitsFeedback. simpl.
    now destruct (PredictionRow.server_id row).
Qed.

(** ** Batch query scheduler *)

(** C1 fails on the code: the two queries are joined by [Promise.all],
    which rejects as soon as one of them does, so a probe whose info query
    times out while its player query answers takes the [catch] branch.
    The server is counted offline, only [last_seen] of an existing row is
    touched, and neither a row nor a snapshot is written. *)
Theorem info_timeout_marks_offline (now : Z) (ip : string) (port : N)
    (message : string) (players : list Player.t)
    (self : ServerScannerService.t) (db : Database.t) :
  let result :=
    ServerScannerService.queryServer now ip port
      (JS.Thrown message) (JS.Returned players) (self, db) in
  ScanStats.onlineServers (ServerScannerService.scanStats (fst result))
    = ScanStats.onlineServers (ServerScannerService.scanStats self) /\
  ScanStats.offlineServers (ServerScannerService.scanStats (fst result))
    = (ScanStats.offlineServers (ServerScannerService.scanStats self) + 1)%N /\
  snd result
    = ServerScannerService.markServerOffline now ip
        (if (port =? 0)%N then 27015%N else port) db /\
  Database.server_snapshots (snd result) = Database.server_snapshots db /\
  List.length (Database.servers (snd result)) = List.length (Database.servers db) /\
  snd (ServerScannerService.queryServer now ip port
         (JS.Thrown message) (JS.Returned players) (self, Database.empty))
    = Database.empty.
Proof.
  cbv zeta. unfold ServerScannerService.queryServer. cbn.
  repeat split. apply List.length_map.
Qed.

(** ** The rate limiter *)

Section RateLimiter.

Import SteamAPIClient.

Lemma fold_min_in (l : list Z) (x : Z) : In (fold_left Z.min l x) (x :: l).
Proof.
  revert x. induction l as [|y l IH]; intros x; [now left|].
  simpl. destruct (IH (Z.min x y)) as [H|H].
  - rewrite <- H. destruct (Z.min_spec x y) as [[_ ->]|[_ ->]]; auto.
  - auto.
Qed.

Lemma oldestOf_in (history : list Z) (oldest : Z) :
  oldestOf history = Some oldest -> In oldest history.
Proof.
  destruct history as [|x l]; [discriminate|].
  intros [= <-]. apply fold_min_in.
Qed.

(** When the window is full, the call resolves no sooner than one window
    after the oldest timestamp in it. *)
Lemma checkRateLimit_waits (late : N) (clock : Z) (self : t) (oldest : Z) :
  (rateLimitWindow self <= 2147483647)%Z ->
  Forall (fun timestamp => (timestamp <= clock)%Z) (requestHistory self) ->
  maxRequestsPerWindow self
    <= List.length (prune (rateLimitWindow self) clock (requestHistory self)) ->
  oldestOf (prune (rateLimitWindow self) clock (requestHistory self)) = Some oldest ->
  (oldest + rateLimitWindow self <= fst (checkRateLimit late clock self))%Z.
Proof.
  intros Hwindow Hpast Hfull Holdest. unfold checkRateLimit.
  apply Nat.leb_le in Hfull. rewrite Hfull, Holdest. cbn [fmap option_fmap option_map fst].
  apply oldestOf_in in Holdest. unfold prune in Holdest.
  apply filter_In in Holdest as [Hin Hlt].
  apply Z.ltb_lt in Hlt.
  rewrite List.Forall_forall in Hpast. specialize (Hpast _ Hin).
  unfold timerDelay.
  destruct (Z.leb_spec 1 (rateLimitWindow self - (clock - oldest)));
    destruct (Z.leb_spec (rateLimitWindow self - (clock - oldest)) 2147483647);
    cbn [andb]; lia.
Qed.

(** With 3 requests allowed per second, the 4th of four back-to-back
    requests is issued 1000 ms after the 1st, or later. *)
Lemma fourth_request_waits (late1 late2 late3 late4 : N) :
  issueAll [(0, late1); (0, late2); (0, late3); (0, late4)]%N 0 Sample.threePerSecond
  = [0; 0; 0; 1000 + Z.of_N late4]%Z.
Proof.
  cbn. repeat f_equal; lia.
Qed.

End RateLimiter.

(** C5 fails on the code: the call that has waited records the reading
    of the clock taken before the wait ([push(now)]), a timestamp that is
    out of the window as soon as the wait is over.  With 3 requests
    allowed per 1000 ms and seven requests back to back, the 4th waits
    for the 1st to leave the window, as claimed, and then the 5th, 6th and
    7th pass at once: four requests are issued at the reading 1000.  The
    same happens when every request is entered 10 ms after the one
    before: four requests are issued from 1010 to 1040. *)
Theorem rate_limit_overrun :
  let issued :=
    SteamAPIClient.issueAll (repeat (0%N, 0%N) 7) 0 Sample.threePerSecond in
  let spaced :=
    SteamAPIClient.issueAll (repeat (10%N, 0%N) 7) 0 Sample.threePerSecond in
  issued = [0; 0; 0; 1000; 1000; 1000; 1000]%Z /\
  SteamAPIClient.issuedIn 1000 1000 issued = 4 /\
  SteamAPIClient.maxRequestsPerWindow Sample.threePerSecond
    < SteamAPIClient.issuedIn 1000 1000 issued /\
  spaced = [10; 20; 30; 1010; 1020; 1030; 1040]%Z /\
  SteamAPIClient.maxRequestsPerWindow Sample.threePerSecond
    < SteamAPIClient.issuedIn 1000 1010 spaced.
Proof.
  cbv zeta. split; [reflexivity|]. split; [reflexivity|].
  split; [vm_compute; lia|]. split; [reflexivity|]. vm_compute. lia.
Qed.

(** ** The enrichment queue *)

Section Sorting.

Context {A : Type} (compare : A -> A -> Z).

Let before (x y : A) : Prop := (compare x y <= 0)%Z.

Hypothesis compare_total : forall x y, before x y \/ before y x.
Hypothesis compare_trans : forall x y z, before x y -> before y z -> before x z.

Lemma insert_perm (x : A) (l : list A) : Permutation (JS.insert compare x l) (x :: l).
Proof.
  induction l as [|y l IH]; simpl; [reflexivity|].
  destruct (compare x y <=? 0)%Z; [reflexivity|].
  rewrite IH. apply perm_swap.
Qed.

Lemma sort_perm (l : list A) : Permutation (JS.sort compare l) l.
Proof.
  induction l as [|x l IH]; simpl; [reflexivity|].
  unfold JS.sort in IH. rewrite insert_perm. now apply perm_skip.
Qed.

Lemma insert_sorted (x : A) (l : list A) :
  StronglySorted before l -> StronglySorted before (JS.insert compare x l).
Proof.
  induction 1 as [|y l Hl IH Hy]; simpl.
  - repeat constructor.
  - destruct (Z.leb_spec (compare x y) 0) as [Hxy|Hyx].
    + constructor; [now constructor|].
      constructor; [exact Hxy|].
      eapply Forall_impl; [exact Hy|].
      intros z Hz. now apply (compare_trans x y z).
    + constructor; [exact IH|].
      rewrite insert_perm. constructor; [|exact Hy].
      destruct (compare_total x y) as [H|H]; [unfold before in H; lia | exact H].
Qed.

Lemma sort_sorted (l : list A) : StronglySorted before (JS.sort compare l).
Proof.
  induction l as [|x l IH]; simpl; [constructor|].
  now apply insert_sorted.
Qed.

End Sorting.

Section Queue.

Import SteamDataService.

Lemma compareItems_precedes (a b : QueueItem.t) :
  (compareItems a b <= 0)%Z <-> precedes a b.
Proof.
  unfold compareItems, precedes.
  destruct (isHigh a), (isHigh b); cbn [andb negb]; split;
    try (intros H; split; intros; try discriminate; try reflexivity; lia);
    try (intros [H1 H2]; try lia; try (specialize (H1 eq_refl); discriminate);
         specialize (H2 eq_refl); lia).
Qed.

Lemma compareItems_total (a b : QueueItem.t) :
  (compareItems a b <= 0)%Z \/ (compareItems b a <= 0)%Z.
Proof.
  unfold compareItems.
  destruct (isHigh a), (isHigh b); cbn [andb negb]; lia.
Qed.

Lemma compareItems_trans (a b c : QueueItem.t) :
  (compareItems a b <= 0)%Z -> (compareItems b c <= 0)%Z ->
  (compareItems a c <= 0)%Z.
Proof.
  unfold compareItems.
  destruct (isHigh a), (isHigh b), (isHigh c); cbn [andb negb]; lia.
Qed.

Lemma sorted_queue (queue : list QueueItem.t) :
  StronglySorted precedes (JS.sort compareItems queue).
Proof.
  pose proof (sort_sorted compareItems compareItems_total compareItems_trans queue)
    as Hsorted.
  induction Hsorted as [|x l _ IH Hx]; constructor; [exact IH|].
  eapply Forall_impl; [exact Hx|].
  intros y Hy. now apply compareItems_precedes.
Qed.

End Queue.

(** C7: the batch taken from the queue, followed by what stays queued, is
    the queue sorted: every high-priority item stands before every normal
    one, and within a class an item added later stands before one added
    earlier; the batch is the first [size] items of that order.  After 2
    normal items and then 1 high-priority item have been queued, the batch
    begins with the high-priority item. *)
Theorem batch_order (size : nat) (queue : list QueueItem.t) :
  let batch := fst (SteamDataService.nextBatch size queue) in
  let rest := snd (SteamDataService.nextBatch size queue) in
  StronglySorted SteamDataService.precedes (batch ++ rest) /\
  Permutation (batch ++ rest) queue /\
  StronglySorted SteamDataService.precedes batch /\
  List.length batch = Nat.min size (List.length queue) /\
  forall (t1 t2 : Z) (a b h : string),
    head (fst (SteamDataService.nextBatch (S size)
                 (SteamDataService.enqueue t2 [h] "high"
                    (SteamDataService.enqueue t1 [a; b] "normal" []))))
    = Some {| QueueItem.steamId := h; QueueItem.priority := "high";
              QueueItem.addedAt := t2; QueueItem.retryCount := 0 |}.
Proof.
  cbv zeta. unfold SteamDataService.nextBatch. cbn [fst snd].
  rewrite take_drop.
  split; [apply sorted_queue|].
  split; [apply sort_perm|].
  split.
  - eapply StronglySorted_app_1_l. rewrite take_drop. apply sorted_queue.
  - split.
    + rewrite length_take. f_equal.
      apply Permutation_length, sort_perm.
    + intros t1 t2 a b h. cbn.
      rewrite Z.sub_diag. reflexivity.
Qed.

(** With an idle worker the first call starts the loop, which takes the
    two normal items as its first batch at once; the high-priority item
    queued next is then the whole of the next batch. *)
Lemma idle_worker_takes_first_batch (t1 t2 : Z) (a b h : string) :
  let first := SteamDataService.addToQueue t1 [a; b] "normal" SteamDataService.create in
  let second := SteamDataService.addToQueue t2 [h] "high" (fst first) in
  List.map QueueItem.steamId <$> snd first = Some [a; b] /\
  snd second = None /\
  fst (SteamDataService.nextBatch
         (SteamDataService.batchSize (fst second))
         (SteamDataService.processingQueue (fst second)))
  = [ {| QueueItem.steamId := h; QueueItem.priority := "high";
         QueueItem.addedAt := t2; QueueItem.retryCount := 0 |} ].
Proof.
  cbv zeta. cbn. rewrite Z.sub_diag. cbn. repeat split.
Qed.

(** ** The classification ensemble *)

(** C8, as amended: the combiner always blends the two confidences as
    [rule * 0.6 + learned * 0.4] in binary64 arithmetic, labels by
    [confidence > 0.5] and asks for review strictly between 0.3 and 0.7.
    For rule confidence 0.9 and learned confidence 0.1 the confidence is
    0.5800000000000001, the binary64 number next above 0.58, the label is
    true and [needs_review] is true. *)
Theorem polish_blend (ruleBased ml : PolishPrediction.t) :
  let combined := MLService.combinePolishPredictions ruleBased ml in
  PolishPrediction.confidence combined
    = (PolishPrediction.confidence ruleBased * 0.6
         + PolishPrediction.confidence ml * 0.4)%float /\
  PolishPrediction.is_polish combined
    = (0.5 <? PolishPrediction.confidence combined)%float /\
  PolishPrediction.needs_review combined
    = ((0.3 <? PolishPrediction.confidence combined)%float
         && (PolishPrediction.confidence combined <? 0.7)%float) /\
  let sample :=
    MLService.combinePolishPredictions
      (Sample.prediction 0.9) (Sample.prediction 0.1) in
  PolishPrediction.confidence sample = 0x1.28f5c28f5c290p-1%float /\
  PolishPrediction.confidence sample = PrimFloat.next_up 0.58%float /\
  PolishPrediction.is_polish sample = true /\
  PolishPrediction.needs_review sample = true.
Proof.
  cbv zeta. repeat split; vm_compute; reflexivity.
Qed.

(** C8, as stated, fails: in the arithmetic of the code
    [0.9 * 0.6 + 0.1 * 0.4] is not the number 0.58. *)
Lemma blend_is_not_exactly_058 :
  let sample :=
    MLService.combinePolishPredictions
      (Sample.prediction 0.9) (Sample.prediction 0.1) in
  (PolishPrediction.confidence sample =? 0.58)%float = false /\
  (0.58 <? PolishPrediction.confidence sample)%float = true.
Proof. cbv zeta. split; vm_compute; reflexivity. Qed.

Section RuleStage.

Import Regex.

Lemma list_ascii_of_string_app (s1 s2 : string) :
  list_ascii_of_string (s1 ++ s2)%string
  = list_ascii_of_string s1 ++ list_ascii_of_string s2.
Proof.
  induction s1 as [|c s1 IH]; simpl; [reflexivity|].
  now rewrite IH.
Qed.

Lemma last_lastChar (s : string) (before : option ascii) :
  List.last (List.map Some (list_ascii_of_string s)) before
  = match JS.lastChar s with Some c => Some c | None => before end.
Proof.
  induction s as [|c s IH]; [reflexivity|].
  destruct s as [|c' s]; [reflexivity|].
  exact IH.
Qed.

Lemma head_firstChar (s : string) :
  head (list_ascii_of_string s) = JS.firstChar s.
Proof. destruct s; reflexivity. Qed.

Lemma last_default {A} (l : list A) (x d d' : A) :
  List.last (x :: l) d = List.last (x :: l) d'.
Proof.
  revert x. induction l as [|y l IH]; intros x; [reflexivity|].
  exact (IH y).
Qed.

(** The search reaches every start position unless it has matched at an
    earlier one. *)
Lemma search_reaches (r : regex) (rest : list ascii) :
  forall (skipped : list ascii) (before : option ascii) (i : nat),
    matchAt r {| prev := List.last (List.map Some skipped) before;
                 rest := rest; index := i + List.length skipped |} <> None ->
    search r before (skipped ++ rest) i <> None.
Proof.
  induction skipped as [|x skipped IH]; intros before i Hmatch.
  - cbn [app List.map List.last List.length] in *. rewrite Nat.add_0_r in Hmatch.
    destruct rest; cbn [search];
      destruct (matchAt r _); try discriminate; contradiction.
  - cbn [app search].
    destruct (matchAt r {| prev := before; rest := _; index := i |});
      [discriminate|].
    apply IH.
    replace (S i + List.length skipped) with (i + List.length (x :: skipped))
      by (simpl; lia).
    destruct skipped as [|y skipped]; [exact Hmatch|].
    cbn [List.map] in *. rewrite (last_default _ _ _ before). exact Hmatch.
Qed.

End RuleStage.

Section DarkRP.

Import Regex.

Lemma sameChar_refl (c : ascii) : sameChar c c = true.
Proof. unfold sameChar. apply Ascii.eqb_refl. Qed.

Lemma lit_here (s : list ascii) :
  forall (before : option ascii) (post : list ascii) (i : nat),
    lit s {| prev := before; rest := s ++ post; index := i |}
    = Some {| prev := List.last (List.map Some s) before; rest := post;
              index := i + List.length s |}.
Proof.
  induction s as [|x s IH]; intros before post i.
  - cbn. now rewrite Nat.add_0_r.
  - cbn [lit rest app index]. rewrite sameChar_refl, IH.
    f_equal. f_equal.
    + destruct s as [|y s]; [reflexivity|]. cbn [List.map].
      apply (last_default (List.map Some s) (Some y)).
    + simpl. lia.
Qed.

(** The first alternative of the darkrp detector matches a whole-word
    occurrence of [darkrp] in place. *)
Lemma darkrp_matches_here (others : list regex) (before : option ascii)
    (post : list ascii) (i : nat) :
  wordAt before = false -> wordAt (head post) = false ->
  matchAt (word (oneOf (Lit "darkrp") others))
    {| prev := before; rest := list_ascii_of_string "darkrp" ++ post; index := i |}
  <> None.
Proof.
  intros Hbefore Hafter.
  unfold matchAt, word. cbn [run].
  unfold atBoundary at 1. cbn [prev rest].
  rewrite Hbefore.
  change (wordAt (head (list_ascii_of_string "darkrp" ++ post))) with true.
  cbn [xorb].
  assert (Hfirst :
    run (Lit "darkrp") (run WordBoundary (fun c' => Some (index c')))
      {| prev := before; rest := list_ascii_of_string "darkrp" ++ post; index := i |}
    <> None).
  { cbn [run]. rewrite lit_here. unfold atBoundary. cbn [prev rest].
    rewrite Hafter. discriminate. }
  destruct others as [|r others]; cbn [oneOf run]; cbn [run] in Hfirst.
  - exact Hfirst.
  - destruct (lit (list_ascii_of_string "darkrp") _) as [c'|]; [|contradiction].
    destruct (atBoundary c'); [discriminate|contradiction].
Qed.

Lemma darkrp_is_found (others : list regex) (pre post : string) :
  MLService.outsideWord (JS.lastChar pre) ->
  MLService.outsideWord (JS.firstChar post) ->
  exec (word (oneOf (Lit "darkrp") others)) (pre ++ "darkrp" ++ post)%string
  <> None.
Proof.
  unfold MLService.outsideWord. intros Hpre Hpost. unfold exec.
  rewrite !list_ascii_of_string_app.
  apply search_reaches.
  apply darkrp_matches_here.
  - rewrite last_lastChar. now destruct (JS.lastChar pre).
  - now rewrite head_firstChar.
Qed.

End DarkRP.

Section Scores.

Import MLService.

Lemma Qltb_true (a b : Q) : Qltb a b = true <-> (a < b)%Q.
Proof.
  unfold Qltb. rewrite negb_true_iff.
  split.
  - intros H. apply Qnot_le_lt. intros Hle.
    apply Qle_bool_iff in Hle. congruence.
  - intros H. destruct (Qle_bool b a) eqn:E; [|reflexivity].
    apply Qle_bool_iff in E. exfalso. now apply (Qlt_not_le a b).
Qed.

Lemma Qltb_false (a b : Q) : Qltb a b = false <-> (b <= a)%Q.
Proof.
  unfold Qltb. rewrite negb_false_iff. apply Qle_bool_iff.
Qed.

Lemma ratio_nonneg (matched total : nat) :
  (0 <= inject_Z (Z.of_nat matched) / inject_Z (Z.of_nat total))%Q.
Proof.
  apply Qmult_le_0_compat.
  - change 0%Q with (inject_Z 0). rewrite <- Zle_Qle. lia.
  - apply Qinv_le_0_compat.
    change 0%Q with (inject_Z 0). rewrite <- Zle_Qle. lia.
Qed.

Lemma spanScore_pos (matched total : nat) : (0 < spanScore matched total)%Q.
Proof.
  unfold spanScore.
  apply Qlt_le_trans with (0 + 0.5)%Q; [reflexivity|].
  apply Qplus_le_compat; [apply ratio_nonneg | apply Qle_refl].
Qed.

Lemma spanScore_mono (m1 m2 total : nat) :
  m1 <= m2 -> (spanScore m1 total <= spanScore m2 total)%Q.
Proof.
  intros H. unfold spanScore.
  apply Qplus_le_compat; [|apply Qle_refl].
  apply Qmult_le_compat_r.
  - rewrite <- Zle_Qle. lia.
  - apply Qinv_le_0_compat.
    change 0%Q with (inject_Z 0). rewrite <- Zle_Qle. lia.
Qed.

(** Once a detector has been chosen, the loop keeps a chosen detector. *)
Lemma visit_keeps (names : list string) (text : string)
    (acc : option string * Q) (entry : string * Regex.regex) :
  (exists g, fst acc = Some g /\ In g names) -> In (fst entry) names ->
  exists g, fst (visit text acc entry) = Some g /\ In g names.
Proof.
  intros Hacc Hentry. unfold visit.
  destruct (Regex.matchedLength (snd entry) text) as [m|]; [|exact Hacc].
  destruct (Qltb (snd acc) _); [|exact Hacc].
  eexists. split; [reflexivity | exact Hentry].
Qed.

Lemma fold_keeps (names : list string) (text : string)
    (entries : list (string * Regex.regex)) :
  forall acc,
    (exists g, fst acc = Some g /\ In g names) ->
    List.Forall (fun entry => In (fst entry) names) entries ->
    exists g, fst (fold_left (visit text) entries acc) = Some g /\ In g names.
Proof.
  induction entries as [|entry entries IH]; intros acc Hacc Hall; [exact Hacc|].
  inversion Hall as [|? ? Hentry Hrest]; subst.
  cbn [fold_left]. apply IH; [|exact Hrest].
  now apply visit_keeps.
Qed.

(** The highest score never shrinks during the loop. *)
Lemma visit_grows (text : string) (acc : option string * Q)
    (entry : string * Regex.regex) :
  (snd acc <= snd (visit text acc entry))%Q.
Proof.
  unfold visit.
  destruct (Regex.matchedLength (snd entry) text) as [m|]; [|apply Qle_refl].
  destruct (Qltb (snd acc) _) eqn:E; [|apply Qle_refl].
  apply Qltb_true in E. cbn [snd]. now apply Qlt_le_weak.
Qed.

(** The detector of a name of [gamemodePatterns] is the one listed under
    that name. *)
Lemma patternOf_listed (entry : string * Regex.regex) :
  In entry gamemodePatterns -> patternOf (fst entry) = Some (snd entry).
Proof.
  unfold gamemodePatterns at 1. cbn [In]. intros Hin.
  repeat (destruct Hin as [<- | Hin]; [vm_compute; reflexivity|]).
  contradiction.
Qed.

(** During the loop the highest score is 0 with no detector chosen, or it
    is the score of the span that the chosen detector matches. *)
Lemma fold_span (text : string) (entries : list (string * Regex.regex)) :
  (forall entry, In entry entries -> In entry gamemodePatterns) ->
  forall acc,
    (acc = (None, 0%Q) \/
     exists won m,
       In won gamemodePatterns /\ fst acc = Some (fst won) /\
       Regex.matchedLength (snd won) text = Some m /\
       snd acc = spanScore m (String.length text)) ->
    fold_left (visit text) entries acc = (None, 0%Q) \/
    exists won m,
      In won gamemodePatterns /\
      fst (fold_left (visit text) entries acc) = Some (fst won) /\
      Regex.matchedLength (snd won) text = Some m /\
      snd (fold_left (visit text) entries acc) = spanScore m (String.length text).
Proof.
  induction entries as [|entry entries IH]; intros Hlisted acc Hacc;
    [exact Hacc|].
  cbn [fold_left]. apply IH; [intros e He; apply Hlisted; now right|].
  unfold visit.
  destruct (Regex.matchedLength (snd entry) text) as [m|] eqn:Ematch;
    [|exact Hacc].
  destruct (Qltb (snd acc) (spanScore m (String.length text))); [|exact Hacc].
  right. exists entry, m. cbn [fst snd].
  split; [apply Hlisted; now left|]. repeat split. exact Ematch.
Qed.

Lemma scan_span (text : string) :
  (scan text = (None, 0%Q) /\ matchedSpan text = None) \/
  exists m,
    matchedSpan text = Some m /\
    snd (scan text) = spanScore m (String.length text).
Proof.
  destruct (fold_span text gamemodePatterns (fun entry Hin => Hin) (None, 0%Q))
    as [Hnone | (won & m & Hin & Hwon & Hmatch & Hscore)]; [now left | |].
  - left. fold (scan text) in Hnone. split; [exact Hnone|].
    unfold matchedSpan. now rewrite Hnone.
  - right. exists m. fold (scan text) in Hwon, Hscore. split; [|exact Hscore].
    unfold matchedSpan. rewrite Hwon, (patternOf_listed won Hin). exact Hmatch.
Qed.

Lemma ruleStage_confidence (text : string) :
  GamemodePrediction.confidence (ruleStage text)
  = Qmin (snd (scan text)) 0.95%Q.
Proof. unfold ruleStage. now destruct (scan text). Qed.

End Scores.

Section RuleStageResult.

Lemma patterns_head :
  MLService.gamemodePatterns
  = ("darkrp"%string,
     Regex.word
       (Regex.oneOf (Regex.Lit "darkrp")
          [Regex.Seq (Regex.Lit "dark") (Regex.Seq Regex.Spaces (Regex.Lit "rp"));
           Regex.Lit "roleplay"; Regex.Lit "rp"]))
      :: tl MLService.gamemodePatterns.
Proof. reflexivity. Qed.

Lemma names_known :
  List.Forall
    (fun entry : string * Regex.regex =>
       In (fst entry) (List.map fst MLService.gamemodePatterns))
    (tl MLService.gamemodePatterns).
Proof.
  apply List.Forall_forall. intros entry Hin. apply in_map.
  unfold MLService.gamemodePatterns in *. cbn [tl] in Hin. now right.
Qed.

(** No detector is named [unknown] or has an empty name. *)
Lemma names_not_unknown (g : string) :
  In g (List.map fst MLService.gamemodePatterns) ->
  JS.orElse (Some g) "unknown" <> "unknown"%string.
Proof.
  unfold MLService.gamemodePatterns. cbn [List.map fst In].
  intros Hin. repeat (destruct Hin as [<-|Hin]; [discriminate|]).
  contradiction.
Qed.

End RuleStageResult.

(** C9, as amended: a text blob in which [darkrp] stands as a whole word
    (no letter, digit or underscore next to it) is never classified as
    [unknown]; and for a fixed blob length the confidence does not
    decrease when the matched span grows: of two blobs of the same
    length, the one whose answer rests on the longer matched span has at
    least the confidence of the other. *)
Theorem rule_stage_darkrp :
  (forall pre post : string,
     MLService.outsideWord (JS.lastChar pre) ->
     MLService.outsideWord (JS.firstChar post) ->
     GamemodePrediction.gamemode
       (MLService.ruleStage (pre ++ "darkrp" ++ post)%string)
     <> "unknown"%string) /\
  (forall first second : string,
     String.length first = String.length second ->
     MLService.spanLe (MLService.matchedSpan first) (MLService.matchedSpan second) ->
     (GamemodePrediction.confidence (MLService.ruleStage first)
        <= GamemodePrediction.confidence (MLService.ruleStage second))%Q).
Proof.
  split.
  - intros pre post Hpre Hpost.
    set (text := (pre ++ "darkrp" ++ post)%string).
    pose proof names_known as Hknown.
    assert (Hfirst : In "darkrp"%string (List.map fst MLService.gamemodePatterns))
      by (rewrite patterns_head; now left).
    pose proof names_not_unknown as Hnames.
    set (names := List.map fst MLService.gamemodePatterns) in *.
    assert (Hscan : exists g, fst (MLService.scan text) = Some g /\ In g names).
    { unfold MLService.scan. rewrite patterns_head.
      cbn [fold_left]. apply fold_keeps; [|exact Hknown].
      unfold MLService.visit. cbn [snd fst].
      unfold Regex.matchedLength.
      destruct (Regex.exec _ text) as [span|] eqn:E.
      + cbn [fmap option_fmap option_map].
        rewrite (proj2 (Qltb_true _ _)) by apply spanScore_pos.
        eexists. split; [reflexivity | exact Hfirst].
      + exfalso. revert E. now apply darkrp_is_found. }
    unfold MLService.ruleStage.
    destruct (MLService.scan text) as [best high].
    destruct Hscan as (g & Hg & Hin). cbn [fst] in Hg. subst best.
    cbn [GamemodePrediction.gamemode].
    now apply Hnames.
  - intros first second Hlength Hspan.
    rewrite !ruleStage_confidence. apply Q.min_le_compat_r.
    destruct (scan_span first) as [[Hnone1 _] | (m1 & Hspan1 & Hscore1)].
    + rewrite Hnone1. cbn [snd].
      destruct (scan_span second) as [[Hnone2 _] | (m2 & _ & Hscore2)].
      * rewrite Hnone2. apply Qle_refl.
      * rewrite Hscore2. apply Qlt_le_weak, spanScore_pos.
    + rewrite Hspan1 in Hspan.
      destruct (scan_span second) as [[_ Hnone2] | (m2 & Hspan2 & Hscore2)].
      * rewrite Hnone2 in Hspan. contradiction.
      * rewrite Hspan2 in Hspan. cbn [MLService.spanLe] in Hspan.
        rewrite Hscore1, Hscore2, Hlength. now apply spanScore_mono.
Qed.

(** [darkrp] between two blanks is classified; and in a blob of 41
    characters, the answer that rests on the 8 characters of [roleplay]
    is at least as confident as the one that rests on the 7 of
    [sandbox]. *)
Lemma rule_stage_darkrp_witness :
  (MLService.outsideWord (JS.lastChar "my ") /\
   MLService.outsideWord (JS.firstChar " server") /\
   GamemodePrediction.gamemode
     (MLService.ruleStage ("my " ++ "darkrp" ++ " server")%string)
   <> "unknown"%string) /\
  (String.length Sample.shorterSpan = String.length Sample.longerSpan /\
   MLService.spanLe (MLService.matchedSpan Sample.shorterSpan)
     (MLService.matchedSpan Sample.longerSpan) /\
   (GamemodePrediction.confidence (MLService.ruleStage Sample.shorterSpan)
      <= GamemodePrediction.confidence (MLService.ruleStage Sample.longerSpan))%Q).
Proof.
  assert (H1 : MLService.outsideWord (JS.lastChar "my ")) by reflexivity.
  assert (H2 : MLService.outsideWord (JS.firstChar " server")) by reflexivity.
  assert (H3 : String.length Sample.shorterSpan = String.length Sample.longerSpan)
    by reflexivity.
  assert (H4 : MLService.spanLe (MLService.matchedSpan Sample.shorterSpan)
                 (MLService.matchedSpan Sample.longerSpan))
    by (vm_compute; lia).
  split.
  - split; [exact H1|]. split; [exact H2|].
    exact (proj1 rule_stage_darkrp "my " " server" H1 H2).
  - split; [exact H3|]. split; [exact H4|].
    exact (proj2 rule_stage_darkrp Sample.shorterSpan Sample.longerSpan H3 H4).
Defined.

(** C9, as stated, fails: the blob of a server named [DarkRP_PL] contains
    [darkrp], but the underscore after it is a word character, so the
    detector's word boundary does not hold and the rule stage returns
    [unknown]. *)
Lemma darkrp_inside_word_is_unknown :
  JS.includes "darkrp" (MLService.blob (Sample.named "DarkRP_PL")) = true /\
  GamemodePrediction.gamemode
    (MLService.predictGamemodeRuleBased (Sample.named "DarkRP_PL"))
  = "unknown"%string.
Proof. split; vm_compute; reflexivity. Qed.

(** * Further properties of the code *)

(** ** The sweep: candidates and batches *)

Section Batches.

Context {A : Type}.

Lemma chunkLoop_concat (size : nat) (items : list A) :
  1 <= size ->
  forall (fuel i : nat) (batches : list (list A)),
    List.length items - i <= fuel ->
    concat (JS.chunkLoop fuel size items i batches)
    = concat batches ++ drop i items.
Proof.
  intros Hsize. induction fuel as [|fuel IH]; intros i batches Hfuel.
  - cbn [JS.chunkLoop]. rewrite drop_ge by lia. now rewrite app_nil_r.
  - cbn [JS.chunkLoop]. destruct (Nat.ltb_spec i (List.length items)) as [Hlt|Hge].
    + rewrite IH by lia.
      rewrite concat_app. cbn [concat]. rewrite app_nil_r, <- app_assoc.
      f_equal. rewrite <- (take_drop size (drop i items)) at 2.
      f_equal. rewrite drop_drop. reflexivity.
    + rewrite drop_ge by lia. now rewrite app_nil_r.
Qed.

Lemma chunkLoop_sizes (size : nat) (items : list A) :
  1 <= size ->
  forall (fuel i : nat) (batches : list (list A)),
    List.Forall (fun b => 1 <= List.length b <= size) batches ->
    List.Forall (fun b => 1 <= List.length b <= size)
      (JS.chunkLoop fuel size items i batches).
Proof.
  intros Hsize. induction fuel as [|fuel IH]; intros i batches Hall; [exact Hall|].
  cbn [JS.chunkLoop]. destruct (Nat.ltb_spec i (List.length items)) as [Hlt|Hge];
    [|exact Hall].
  apply IH. apply List.Forall_app. split; [exact Hall|].
  constructor; [|constructor].
  rewrite length_take, length_drop. lia.
Qed.

Lemma chunkLoop_count (size : nat) (items : list A) :
  1 <= size ->
  forall (fuel i : nat) (batches : list (list A)),
    List.length items - i <= fuel ->
    exists k,
      List.length (JS.chunkLoop fuel size items i batches)
      = List.length batches + k /\
      List.length items - i <= k * size /\
      k * size < List.length items - i + size.
Proof.
  intros Hsize. induction fuel as [|fuel IH]; intros i batches Hfuel.
  - exists 0. cbn [JS.chunkLoop]. lia.
  - cbn [JS.chunkLoop]. destruct (Nat.ltb_spec i (List.length items)) as [Hlt|Hge].
    + destruct (IH (i + size) (batches ++ [take size (drop i items)]))
        as (k & Hk & Hlow & Hhigh); [lia|].
      exists (S k). rewrite Hk, length_app. cbn [List.length].
      split; [lia|]. split; [nia|].
      destruct (Nat.le_gt_cases size (List.length items - i)) as [Hfull|Hlast];
        [nia|].
      assert (k = 0) by nia. subst k. lia.
    + exists 0. lia.
Qed.

End Batches.

(** The batches of a sweep, for a batch size of at least one: put end to
    end they are the candidate list, each holds between one and
    [maxConcurrentQueries] addresses, and their number is the candidate
    count divided by the batch size, rounded up. *)
Theorem batches_partition (maxConcurrentQueries : nat) (servers : list string) :
  1 <= maxConcurrentQueries ->
  let batches := ServerScannerService.batches maxConcurrentQueries servers in
  concat batches = servers /\
  List.Forall (fun b => 1 <= List.length b <= maxConcurrentQueries) batches /\
  List.length servers <= List.length batches * maxConcurrentQueries /\
  List.length batches * maxConcurrentQueries
    < List.length servers + maxConcurrentQueries.
Proof.
  intros Hsize. cbv zeta. unfold ServerScannerService.batches, JS.chunks.
  split; [|split].
  - rewrite chunkLoop_concat by lia. reflexivity.
  - apply chunkLoop_sizes; [exact Hsize | constructor].
  - destruct (chunkLoop_count maxConcurrentQueries servers Hsize
                (List.length servers) 0 []) as (k & Hk & Hlow & Hhigh); [lia|].
    rewrite Hk. cbn [List.length]. lia.
Qed.

Lemma batches_partition_witness :
  1 <= 3 /\
  ServerScannerService.batches 3 ["a"; "b"; "c"; "d"; "e"; "f"; "g"]%string
  = [["a"; "b"; "c"]; ["d"; "e"; "f"]; ["g"]]%string /\
  concat (ServerScannerService.batches 3 ["a"; "b"; "c"; "d"; "e"; "f"; "g"]%string)
  = ["a"; "b"; "c"; "d"; "e"; "f"; "g"]%string.
Proof.
  split; [lia|]. split; [reflexivity|].
  apply (batches_partition 3 ["a"; "b"; "c"; "d"; "e"; "f"; "g"]%string). lia.
Defined.

Section Candidates.

Lemma existsb_eqb_In (x : string) (set : list string) :
  existsb (String.eqb x) set = true <-> In x set.
Proof.
  rewrite existsb_exists. split.
  - intros (y & Hin & Heq). apply String.eqb_eq in Heq. now subst.
  - intros Hin. exists x. split; [exact Hin | apply String.eqb_refl].
Qed.

Lemma setAdd_In (set : list string) (x y : string) :
  In y (JS.setAdd set x) <-> In y set \/ y = x.
Proof.
  unfold JS.setAdd. destruct (existsb (String.eqb x) set) eqn:E.
  - apply existsb_eqb_In in E. split; [tauto|]. intros [H | ->]; assumption.
  - rewrite in_app_iff. cbn [In]. intuition congruence.
Qed.

Lemma setAdd_NoDup (set : list string) (x : string) :
  NoDup set -> NoDup (JS.setAdd set x).
Proof.
  intros Hset. unfold JS.setAdd. destruct (existsb (String.eqb x) set) eqn:E;
    [exact Hset|].
  apply NoDup_app. split; [exact Hset|]. split; [|apply NoDup_singleton].
  intros y Hy Hx. apply list_elem_of_In in Hy, Hx. destruct Hx as [ <- | [] ].
  apply existsb_eqb_In in Hy. congruence.
Qed.

Lemma setAddAll_In (items set : list string) (y : string) :
  In y (JS.setAddAll set items) <-> In y set \/ In y items.
Proof.
  unfold JS.setAddAll. revert set.
  induction items as [|x items IH]; intros set; cbn [fold_left In]; [tauto|].
  rewrite IH, setAdd_In. intuition congruence.
Qed.

Lemma setAddAll_NoDup (items set : list string) :
  NoDup set -> NoDup (JS.setAddAll set items).
Proof.
  unfold JS.setAddAll. revert set.
  induction items as [|x items IH]; intros set Hset; [exact Hset|].
  cbn [fold_left]. apply IH. now apply setAdd_NoDup.
Qed.

(** A set only grows, at its end. *)
Lemma setAddAll_prefix (items set : list string) :
  exists added, JS.setAddAll set items = set ++ added.
Proof.
  unfold JS.setAddAll. revert set.
  induction items as [|x items IH]; intros set; cbn [fold_left].
  - exists []. now rewrite app_nil_r.
  - destruct (IH (JS.setAdd set x)) as (added & ->).
    unfold JS.setAdd. destruct (existsb (String.eqb x) set).
    + now exists added.
    + exists (x :: added). now rewrite <- app_assoc.
Qed.

End Candidates.

(** The candidate list of a full scan holds every address of the two
    discovery sources and nothing else, each once however often and in
    whichever source it was found. *)
Theorem discovered_once (steamServers gameTrackerServers : list string) :
  NoDup (ServerScannerService.discovered steamServers gameTrackerServers) /\
  forall address,
    In address (ServerScannerService.discovered steamServers gameTrackerServers)
    <-> In address steamServers \/ In address gameTrackerServers.
Proof.
  unfold ServerScannerService.discovered. split.
  - apply setAddAll_NoDup, setAddAll_NoDup. constructor.
  - intros address. rewrite !setAddAll_In. cbn [In]. tauto.
Qed.

(** ** The probe of one address *)

Section Probe.

Import ServerScannerService.

(** A probe that both queries answer: the save is rejected and the
    server is marked offline, or the save is stored and the server is
    counted online. *)
Lemma queryServer_answered (now : Z) (ip : string) (port : N) (info : Info.t)
    (players : list Player.t) (self : t) (db : Database.t) :
  let serverPort := if (port =? 0)%N then 27015%N else port in
  let saved := saveServerData now ip serverPort (Some info) (Some players) db in
  (saved = (JS.Thrown Database.foreignKeyFailed, db) /\
   queryServer now ip port (JS.Returned info) (JS.Returned players) (self, db)
   = ({| polishServers := polishServers self;
         scanStats := countOffline (scanStats self) |},
      markServerOffline now ip serverPort db)) \/
  (fst saved = JS.Returned tt /\
   queryServer now ip port (JS.Returned info) (JS.Returned players) (self, db)
   = (if isPolishServer (Some info)
      then {| polishServers :=
                polishServers self ∪ {[ (ip ++ ":" ++ JS.decimal port)%string ]};
              scanStats := countPolish (countOnline (scanStats self)) |}
      else {| polishServers := polishServers self;
              scanStats := countOnline (scanStats self) |},
      snd saved)).
Proof.
  cbv zeta. unfold queryServer. cbn [promiseAll].
  rewrite !bool_decide_eq_true_2 by (eexists; reflexivity). cbn [orb].
  destruct (saveServerData_cases now ip (if (port =? 0)%N then 27015%N else port)
              (Some info) (Some players) db) as [[_ ->] | (_ & _ & ->)].
  - left. split; reflexivity.
  - right. split; [reflexivity|]. cbn [snd].
    now destruct (isPolishServer (Some info)).
Qed.

End Probe.

(** Whatever the two queries answer, a probe is counted exactly once, as
    online or as offline; the count of Polish servers moves only with an
    online probe, and [totalServers] is never written. *)
Theorem probe_counted_once (now : Z) (ip : string) (port : N)
    (info : JS.outcome Info.t) (players : JS.outcome (list Player.t))
    (self : ServerScannerService.t) (db : Database.t) :
  let before := ServerScannerService.scanStats self in
  let after :=
    ServerScannerService.scanStats
      (fst (ServerScannerService.queryServer now ip port info players (self, db))) in
  (ScanStats.onlineServers after + ScanStats.offlineServers after
   = ScanStats.onlineServers before + ScanStats.offlineServers before + 1)%N /\
  (ScanStats.onlineServers before <= ScanStats.onlineServers after)%N /\
  (ScanStats.polishServers after - ScanStats.polishServers before
   <= ScanStats.onlineServers after - ScanStats.onlineServers before)%N /\
  ScanStats.totalServers after = ScanStats.totalServers before /\
  ScanStats.lastScan after = ScanStats.lastScan before.
Proof.
  cbv zeta.
  destruct info as [i|e1], players as [p|e2];
    try (unfold ServerScannerService.queryServer;
         cbn [ServerScannerService.promiseAll]; cbn; repeat split; lia).
  destruct (queryServer_answered now ip port i p self db)
    as [[_ ->] | [_ ->]]; [cbn; repeat split; lia|].
  destruct (ServerScannerService.isPolishServer (Some i)); cbn; repeat split; lia.
Qed.

(** No info object that [parseA2SInfo] returns is ever taken for a
    Polish server: the text tested is made of the object left in [name]
    and of the empty [tags].  A probe answered with such an object leaves
    the set of Polish servers and its count as they were; a save of such
    an object is rejected, leaving the database as it is, or its snapshot
    is stored as not Polish with confidence 0.1. *)
Theorem decoded_info_never_polish (buffer : list byte) (now : Z) (ip : string)
    (port : N) (players : JS.outcome (list Player.t))
    (self : ServerScannerService.t) (db : Database.t) :
  let info := WireCodec.parseA2SInfo_body buffer in
  let result :=
    ServerScannerService.queryServer now ip port
      (WireCodec.parseA2SInfo buffer) players (self, db) in
  ServerScannerService.isPolishServer (Some info) = false /\
  ServerScannerService.polishServers (fst result)
    = ServerScannerService.polishServers self /\
  ScanStats.polishServers (ServerScannerService.scanStats (fst result))
    = ScanStats.polishServers (ServerScannerService.scanStats self) /\
  forall playerInfo,
    let saved :=
      ServerScannerService.saveServerData now ip port (Some info) playerInfo db in
    (fst saved = JS.Thrown Database.foreignKeyFailed /\ snd saved = db) \/
    (fst saved = JS.Returned tt /\
     (fun snapshot =>
        (SnapshotData.is_polish_server (SnapshotRow.data snapshot),
         (SnapshotData.polish_confidence (SnapshotRow.data snapshot) =? 0.1)%float))
       <$> last (Database.server_snapshots (snd saved))
     = Some (false, true)).
Proof.
  cbv zeta.
  assert (Hnever : ServerScannerService.isPolishServer
                     (Some (WireCodec.parseA2SInfo_body buffer)) = false)
    by reflexivity.
  split; [exact Hnever|].
  unfold ServerScannerService.queryServer, WireCodec.parseA2SInfo.
  cbn [JS.rethrow].
  assert (Hprobe : forall p,
            ServerScannerService.polishServers
              (fst (ServerScannerService.queryServer now ip port
                      (JS.Returned (WireCodec.parseA2SInfo_body buffer))
                      (JS.Returned p) (self, db)))
            = ServerScannerService.polishServers self /\
            ScanStats.polishServers
              (ServerScannerService.scanStats
                 (fst (ServerScannerService.queryServer now ip port
                         (JS.Returned (WireCodec.parseA2SInfo_body buffer))
                         (JS.Returned p) (self, db))))
            = ScanStats.polishServers (ServerScannerService.scanStats self)).
  { intros p.
    destruct (queryServer_answered now ip port
                (WireCodec.parseA2SInfo_body buffer) p self db)
      as [[_ ->] | [_ ->]]; [split; reflexivity|].
    rewrite Hnever. split; reflexivity. }
  split; [|split].
  - destruct players as [p|e]; [apply Hprobe | reflexivity].
  - destruct players as [p|e]; [apply Hprobe | reflexivity].
  - intros playerInfo. cbv zeta.
    destruct (saveServerData_cases now ip port
                (Some (WireCodec.parseA2SInfo_body buffer)) playerInfo db)
      as [[_ ->] | (_ & _ & ->)]; [left; split; reflexivity|].
    right. split; [reflexivity|].
    unfold Database.appendSnapshot.
    cbn [snd Database.server_snapshots]. rewrite last_snoc.
    cbn [fmap option_fmap option_map SnapshotRow.data
         ServerScannerService.snapshotDataOf
         SnapshotData.is_polish_server SnapshotData.polish_confidence].
    rewrite Hnever. reflexivity.
Qed.

(** ** The servers table *)

Section ServersTable.

Import Database.

Lemma sameIdentity_identity (ip : string) (port : N) (r : ServerRow.t) :
  sameIdentity ip port r = true <-> identity r = (ip, port).
Proof.
  unfold sameIdentity, identity. rewrite andb_true_iff, String.eqb_eq, N.eqb_eq.
  split; [intros [-> ->]; reflexivity | intros [= -> ->]; split; reflexivity].
Qed.

Lemma find_none_filter {A} (f : A -> bool) (l : list A) :
  List.find f l = None <-> List.filter f l = [].
Proof.
  induction l as [|x l IH]; cbn [List.find List.filter]; [tauto|].
  destruct (f x); [split; discriminate | exact IH].
Qed.



Lemma NoDup_map_filter {A B} (f : A -> B) (p : A -> bool) (l : list A) :
  NoDup (List.map f l) -> NoDup (List.map f (List.filter p l)).
Proof.
  induction l as [|x l IH]; cbn [List.map List.filter]; [trivial|].
  intros Hnd. apply NoDup_cons in Hnd as [Hx Hl].
  destruct (p x); [|now apply IH].
  cbn [List.map]. apply NoDup_cons. split; [|now apply IH].
  intros Hin. apply Hx. apply list_elem_of_In in Hin. apply list_elem_of_In.
  apply in_map_iff in Hin as (y & Hy & Hin). apply filter_In in Hin as [Hin _].
  apply in_map_iff. now exists y.
Qed.

Lemma replaceServer_wellFormed (now : Z) (serverData : ServerData.t) (db : t) :
  wellFormed db -> wellFormed (replaceServer now serverData db).
Proof.
  intros (Hkeys & Hids & Hbound). unfold wellFormed, replaceServer.
  cbn [servers servers_sequence].
  rewrite !List.map_app. cbn [List.map identity ServerRow.ip ServerRow.port ServerRow.id].
  split; [|split].
  - apply NoDup_app. split; [now apply NoDup_map_filter|].
    split; [|apply NoDup_singleton].
    intros key Hkey Hnew. apply list_elem_of_In in Hkey, Hnew.
    destruct Hnew as [ <- | [] ].
    apply in_map_iff in Hkey as (r & Hr & Hin).
    apply filter_In in Hin as [_ Hdiff].
    apply (proj2 (sameIdentity_identity (ServerData.ip serverData)
                    (ServerData.port serverData) r)) in Hr.
    rewrite Hr in Hdiff. discriminate.
  - apply NoDup_app. split; [now apply NoDup_map_filter|].
    split; [|apply NoDup_singleton].
    intros id Hid Hnew. apply list_elem_of_In in Hid, Hnew.
    destruct Hnew as [ <- | [] ].
    apply in_map_iff in Hid as (r & Hr & Hin).
    apply filter_In in Hin as [Hin _].
    rewrite List.Forall_forall in Hbound. specialize (Hbound r Hin). lia.
  - apply List.Forall_app. split.
    + rewrite List.Forall_forall in *. intros r Hin.
      apply filter_In in Hin as [Hin _]. specialize (Hbound r Hin). lia.
    + constructor; [cbn; lia | constructor].
Qed.

Lemma updateLastSeen_wellFormed (now : Z) (ip : string) (port : N) (db : t) :
  wellFormed db -> wellFormed (updateLastSeen now ip port db).
Proof.
  intros (Hkeys & Hids & Hbound). unfold wellFormed, updateLastSeen.
  cbn [servers servers_sequence]. rewrite !List.map_map.
  rewrite (List.map_ext _ identity)
    by (intros r; destruct (sameIdentity ip port r); reflexivity).
  rewrite (List.map_ext _ ServerRow.id)
    by (intros r; destruct (sameIdentity ip port r); reflexivity).
  split; [exact Hkeys|]. split; [exact Hids|].
  apply List.Forall_map. eapply List.Forall_impl; [|exact Hbound].
  intros r Hr. destruct (sameIdentity ip port r); exact Hr.
Qed.

Lemma insertServer_wellFormed (now : Z) (serverData : ServerData.t) (db : t) :
  wellFormed db -> wellFormed (snd (insertServer now serverData db)).
Proof.
  intros Hdb. destruct (insertServer_cases now serverData db) as [-> | ->];
    [exact Hdb | now apply replaceServer_wellFormed].
Qed.

Lemma getServerId_replaceServer (now : Z) (serverData : ServerData.t) (db : t) :
  getServerId (ServerData.ip serverData) (ServerData.port serverData)
    (replaceServer now serverData db)
  = Some (servers_sequence db + 1)%N.
Proof.
  unfold getServerId, lookupServer, replaceServer. cbn [servers].
  rewrite find_app_none by apply find_filter_out.
  cbn [List.find]. unfold sameIdentity at 1. cbn [ServerRow.ip ServerRow.port].
  rewrite String.eqb_refl, N.eqb_refl. reflexivity.
Qed.

End ServersTable.



(** Every probe keeps the [servers] table as the schema wants it: one
    row per (ip, port), one row per id, no id above the key counter. *)
Theorem probe_keeps_table_wellFormed (now : Z) (ip : string) (port : N)
    (info : JS.outcome Info.t) (players : JS.outcome (list Player.t))
    (self : ServerScannerService.t) (db : Database.t) :
  Database.wellFormed db ->
  Database.wellFormed
    (snd (ServerScannerService.queryServer now ip port info players (self, db))).
Proof.
  intros Hdb.
  assert (Hoffline : forall p, Database.wellFormed
            (ServerScannerService.markServerOffline now ip p db))
    by (intros p; now apply updateLastSeen_wellFormed).
  destruct info as [i|e1], players as [p|e2];
    try (unfold ServerScannerService.queryServer;
         cbn [ServerScannerService.promiseAll]; apply Hoffline).
  destruct (queryServer_answered now ip port i p self db)
    as [[_ ->] | [_ ->]]; [apply Hoffline|].
  cbn [snd].
  destruct (saveServerData_cases now ip (if (port =? 0)%N then 27015%N else port)
              (Some i) (Some p) db) as [[_ ->] | (_ & _ & ->)]; [exact Hdb|].
  unfold Database.appendSnapshot, Database.wellFormed.
  cbn [snd Database.servers Database.servers_sequence].
  now apply replaceServer_wellFormed.
Qed.

Lemma probe_keeps_table_wellFormed_witness :
  Database.wellFormed Database.empty /\
  Database.wellFormed
    (snd (ServerScannerService.queryServer 7 "10.0.0.1" 27015
            (WireCodec.parseA2SInfo Sample.infoResponse) (JS.Returned [])
            (ServerScannerService.initial, Database.empty))).
Proof.
  assert (Hempty : Database.wellFormed Database.empty)
    by (repeat split; constructor).
  split; [exact Hempty|].
  apply (probe_keeps_table_wellFormed 7 "10.0.0.1" 27015
           (WireCodec.parseA2SInfo Sample.infoResponse) (JS.Returned [])
           ServerScannerService.initial Database.empty Hempty).
Defined.

Section Upsert.

Import Database.

Lemma find_app {A} (f : A -> bool) (l1 l2 : list A) :
  List.find f (l1 ++ l2)
  = match List.find f l1 with Some x => Some x | None => List.find f l2 end.
Proof.
  induction l1 as [|x l1 IH]; cbn [List.find app]; [reflexivity|].
  destruct (f x); [reflexivity | exact IH].
Qed.

Lemma find_filter_agree {A} (f p : A -> bool) (l : list A) :
  (forall x, f x = true -> p x = true) ->
  List.find f (List.filter p l) = List.find f l.
Proof.
  intros Hfp. induction l as [|x l IH]; cbn [List.find List.filter]; [reflexivity|].
  destruct (f x) eqn:Ef.
  - rewrite (Hfp x Ef). cbn [List.find]. now rewrite Ef.
  - destruct (p x); [cbn [List.find]; now rewrite Ef | exact IH].
Qed.

Lemma find_none_all {A} (f : A -> bool) (l : list A) :
  (forall x, In x l -> f x = false) -> List.find f l = None.
Proof.
  induction l as [|x l IH]; intros Hall; cbn [List.find]; [reflexivity|].
  rewrite (Hall x) by now left. apply IH. intros y Hy. apply Hall. now right.
Qed.

Lemma other_identity (ip ip' : string) (port port' : N) (r : ServerRow.t) :
  (ip', port') <> (ip, port) ->
  sameIdentity ip' port' r = true -> negb (sameIdentity ip port r) = true.
Proof.
  intros Hne Hsame. apply sameIdentity_identity in Hsame.
  destruct (sameIdentity ip port r) eqn:E; [|reflexivity].
  apply sameIdentity_identity in E. congruence.
Qed.

End Upsert.

(** [insertServer] touches the row of its own address only: the row
    found for any other address is the same before and after, and the
    snapshots and predictions are left as they are. *)
Theorem insertServer_frame (now : Z) (serverData : ServerData.t)
    (ip' : string) (port' : N) (db : Database.t) :
  (ip', port') <> (ServerData.ip serverData, ServerData.port serverData) ->
  Database.lookupServer ip' port' (snd (Database.insertServer now serverData db))
  = Database.lookupServer ip' port' db /\
  Database.server_snapshots (snd (Database.insertServer now serverData db))
  = Database.server_snapshots db /\
  Database.polish_server_predictions (snd (Database.insertServer now serverData db))
  = Database.polish_server_predictions db.
Proof.
  intros Hother.
  destruct (insertServer_cases now serverData db) as [-> | ->];
    [repeat split|].
  cbn [snd]. split; [|split; reflexivity].
  unfold Database.lookupServer, Database.replaceServer. cbn [Database.servers].
  rewrite find_app, find_filter_agree
    by (intros r; now apply other_identity).
  destruct (List.find _ (Database.servers db)); [reflexivity|].
  cbn [List.find].
  match goal with
  | |- (if ?c then _ else _) = _ => destruct c eqn:E
  end; [|reflexivity].
  apply sameIdentity_identity in E.
  cbn [Database.identity ServerRow.ip ServerRow.port] in E.
  symmetry in E. contradiction.
Qed.

Lemma insertServer_frame_witness :
  ("10.0.0.2"%string, 27015%N)
  <> (ServerData.ip (Sample.serverData "b" "gm_construct" 32),
      ServerData.port (Sample.serverData "b" "gm_construct" 32)) /\
  Database.lookupServer "10.0.0.2" 27015
    (snd (Database.insertServer 9 (Sample.serverData "b" "gm_construct" 32)
            Database.empty))
  = Database.lookupServer "10.0.0.2" 27015 Database.empty.
Proof.
  assert (Hne : ("10.0.0.2"%string, 27015%N)
                <> (ServerData.ip (Sample.serverData "b" "gm_construct" 32),
                    ServerData.port (Sample.serverData "b" "gm_construct" 32)))
    by discriminate.
  split; [exact Hne|].
  apply (proj1 (insertServer_frame 9 (Sample.serverData "b" "gm_construct" 32)
                  "10.0.0.2" 27015 Database.empty Hne)).
Defined.

Section Saving.

Import Database.

(** The statement is rejected when a row of the address is referred to
    from another table. *)
Lemma insertServer_referenced (now : Z) (serverData : ServerData.t)
    (r : ServerRow.t) (db : t) :
  In r (servers db) ->
  sameIdentity (ServerData.ip serverData) (ServerData.port serverData) r = true ->
  referenced (ServerRow.id r) db = true ->
  insertServer now serverData db = (JS.Thrown foreignKeyFailed, db).
Proof.
  intros Hin Hsame Hreferenced. unfold insertServer.
  replace (existsb _ (servers db)) with true; [reflexivity|].
  symmetry. apply existsb_exists. exists r. split; [exact Hin|].
  now rewrite Hsame, Hreferenced.
Qed.

(** After a stored save the row of the address is referred to by the
    snapshot of that save. *)
Lemma saved_row_referenced (now : Z) (ip : string) (port : N)
    (info : option Info.t) (players : option (list Player.t)) (db : t) :
  fst (ServerScannerService.saveServerData now ip port info players db)
  = JS.Returned tt ->
  exists r,
    In r (servers (snd (ServerScannerService.saveServerData now ip port info
                          players db))) /\
    sameIdentity ip port r = true /\
    referenced (ServerRow.id r)
      (snd (ServerScannerService.saveServerData now ip port info players db))
    = true.
Proof.
  intros Hstored.
  destruct (saveServerData_cases now ip port info players db)
    as [[_ E] | (_ & Hid & E)]; rewrite E in *; [discriminate|].
  cbn [snd]. clear E Hstored.
  destruct (replaceServer_lookup now
              (ServerScannerService.serverDataOf ip port info) db)
    as (row & Hrow & Hrowid & _).
  cbn [ServerScannerService.serverDataOf ServerData.ip ServerData.port] in Hrow.
  unfold lookupServer in Hrow. apply find_some in Hrow as [Hin Hsame].
  exists row. split; [exact Hin|]. split; [exact Hsame|].
  unfold referenced, appendSnapshot. cbn [server_snapshots].
  rewrite existsb_app.
  cbn [existsb SnapshotRow.data ServerScannerService.snapshotDataOf
       SnapshotData.server_id].
  rewrite Hid, Hrowid. cbn [refersTo]. rewrite N.eqb_refl.
  now rewrite !orb_true_r.
Qed.

End Saving.

(** A server is saved once.  When [saveServerData] has stored a server,
    the snapshot of that save refers to the row written, so every later
    save of the same address is rejected by the database (the row it
    would replace is referred to) and leaves the database as it is; a
    later probe of that address that both queries answer is therefore
    counted offline, and only [last_seen] of the row moves. *)
Theorem resave_is_rejected (t1 t2 now : Z) (ip : string) (port : N)
    (info1 info2 : option Info.t) (players1 players2 : option (list Player.t))
    (db : Database.t) :
  let serverPort := if (port =? 0)%N then 27015%N else port in
  let first :=
    ServerScannerService.saveServerData t1 ip serverPort info1 players1 db in
  fst first = JS.Returned tt ->
  ServerScannerService.saveServerData t2 ip serverPort info2 players2 (snd first)
  = (JS.Thrown Database.foreignKeyFailed, snd first) /\
  forall (info : Info.t) (players : list Player.t)
         (self : ServerScannerService.t),
    ServerScannerService.queryServer now ip port
      (JS.Returned info) (JS.Returned players) (self, snd first)
    = ({| ServerScannerService.polishServers :=
            ServerScannerService.polishServers self;
          ServerScannerService.scanStats :=
            ServerScannerService.countOffline
              (ServerScannerService.scanStats self) |},
       ServerScannerService.markServerOffline now ip serverPort (snd first)).
Proof.
  cbv zeta. intros Hstored.
  destruct (saved_row_referenced t1 ip (if (port =? 0)%N then 27015%N else port)
              info1 players1 db Hstored) as (r & Hin & Hsame & Hreferenced).
  assert (Hrejected : forall t info players,
            ServerScannerService.saveServerData t ip
              (if (port =? 0)%N then 27015%N else port) info players
              (snd (ServerScannerService.saveServerData t1 ip
                      (if (port =? 0)%N then 27015%N else port) info1 players1 db))
            = (JS.Thrown Database.foreignKeyFailed,
               snd (ServerScannerService.saveServerData t1 ip
                      (if (port =? 0)%N then 27015%N else port) info1 players1 db))).
  { intros t info players. unfold ServerScannerService.saveServerData at 1.
    rewrite (insertServer_referenced t
               (ServerScannerService.serverDataOf ip
                  (if (port =? 0)%N then 27015%N else port) info)
               r _ Hin Hsame Hreferenced).
    reflexivity. }
  split; [apply Hrejected|].
  intros info players self.
  destruct (queryServer_answered now ip port info players self
              (snd (ServerScannerService.saveServerData t1 ip
                      (if (port =? 0)%N then 27015%N else port) info1 players1 db)))
    as [[_ ->] | [Haccepted _]]; [reflexivity|].
  rewrite Hrejected in Haccepted. discriminate.
Qed.

Lemma resave_is_rejected_witness :
  fst (ServerScannerService.saveServerData 10 "10.0.0.1" 27015 None None
         Database.empty)
  = JS.Returned tt /\
  ServerScannerService.saveServerData 20 "10.0.0.1" 27015 None None
    (snd (ServerScannerService.saveServerData 10 "10.0.0.1" 27015 None None
            Database.empty))
  = (JS.Thrown Database.foreignKeyFailed,
     snd (ServerScannerService.saveServerData 10 "10.0.0.1" 27015 None None
            Database.empty)).
Proof.
  assert (Hstored :
            fst (ServerScannerService.saveServerData 10 "10.0.0.1" 27015 None None
                   Database.empty)
            = JS.Returned tt) by reflexivity.
  split; [exact Hstored|].
  exact (proj1 (resave_is_rejected 10 20 30 "10.0.0.1" 27015 None None None None
                  Database.empty Hstored)).
Defined.

(** ** Feedback and the review list *)

Section Review.

Import Database.

Lemma filter_flat_map {A B} (q : B -> bool) (h : A -> list B) (l : list A) :
  List.filter q (flat_map h l) = flat_map (fun x => List.filter q (h x)) l.
Proof.
  induction l as [|x l IH]; cbn [flat_map]; [reflexivity|].
  now rewrite List.filter_app, IH.
Qed.

Lemma filter_map_fixed {A} (f : A -> bool) (g : A -> A) (l : list A) :
  (forall x, f (g x) = f x) -> (forall x, f x = true -> g x = x) ->
  List.filter f (List.map g l) = List.filter f l.
Proof.
  intros Hsame Hfix. induction l as [|x l IH]; cbn [List.map List.filter];
    [reflexivity|].
  rewrite Hsame. destruct (f x) eqn:E; [|exact IH].
  now rewrite (Hfix x E), IH.
Qed.

Lemma filter_none {A} (f : A -> bool) (l : list A) :
  (forall x, f x = false) -> List.filter f l = [].
Proof.
  intros Hnone. induction l as [|x l IH]; cbn [List.filter]; [reflexivity|].
  now rewrite Hnone.
Qed.

Lemma filter_all {A} (f : A -> bool) (l : list A) :
  (forall x, In x l -> f x = true) -> List.filter f l = l.
Proof.
  induction l as [|x l IH]; intros Hall; cbn [List.filter]; [reflexivity|].
  rewrite (Hall x) by now left. f_equal. apply IH. intros y Hy. apply Hall. now right.
Qed.

(** A row of the server that is given feedback is no longer up for
    review. *)
Lemma reviewRow_settled (now : Z) (s : ServerRow.t) (verdict : string)
    (reason : option string) (p : PredictionRow.t) :
  reviewRow s (feedbackUpdate now (ServerRow.id s) (Some verdict) reason p) = false.
Proof.
  unfold feedbackUpdate, awaitsFeedback.
  destruct (PredictionRow.server_id p) as [id|] eqn:Eid;
    destruct (PredictionRow.manual_feedback p) as [f|] eqn:Ef;
    try (unfold reviewRow; rewrite Eid, Ef; cbn [andb];
         now rewrite ?andb_false_r).
  destruct (N.eqb_spec id (ServerRow.id s)) as [->|Hne].
  - unfold reviewRow. cbn [attach PredictionRow.server_id
      PredictionRow.manual_feedback PredictionRow.needs_review].
    now rewrite andb_false_r.
  - unfold reviewRow. rewrite Eid, Ef.
    rewrite (proj2 (N.eqb_neq _ _)) by congruence. reflexivity.
Qed.

(** Rows of other servers are up for review as before, and unchanged
    when they are. *)
Lemma reviewRow_other (now : Z) (serverId : N) (s : ServerRow.t)
    (feedback reason : option string) (p : PredictionRow.t) :
  ServerRow.id s <> serverId ->
  reviewRow s (feedbackUpdate now serverId feedback reason p) = reviewRow s p /\
  (reviewRow s p = true -> feedbackUpdate now serverId feedback reason p = p).
Proof.
  intros Hother. unfold feedbackUpdate, awaitsFeedback.
  destruct (PredictionRow.server_id p) as [id|] eqn:Eid;
    destruct (PredictionRow.manual_feedback p) as [f|] eqn:Ef;
    try (split; reflexivity).
  destruct (N.eqb_spec id serverId) as [->|Hne]; [|split; reflexivity].
  unfold reviewRow.
  cbn [attach PredictionRow.server_id PredictionRow.manual_feedback
       PredictionRow.needs_review].
  rewrite Eid. rewrite (proj2 (N.eqb_neq _ _)) by exact Hother.
  split; [reflexivity | discriminate].
Qed.

End Review.

(** Feedback with a verdict takes exactly the entries of that server off
    the list of servers needing review: the rows the query selects after
    [submitFeedback] are the rows it selected before without those of
    the server (both taken before the [ORDER BY]). *)
Theorem feedback_clears_review (now : Z) (serverId : N) (verdict : string)
    (reason : option string) (db : Database.t) :
  Database.needingReview
    (Database.submitFeedback now serverId (Some verdict) reason db)
  = List.filter (fun entry => negb (ServerRow.id (fst entry) =? serverId)%N)
      (Database.needingReview db).
Proof.
  unfold Database.needingReview, Database.submitFeedback.
  cbn [Database.servers Database.polish_server_predictions].
  rewrite filter_flat_map. apply flat_map_ext. intros s.
  destruct (N.eqb_spec (ServerRow.id s) serverId) as [<-|Hother].
  - replace (List.filter (Database.reviewRow s)
               (List.map (Database.feedbackUpdate now (ServerRow.id s)
                            (Some verdict) reason)
                  (Database.polish_server_predictions db)))
      with (@nil PredictionRow.t).
    + cbn [List.map].
      induction (List.filter _ (Database.polish_server_predictions db))
        as [|p l IH]; cbn [List.map List.filter fst]; [reflexivity|].
      now rewrite N.eqb_refl.
    + induction (Database.polish_server_predictions db) as [|p l IH];
        cbn [List.map List.filter]; [reflexivity|].
      now rewrite reviewRow_settled.
  - rewrite filter_map_fixed
      by (intros p; now apply reviewRow_other).
    symmetry. apply filter_all. intros entry Hin.
    apply in_map_iff in Hin as (p & <- & _). cbn [fst].
    now rewrite (proj2 (N.eqb_neq _ _)).
Qed.

(** ** Wire codec: whole responses *)

Section Fields.

Import WireCodec.

Lemma lookup_at (buffer pre rest : list byte) (b : byte) (offset : nat) :
  buffer = pre ++ b :: rest -> offset = List.length pre ->
  buffer !! offset = Some b.
Proof.
  intros -> ->. rewrite <- (Nat.add_0_r (List.length pre)).
  now rewrite lookup_after.
Qed.

Lemma scanLength_terminated (s rest : list byte) :
  Forall (fun b => b <> x00) s -> scanLength (s ++ x00 :: rest) = List.length s.
Proof.
  induction 1 as [|b s Hb _ IH]; [reflexivity|].
  cbn [app scanLength List.length].
  destruct (Byte.eqb b x00) eqn:E; [|now rewrite IH].
  apply Byte.byte_dec_bl in E. contradiction.
Qed.

(** A string that ends with its terminator is read whole, wherever it
    stands in the buffer. *)
Lemma readString_at (buffer pre s rest : list byte) (offset : nat) :
  buffer = pre ++ s ++ x00 :: rest -> offset = List.length pre ->
  Forall (fun b => b <> x00) s ->
  readString buffer offset
  = {| StringScan.value := decoded s;
       StringScan.length := List.length s |}.
Proof.
  intros -> -> Hs. unfold readString, sliceString.
  rewrite drop_app_length, (scanLength_terminated _ _ Hs).
  f_equal. f_equal.
  replace (List.length pre + List.length s - List.length pre) with (List.length s)
    by lia.
  now rewrite take_app_length.
Qed.

End Fields.

Ltac flatten_lists :=
  repeat (rewrite <- app_assoc || rewrite <- app_comm_cons); cbn [app].

Ltac layout Hbuffer Hheader :=
  first
    [ solve [rewrite Hbuffer; flatten_lists; reflexivity]
    | solve [repeat (rewrite length_app || rewrite Hheader
                     || cbn [List.length]); lia]
    | assumption ].



(** ** Wire codec: the player response *)

Section PlayerEntries.

Import PlayerCodec.

Variable boundsMessage : nat -> nat -> string.

Lemma entryBytes_length (e : entry) :
  List.length (entryBytes e) = List.length (entryName e) + 10.
Proof. unfold entryBytes. cbn [List.length]. rewrite length_app. simpl. lia. Qed.

(** One pass of the loop over a whole entry. *)
Lemma playerLoop_entry (remaining : nat) (buffer pre rest : list byte)
    (e : entry) (players : list Player.t) :
  buffer = pre ++ entryBytes e ++ rest ->
  Forall (fun b => b <> x00) (entryName e) ->
  playerLoop boundsMessage (S remaining) buffer (List.length pre) players
  = playerLoop boundsMessage remaining buffer
      (List.length pre + List.length (entryBytes e))
      (players ++ [entryPlayer e]).
Proof.
  intros Hbuffer Hname.
  destruct e as [index name s0 s1 s2 s3 d0 d1 d2 d3].
  unfold entryBytes in Hbuffer.
  cbn [entryIndex entryName score0 score1 score2 score3
       duration0 duration1 duration2 duration3] in *.
  assert (Hheader : List.length pre = List.length pre) by reflexivity.
  cbn [playerLoop].
  replace (List.length pre <? List.length buffer) with true
    by (symmetry; apply Nat.ltb_lt; rewrite Hbuffer, !length_app;
        cbn [List.length]; lia).
  rewrite (readString_at buffer (pre ++ [index]) name
             (s0 :: s1 :: s2 :: s3 :: d0 :: d1 :: d2 :: d3 :: rest))
    by layout Hbuffer Hheader.
  cbn [StringScan.length StringScan.value].
  set (front := pre ++ index :: name ++ [x00]).
  assert (Hfront : List.length pre + 1 + List.length name + 1 = List.length front)
    by (subst front; rewrite !length_app; cbn [List.length];
        rewrite length_app; cbn [List.length]; lia).
  rewrite Hfront.
  unfold readInt32LE, readFloatLE, read32.
  rewrite (lookup_at buffer front
             (s1 :: s2 :: s3 :: d0 :: d1 :: d2 :: d3 :: rest) s0)
    by (subst front; layout Hbuffer Hheader).
  rewrite (lookup_at buffer (front ++ [s0])
             (s2 :: s3 :: d0 :: d1 :: d2 :: d3 :: rest) s1)
    by (subst front; layout Hbuffer Hheader).
  rewrite (lookup_at buffer (front ++ [s0; s1])
             (s3 :: d0 :: d1 :: d2 :: d3 :: rest) s2)
    by (subst front; layout Hbuffer Hheader).
  rewrite (lookup_at buffer (front ++ [s0; s1; s2])
             (d0 :: d1 :: d2 :: d3 :: rest) s3)
    by (subst front; layout Hbuffer Hheader).
  rewrite (lookup_at buffer (front ++ [s0; s1; s2; s3])
             (d1 :: d2 :: d3 :: rest) d0)
    by (subst front; layout Hbuffer Hheader).
  rewrite (lookup_at buffer (front ++ [s0; s1; s2; s3; d0])
             (d2 :: d3 :: rest) d1)
    by (subst front; layout Hbuffer Hheader).
  rewrite (lookup_at buffer (front ++ [s0; s1; s2; s3; d0; d1])
             (d3 :: rest) d2)
    by (subst front; layout Hbuffer Hheader).
  rewrite (lookup_at buffer (front ++ [s0; s1; s2; s3; d0; d1; d2]) rest d3)
    by (subst front; layout Hbuffer Hheader).
  rewrite (lookup_at buffer pre
             (name ++ x00 :: s0 :: s1 :: s2 :: s3 :: d0 :: d1 :: d2 :: d3 :: rest)
             index)
    by layout Hbuffer Hheader.
  replace (List.length front + 4 + 4)
    with (List.length pre
          + List.length (index :: name ++ [x00; s0; s1; s2; s3; d0; d1; d2; d3]))
    by (rewrite <- Hfront; cbn [List.length]; rewrite length_app;
        cbn [List.length]; lia).
  reflexivity.
Qed.

Lemma playerLoop_entries (entries : list entry) :
  forall (extra : nat) (buffer pre rest : list byte) (players : list Player.t),
    buffer = pre ++ flat_map entryBytes entries ++ rest ->
    Forall (fun e => Forall (fun b => b <> x00) (entryName e)) entries ->
    playerLoop boundsMessage (List.length entries + extra) buffer
      (List.length pre) players
    = playerLoop boundsMessage extra buffer
        (List.length pre + List.length (flat_map entryBytes entries))
        (players ++ List.map entryPlayer entries).
Proof.
  induction entries as [|e entries IH];
    intros extra buffer pre rest players Hbuffer Hnames.
  - cbn [List.length flat_map List.map Nat.add].
    now rewrite Nat.add_0_r, app_nil_r.
  - apply Forall_cons in Hnames as [He Hrest].
    cbn [List.length Nat.add flat_map List.map].
    rewrite (playerLoop_entry _ buffer pre (flat_map entryBytes entries ++ rest) e)
      by (try exact He; rewrite Hbuffer; cbn [flat_map];
          now rewrite <- !app_assoc).
    replace (List.length pre + List.length (entryBytes e))
      with (List.length (pre ++ entryBytes e)) by now rewrite length_app.
    rewrite (IH extra buffer (pre ++ entryBytes e) rest)
      by (try exact Hrest; rewrite Hbuffer; cbn [flat_map];
          now rewrite <- !app_assoc).
    rewrite !length_app, <- app_assoc. f_equal. lia.
Qed.

(** A pass that finds the name and fewer than eight bytes after its
    terminator throws. *)
Lemma playerLoop_cut (remaining : nat) (buffer pre name partial : list byte)
    (index : byte) (players : list Player.t) :
  buffer = pre ++ index :: name ++ x00 :: partial ->
  Forall (fun b => b <> x00) name ->
  List.length partial < 8 ->
  exists offset,
    playerLoop boundsMessage (S remaining) buffer (List.length pre) players
    = JS.Thrown (boundsMessage offset (List.length buffer)).
Proof.
  intros Hbuffer Hname Hcut.
  assert (Hheader : List.length pre = List.length pre) by reflexivity.
  cbn [playerLoop].
  replace (List.length pre <? List.length buffer) with true
    by (symmetry; apply Nat.ltb_lt; rewrite Hbuffer, !length_app;
        cbn [List.length]; lia).
  rewrite (readString_at buffer (pre ++ [index]) name partial)
    by layout Hbuffer Hheader.
  cbn [StringScan.length StringScan.value].
  set (front := pre ++ index :: name ++ [x00]).
  assert (Hfront : List.length pre + 1 + List.length name + 1 = List.length front)
    by (subst front; rewrite !length_app; cbn [List.length];
        rewrite length_app; cbn [List.length]; lia).
  rewrite Hfront.
  assert (Hat : forall k, buffer !! (List.length front + k) = partial !! k).
  { intros k. rewrite Hbuffer.
    replace (pre ++ index :: name ++ x00 :: partial) with (front ++ partial)
      by (subst front; flatten_lists; reflexivity).
    apply lookup_after. }
  unfold readInt32LE, readFloatLE, read32.
  pose proof (Hat 0) as Hat0. rewrite Nat.add_0_r in Hat0.
  rewrite Hat0, !Hat.
  destruct partial as [|s0 [|s1 [|s2 [|s3 tail]]]];
    try (eexists; reflexivity).
  cbn [lookup list_lookup].
  replace (List.length front + 4 + 1) with (List.length front + 5) by lia.
  replace (List.length front + 4 + 2) with (List.length front + 6) by lia.
  replace (List.length front + 4 + 3) with (List.length front + 7) by lia.
  rewrite !Hat.
  destruct tail as [|d0 [|d1 [|d2 [|d3 tail]]]];
    try (eexists; reflexivity).
  cbn [List.length] in Hcut. lia.
Qed.

End PlayerEntries.

(** A response that ends inside an entry, after the name and before the
    end of the score and duration, makes [parseA2SPlayer] throw. *)
Lemma parseA2SPlayer_cut (boundsMessage : nat -> nat -> string)
    (header name partial : list byte) (count index : byte)
    (entries : list PlayerCodec.entry) :
  List.length header = 5 ->
  List.length entries < N.to_nat (Byte.to_N count) ->
  Forall (fun e => Forall (fun b => b <> x00) (PlayerCodec.entryName e)) entries ->
  Forall (fun b => b <> x00) name ->
  List.length partial < 8 ->
  exists offset,
    PlayerCodec.parseA2SPlayer boundsMessage
      (header ++ count :: flat_map PlayerCodec.entryBytes entries
         ++ index :: name ++ x00 :: partial)
    = JS.Thrown
        ("Failed to parse A2S_PLAYER: "
           ++ boundsMessage offset
                (List.length
                   (header ++ count :: flat_map PlayerCodec.entryBytes entries
                      ++ index :: name ++ x00 :: partial)))%string.
Proof.
  intros Hheader Hcount Hnames Hname Hcut.
  assert (Hmore : exists extra,
            N.to_nat (Byte.to_N count) = List.length entries + S extra)
    by (exists (N.to_nat (Byte.to_N count) - List.length entries - 1); lia).
  destruct Hmore as (extra & Hextra).
  unfold PlayerCodec.parseA2SPlayer.
  set (buffer := header ++ count :: flat_map PlayerCodec.entryBytes entries
                   ++ index :: name ++ x00 :: partial).
  assert (Hbuffer : buffer
            = header ++ count :: flat_map PlayerCodec.entryBytes entries
                ++ index :: name ++ x00 :: partial)
    by reflexivity.
  rewrite (lookup_at buffer header
             (flat_map PlayerCodec.entryBytes entries
                ++ index :: name ++ x00 :: partial) count 5)
    by layout Hbuffer Hheader.
  rewrite Hextra.
  replace 6 with (List.length (header ++ [count]))
    by (rewrite length_app, Hheader; reflexivity).
  rewrite (playerLoop_entries boundsMessage entries (S extra) buffer
             (header ++ [count]) (index :: name ++ x00 :: partial))
    by (try exact Hnames; rewrite Hbuffer; flatten_lists; reflexivity).
  replace (List.length (header ++ [count])
           + List.length (flat_map PlayerCodec.entryBytes entries))
    with (List.length
            ((header ++ [count]) ++ flat_map PlayerCodec.entryBytes entries))
    by now rewrite !length_app.
  destruct (playerLoop_cut boundsMessage extra buffer
              ((header ++ [count]) ++ flat_map PlayerCodec.entryBytes entries)
              name partial index
              ([] ++ List.map PlayerCodec.entryPlayer entries))
    as (offset & Hthrown);
    [rewrite Hbuffer; flatten_lists; reflexivity | exact Hname | exact Hcut |].
  exists offset. rewrite Hthrown. reflexivity.
Qed.





(** A probe whose player response ends inside an entry is recorded as
    offline, whatever the info query answered: the decoder's error rejects
    the player query, so nothing is saved, no snapshot is written and only
    [last_seen] of an existing row moves. *)
Theorem cut_player_response_marks_offline (boundsMessage : nat -> nat -> string)
    (header name partial : list byte) (count index : byte)
    (entries : list PlayerCodec.entry) (now : Z) (ip : string) (port : N)
    (info : JS.outcome Info.t) (self : ServerScannerService.t)
    (db : Database.t) :
  List.length header = 5 ->
  List.length entries < N.to_nat (Byte.to_N count) ->
  Forall (fun e => Forall (fun b => b <> x00) (PlayerCodec.entryName e)) entries ->
  Forall (fun b => b <> x00) name ->
  List.length partial < 8 ->
  let result :=
    ServerScannerService.queryServer now ip port info
      (PlayerCodec.parseA2SPlayer boundsMessage
         (header ++ count :: flat_map PlayerCodec.entryBytes entries
            ++ index :: name ++ x00 :: partial))
      (self, db) in
  ScanStats.offlineServers (ServerScannerService.scanStats (fst result))
    = (ScanStats.offlineServers (ServerScannerService.scanStats self) + 1)%N /\
  ScanStats.onlineServers (ServerScannerService.scanStats (fst result))
    = ScanStats.onlineServers (ServerScannerService.scanStats self) /\
  snd result
    = ServerScannerService.markServerOffline now ip
        (if (port =? 0)%N then 27015%N else port) db /\
  Database.server_snapshots (snd result) = Database.server_snapshots db.
Proof.
  intros Hheader Hcount Hnames Hname Hcut. cbv zeta.
  destruct (parseA2SPlayer_cut boundsMessage header name partial count index
              entries Hheader Hcount Hnames Hname Hcut) as (offset & ->).
  unfold ServerScannerService.queryServer.
  destruct info as [i | message]; cbn [ServerScannerService.promiseAll fst snd];
    repeat split.
Qed.

Lemma cut_player_response_marks_offline_witness :
  List.length Sample.playerHeader = 5 /\
  List.length Sample.playerEntries < N.to_nat (Byte.to_N x03) /\
  ScanStats.offlineServers
    (ServerScannerService.scanStats
       (fst (ServerScannerService.queryServer 7 "10.0.0.1" 27015
               (WireCodec.parseA2SInfo Sample.infoResponse)
               (PlayerCodec.parseA2SPlayer (fun _ _ => "out of range"%string)
                  (Sample.playerHeader
                     ++ x03 :: flat_map PlayerCodec.entryBytes Sample.playerEntries
                     ++ x02 :: list_byte_of_string "x" ++ x00 :: [x01; x02]))
               (ServerScannerService.initial, Database.empty))))
  = (ScanStats.offlineServers
       (ServerScannerService.scanStats ServerScannerService.initial) + 1)%N.
Proof.
  split; [reflexivity|]. split; [vm_compute; lia|].
  apply (cut_player_response_marks_offline (fun _ _ => "out of range"%string)
           Sample.playerHeader (list_byte_of_string "x") [x01; x02] x03 x02
           Sample.playerEntries 7 "10.0.0.1" 27015
           (WireCodec.parseA2SInfo Sample.infoResponse)
           ServerScannerService.initial Database.empty).
  - reflexivity.
  - vm_compute. lia.
  - repeat constructor; discriminate.
  - repeat constructor; discriminate.
  - cbn. lia.
Defined.

(** ** Retries *)

Section Retries.

Context {A : Type}.

Lemma retry_cases (failure : string -> string)
    (responses : nat -> JS.outcome A) :
  exists calls,
    1 <= calls <= 3 /\
    JS.retryLoop SteamAPIClient.timerDelay failure 3 [1000; 2000; 4000]%Z
      responses 3 1 0%Z
    = (Some match responses calls with
            | JS.Returned data => JS.Returned data
            | JS.Thrown message => JS.Thrown (failure message)
            end,
       calls, match calls with 1 => 0%Z | 2 => 1000%Z | _ => 3000%Z end) /\
    (forall attempt, 1 <= attempt < calls ->
       exists message, responses attempt = JS.Thrown message) /\
    (calls < 3 -> exists data, responses calls = JS.Returned data).
Proof.
  cbn [JS.retryLoop Nat.eqb].
  destruct (responses 1) as [data1|message1] eqn:E1.
  { exists 1. rewrite E1. repeat split; try lia; eauto. }
  destruct (responses 2) as [data2|message2] eqn:E2.
  { exists 2. rewrite E2. repeat split; try lia; eauto.
    intros attempt Hattempt. assert (attempt = 1) as -> by lia. eauto. }
  exists 3. destruct (responses 3) as [data3|message3] eqn:E3;
    (repeat split; try lia;
     intros attempt Hattempt;
     assert (attempt = 1 \/ attempt = 2) as [-> | ->] by lia; eauto).
Qed.

End Retries.

(** [makeRequest] always settles, after one to three HTTP calls: it stops
    at the first call that answers and gives its data; when the third
    call fails too, it throws that call's message behind the prefix
    "Steam API request failed after 3 attempts: ".  The timers before the
    second and third call take 1000 and 2000 ms, the delay of 4000 ms is
    never armed.  The rate limiter is passed once: the retries are HTTP
    calls it does not count. *)
Theorem makeRequest_retries {A : Type} (late : N) (clock : Z)
    (responses : nat -> JS.outcome A) (self : SteamAPIClient.t) :
  exists calls,
    1 <= calls <= 3 /\
    SteamAPIClient.makeRequest late clock responses self
    = (Some match responses calls with
            | JS.Returned data => JS.Returned data
            | JS.Thrown message =>
                JS.Thrown ("Steam API request failed after 3 attempts: "
                             ++ message)%string
            end,
       calls,
       match calls with 1 => 0%Z | 2 => 1000%Z | _ => 3000%Z end,
       snd (SteamAPIClient.checkRateLimit late clock self)) /\
    (forall attempt, 1 <= attempt < calls ->
       exists message, responses attempt = JS.Thrown message) /\
    (calls < 3 -> exists data, responses calls = JS.Returned data).
Proof.
  unfold SteamAPIClient.makeRequest, SteamAPIClient.maxRetries,
    SteamAPIClient.retryDelays.
  destruct (SteamAPIClient.checkRateLimit late clock self) as [resolved self'].
  destruct (retry_cases
              (fun message =>
                 ("Steam API request failed after " ++ JS.decimal (N.of_nat 3)
                    ++ " attempts: " ++ message)%string) responses)
    as (calls & Hcalls & Hloop & Hbefore & Hlast).
  exists calls. rewrite Hloop. repeat split; try lia; try assumption.
Qed.

(** [executeWithRetry] runs the statement at most three times and stops
    at the first run that succeeds; when the third run fails as well, the
    error of that run is thrown as it is, the errors of the first two
    runs are lost. *)
Theorem executeWithRetry_last_error {A : Type}
    (responses : nat -> JS.outcome A) :
  exists calls,
    1 <= calls <= 3 /\
    DatabaseConnection.executeWithRetry responses
    = (Some (responses calls), calls,
       match calls with 1 => 0%Z | 2 => 1000%Z | _ => 3000%Z end) /\
    (forall attempt, 1 <= attempt < calls ->
       exists message, responses attempt = JS.Thrown message) /\
    (calls < 3 -> exists data, responses calls = JS.Returned data).
Proof.
  unfold DatabaseConnection.executeWithRetry, DatabaseConnection.retryAttempts,
    DatabaseConnection.retryDelays.
  destruct (retry_cases (fun message => message) responses)
    as (calls & Hcalls & Hloop & Hbefore & Hlast).
  exists calls. rewrite Hloop. repeat split; try lia; try assumption.
  do 3 f_equal. now destruct (responses calls).
Qed.

(** ** The history of the rate limiter *)

Section History.

Import SteamAPIClient.

Lemma prune_past (window now clock : Z) (history : list Z) :
  (now <= clock)%Z ->
  Forall (fun timestamp => (timestamp <= now)%Z) history ->
  Forall (fun timestamp => (timestamp <= clock)%Z) (prune window now history).
Proof.
  intros Hclock Hpast. rewrite List.Forall_forall in *.
  intros timestamp Hin. apply filter_In in Hin as [Hin _].
  specialize (Hpast _ Hin). cbn in Hpast. lia.
Qed.

Lemma prune_length (window now : Z) (history : list Z) :
  List.length (prune window now history) <= List.length history.
Proof. apply List.filter_length_le. Qed.

(** Pruning a list that holds a timestamp out of the window makes it
    shorter. *)
Lemma prune_drops (window now : Z) (history : list Z) (timestamp : Z) :
  In timestamp history ->
  (window <= now - timestamp)%Z ->
  List.length (prune window now history) < List.length history.
Proof.
  induction history as [|x l IH]; intros Hin Hout; [destruct Hin|].
  cbn [prune List.filter List.length].
  destruct Hin as [-> | Hin].
  - replace (now - timestamp <? window)%Z with false
      by (symmetry; apply Z.ltb_ge; lia).
    pose proof (prune_length window now l). unfold prune in *. lia.
  - specialize (IH Hin Hout). unfold prune in IH.
    destruct (now - x <? window)%Z; cbn [List.length]; lia.
Qed.

End History.

(** The limiter keeps its history bounded: when the history holds no
    timestamp of the future and no more than [maxRequestsPerWindow]
    entries, the same is true when [checkRateLimit] has resolved, and the
    call does not resolve before it was entered.  A cap of at least one
    request and a window that fits a timer (at most 2147483647 ms) are
    needed: a longer wait is cut to 1 ms by [setTimeout]. *)
Theorem checkRateLimit_keeps_history_bounded (late : N) (clock : Z)
    (self : SteamAPIClient.t) :
  1 <= SteamAPIClient.maxRequestsPerWindow self ->
  (SteamAPIClient.rateLimitWindow self <= 2147483647)%Z ->
  SteamAPIClient.bounded clock self ->
  (clock <= fst (SteamAPIClient.checkRateLimit late clock self))%Z /\
  SteamAPIClient.bounded
    (fst (SteamAPIClient.checkRateLimit late clock self))
    (snd (SteamAPIClient.checkRateLimit late clock self)).
Proof.
  intros Hcap Hwindow [Hpast Hlength]. unfold SteamAPIClient.checkRateLimit.
  set (window := SteamAPIClient.rateLimitWindow self) in *.
  set (history := SteamAPIClient.prune window clock
                    (SteamAPIClient.requestHistory self)).
  assert (Hhistory : Forall (fun timestamp => (timestamp <= clock)%Z) history)
    by (apply prune_past; [lia | exact Hpast]).
  assert (Hshort : List.length history <= SteamAPIClient.maxRequestsPerWindow self)
    by (pose proof (prune_length window clock (SteamAPIClient.requestHistory self));
        subst history; lia).
  destruct (Nat.leb_spec (SteamAPIClient.maxRequestsPerWindow self)
              (List.length history)) as [Hfull | Hroom].
  - destruct (SteamAPIClient.oldestOf history) as [oldest|] eqn:Holdest;
      [|destruct history; [cbn [List.length] in Hfull; lia | discriminate]].
    pose proof (oldestOf_in _ _ Holdest) as Hin.
    assert (Hrecent : (clock - oldest < window)%Z).
    { subst history. unfold SteamAPIClient.prune in Hin.
      apply filter_In in Hin as [_ Hlt]. now apply Z.ltb_lt in Hlt. }
    assert (Hold : (oldest <= clock)%Z)
      by (rewrite List.Forall_forall in Hhistory; exact (Hhistory _ Hin)).
    cbn [fmap option_fmap option_map fst snd SteamAPIClient.timerDelay].
    replace ((1 <=? window - (clock - oldest))%Z
             && (window - (clock - oldest) <=? 2147483647)%Z) with true
      by (symmetry; apply andb_true_iff; split; apply Z.leb_le; lia).
    set (resolved := (clock + (window - (clock - oldest)) + Z.of_N late)%Z).
    assert (Hresolved : (clock <= resolved)%Z) by (subst resolved; lia).
    split; [exact Hresolved|]. split.
    + cbn [SteamAPIClient.requestHistory]. apply Forall_app. split.
      * apply prune_past; [lia|].
        eapply List.Forall_impl; [|exact Hhistory]. cbn. intros. lia.
      * now constructor.
    + cbn [SteamAPIClient.requestHistory SteamAPIClient.maxRequestsPerWindow].
      rewrite length_app. cbn [List.length].
      pose proof (prune_drops window resolved history oldest Hin) as Hdrop.
      assert (window <= resolved - oldest)%Z by (subst resolved; lia).
      specialize (Hdrop ltac:(assumption)). lia.
  - cbn [fst snd]. split; [lia|]. split.
    + cbn [SteamAPIClient.requestHistory]. apply Forall_app. split;
        [exact Hhistory | constructor; [lia | constructor]].
    + cbn [SteamAPIClient.requestHistory SteamAPIClient.maxRequestsPerWindow].
      rewrite length_app. cbn [List.length]. lia.
Qed.

Lemma checkRateLimit_keeps_history_bounded_witness :
  1 <= SteamAPIClient.maxRequestsPerWindow Sample.fullWindow /\
  (SteamAPIClient.rateLimitWindow Sample.fullWindow <= 2147483647)%Z /\
  SteamAPIClient.bounded 30 Sample.fullWindow /\
  (30 <= fst (SteamAPIClient.checkRateLimit 0 30 Sample.fullWindow))%Z /\
  SteamAPIClient.bounded
    (fst (SteamAPIClient.checkRateLimit 0 30 Sample.fullWindow))
    (snd (SteamAPIClient.checkRateLimit 0 30 Sample.fullWindow)).
Proof.
  assert (Hcap : 1 <= SteamAPIClient.maxRequestsPerWindow Sample.fullWindow)
    by (cbn; lia).
  assert (Hwindow :
            (SteamAPIClient.rateLimitWindow Sample.fullWindow <= 2147483647)%Z)
    by (cbn; lia).
  assert (Hbounded : SteamAPIClient.bounded 30 Sample.fullWindow)
    by (split; [repeat constructor; lia | cbn; lia]).
  split; [exact Hcap|]. split; [exact Hwindow|]. split; [exact Hbounded|].
  exact (checkRateLimit_keeps_history_bounded 0 30 Sample.fullWindow
           Hcap Hwindow Hbounded).
Defined.

(** ** The worker loop of the enrichment queue *)

Section SortedAgain.

Context {A : Type} (compare : A -> A -> Z).

(** Sorting a sorted array leaves it as it is. *)
Lemma sort_sorted_id (l : list A) :
  StronglySorted (fun x y => (compare x y <= 0)%Z) l -> JS.sort compare l = l.
Proof.
  induction 1 as [|x l Hl IH Hx]; [reflexivity|].
  cbn [JS.sort foldr]. fold (JS.sort compare l). rewrite IH.
  destruct l as [|y l']; [reflexivity|].
  cbn [JS.insert]. apply Forall_cons in Hx as [Hxy _].
  apply Z.leb_le in Hxy. now rewrite Hxy.
Qed.

Lemma sorted_drop (R : A -> A -> Prop) (n : nat) (l : list A) :
  StronglySorted R l -> StronglySorted R (drop n l).
Proof.
  intros Hsorted. rewrite <- (take_drop n l) in Hsorted.
  eapply StronglySorted_app_1_r. exact Hsorted.
Qed.

End SortedAgain.

Section Chunks.

Context {A : Type}.

(** More passes than the loop needs change nothing. *)
Lemma chunkLoop_enough (size : nat) (items : list A) :
  1 <= size ->
  forall (fuel extra i : nat) (batches : list (list A)),
    List.length items <= i + fuel ->
    JS.chunkLoop (fuel + extra) size items i batches
    = JS.chunkLoop fuel size items i batches.
Proof.
  intros Hsize. induction fuel as [|fuel IH]; intros extra i batches Hfuel.
  - cbn [Nat.add JS.chunkLoop]. destruct extra as [|extra]; [reflexivity|].
    cbn [JS.chunkLoop].
    now rewrite (proj2 (Nat.ltb_ge i (List.length items))) by lia.
  - cbn [Nat.add JS.chunkLoop].
    destruct (i <? List.length items); [|reflexivity].
    apply IH. lia.
Qed.

(** The loop from the index [i] on is the loop over the items from [i]
    on. *)
Lemma chunkLoop_shift (size : nat) :
  forall (fuel : nat) (items : list A) (i : nat) (batches : list (list A)),
    JS.chunkLoop fuel size items i batches
    = batches ++ JS.chunkLoop fuel size (drop i items) 0 [].
Proof.
  induction fuel as [|fuel IH]; intros items i batches;
    cbn [JS.chunkLoop]; [now rewrite app_nil_r|].
  rewrite length_drop.
  destruct (Nat.ltb_spec i (List.length items)) as [Hin | Hout].
  - rewrite (proj2 (Nat.ltb_lt 0 (List.length items - i))) by lia.
    rewrite (IH items (i + size)).
    rewrite (IH (drop i items) (0 + size)).
    cbn [Nat.add app]. rewrite drop_0, drop_drop, <- app_assoc. reflexivity.
  - rewrite (proj2 (Nat.ltb_ge 0 (List.length items - i))) by lia.
    now rewrite app_nil_r.
Qed.

Lemma chunks_cons (size : nat) (items : list A) :
  1 <= size -> items <> [] ->
  JS.chunks size items = take size items :: JS.chunks size (drop size items).
Proof.
  intros Hsize Hitems. unfold JS.chunks.
  destruct (List.length items) as [|n] eqn:Elength;
    [destruct items; [contradiction | discriminate]|].
  cbn [JS.chunkLoop]. rewrite Elength.
  rewrite (proj2 (Nat.ltb_lt 0 (S n))) by lia.
  rewrite chunkLoop_shift. cbn [Nat.add app]. rewrite drop_0.
  f_equal.
  replace n
    with (List.length (drop size items) + (n - List.length (drop size items)))
    at 1 by (rewrite length_drop; lia).
  apply chunkLoop_enough; [exact Hsize | lia].
Qed.

Lemma chunks_nil (size : nat) : JS.chunks size (@nil A) = [].
Proof. reflexivity. Qed.

End Chunks.

Section WorkerLoop.

Import SteamDataService.

Lemma workLeft_cons (item : QueueItem.t) (queue : list QueueItem.t) :
  workLeft (item :: queue) = roundsLeft item + workLeft queue.
Proof. reflexivity. Qed.

Lemma workLeft_app (q1 q2 : list QueueItem.t) :
  workLeft (q1 ++ q2) = workLeft q1 + workLeft q2.
Proof. unfold workLeft. now rewrite List.map_app, list_sum_app. Qed.

Lemma workLeft_perm (q1 q2 : list QueueItem.t) :
  Permutation q1 q2 -> workLeft q1 = workLeft q2.
Proof.
  induction 1 as [|x l l' _ IH|x y l|l l' l'' _ IH1 _ IH2];
    rewrite ?workLeft_cons; lia.
Qed.

Lemma workLeft_length (queue : list QueueItem.t) :
  List.length queue <= workLeft queue.
Proof.
  induction queue as [|item queue IH]; [apply Nat.le_refl|].
  rewrite workLeft_cons. unfold roundsLeft. cbn [List.length]. lia.
Qed.

(** A failed batch comes back with one round less for each of its
    items. *)
Lemma requeue_work (batch : list QueueItem.t) :
  workLeft (requeueFailed batch []) + List.length batch <= workLeft batch.
Proof.
  unfold requeueFailed. cbn [app].
  induction batch as [|item batch IH]; [apply Nat.le_refl|].
  cbn [List.map List.filter QueueItem.retryCount List.length].
  destruct (Nat.ltb_spec (QueueItem.retryCount item + 1) 3) as [Hkept | Hgone];
    rewrite ?workLeft_cons; unfold roundsLeft;
    cbn [QueueItem.retryCount]; lia.
Qed.

Lemma nextBatch_work (size : nat) (queue : list QueueItem.t) :
  workLeft (fst (nextBatch size queue)) + workLeft (snd (nextBatch size queue))
  = workLeft queue.
Proof.
  unfold nextBatch. cbn [fst snd]. rewrite <- workLeft_app, take_drop.
  apply workLeft_perm, sort_perm.
Qed.

Lemma nextBatch_nonempty (size : nat) (queue : list QueueItem.t) :
  1 <= size -> queue <> [] -> 1 <= List.length (fst (nextBatch size queue)).
Proof.
  intros Hsize Hqueue. unfold nextBatch. cbn [fst].
  rewrite length_take.
  rewrite (Permutation_length (sort_perm compareItems queue)).
  destruct queue; [contradiction|]. cbn [List.length]. lia.
Qed.

Lemma processLoop_round (fuel : nat) (fails : nat -> bool) (round size : nat)
    (queue : list QueueItem.t) (served : list (list QueueItem.t)) :
  queue <> [] ->
  processLoop (S fuel) fails round size queue served
  = processLoop fuel fails (S round) size
      (if fails round
       then requeueFailed (fst (nextBatch size queue)) (snd (nextBatch size queue))
       else snd (nextBatch size queue))
      (served ++ [fst (nextBatch size queue)]).
Proof.
  intros Hqueue. destruct queue as [|item queue]; [contradiction|].
  cbn [processLoop]. now destruct (nextBatch size (item :: queue)).
Qed.

Lemma processLoop_spends (fuel : nat) (fails : nat -> bool) (size : nat) :
  1 <= size ->
  forall (round : nat) (queue : list QueueItem.t)
         (served : list (list QueueItem.t)),
    workLeft queue <= fuel ->
    snd (processLoop fuel fails round size queue served) = [] /\
    list_sum (List.map List.length
                (fst (processLoop fuel fails round size queue served)))
    <= list_sum (List.map List.length served) + workLeft queue.
Proof.
  intros Hsize. induction fuel as [|fuel IH]; intros round queue served Hfuel.
  - pose proof (workLeft_length queue) as Hlength.
    destruct queue; [|cbn [List.length] in Hlength; lia].
    cbn [processLoop fst snd]. split; [reflexivity | lia].
  - destruct (decide (queue = [])) as [-> | Hqueue];
      [cbn [processLoop fst snd]; split; [reflexivity | lia]|].
    rewrite (processLoop_round fuel fails round size queue served Hqueue).
    pose proof (nextBatch_work size queue) as Hwork.
    pose proof (nextBatch_nonempty size queue Hsize Hqueue) as Hbatch.
    destruct (nextBatch size queue) as [batch rest]. cbn [fst snd] in *.
    pose proof (requeue_work batch) as Hrequeue.
    pose proof (workLeft_length batch) as Hlength.
    assert (Hnext : workLeft (if fails round then requeueFailed batch rest else rest)
                    + List.length batch <= workLeft queue).
    { destruct (fails round); [|lia].
      replace (requeueFailed batch rest) with (rest ++ requeueFailed batch [])
        by reflexivity.
      rewrite workLeft_app. lia. }
    destruct (IH (S round) (if fails round then requeueFailed batch rest else rest)
                (served ++ [batch]) ltac:(lia)) as [Hempty Hspent].
    split; [exact Hempty|].
    rewrite List.map_app, list_sum_app in Hspent.
    cbn [List.map list_sum fold_right] in Hspent. lia.
Qed.

Lemma processLoop_in_order (fuel size : nat) (fails : nat -> bool) :
  1 <= size ->
  (forall round, fails round = false) ->
  forall (round : nat) (queue : list QueueItem.t)
         (served : list (list QueueItem.t)),
    List.length queue <= fuel ->
    concat (fst (processLoop fuel fails round size queue served))
    = concat served ++ JS.sort compareItems queue.
Proof.
  intros Hsize Hfails. induction fuel as [|fuel IH];
    intros round queue served Hfuel.
  - destruct queue; [|cbn [List.length] in Hfuel; lia].
    cbn. now rewrite app_nil_r.
  - destruct (decide (queue = [])) as [-> | Hqueue];
      [cbn; now rewrite app_nil_r|].
    rewrite (processLoop_round fuel fails round size queue served Hqueue).
    rewrite Hfails. unfold nextBatch. cbn [fst snd].
    set (sorted := JS.sort compareItems queue).
    assert (Hsame : List.length sorted = List.length queue)
      by apply Permutation_length, sort_perm.
    assert (Hsome : 1 <= List.length queue)
      by (destruct queue; [contradiction | cbn [List.length]; lia]).
    rewrite IH by (rewrite length_drop, Hsame; lia).
    rewrite concat_app. cbn [concat]. rewrite app_nil_r, <- app_assoc.
    f_equal.
    rewrite (sort_sorted_id compareItems (drop size sorted))
      by (apply sorted_drop;
          apply (sort_sorted compareItems compareItems_total compareItems_trans)).
    apply take_drop.
Qed.

Lemma processLoop_chunks (fuel size : nat) (fails : nat -> bool) :
  1 <= size ->
  (forall round, fails round = false) ->
  forall (round : nat) (queue : list QueueItem.t)
         (served : list (list QueueItem.t)),
    List.length queue <= fuel ->
    processLoop fuel fails round size queue served
    = (served ++ JS.chunks size (JS.sort compareItems queue), []).
Proof.
  intros Hsize Hfails. induction fuel as [|fuel IH];
    intros round queue served Hfuel.
  - destruct queue; [|cbn [List.length] in Hfuel; lia].
    cbn. now rewrite app_nil_r.
  - destruct (decide (queue = [])) as [-> | Hqueue];
      [cbn; now rewrite app_nil_r|].
    rewrite (processLoop_round fuel fails round size queue served Hqueue).
    rewrite Hfails. unfold nextBatch. cbn [fst snd].
    set (sorted := JS.sort compareItems queue).
    assert (Hsame : List.length sorted = List.length queue)
      by apply Permutation_length, sort_perm.
    assert (Hsome : 1 <= List.length queue)
      by (destruct queue; [contradiction | cbn [List.length]; lia]).
    rewrite IH by (rewrite length_drop, Hsame; lia).
    rewrite (sort_sorted_id compareItems (drop size sorted))
      by (apply sorted_drop;
          apply (sort_sorted compareItems compareItems_total compareItems_trans)).
    rewrite (chunks_cons size sorted Hsize)
      by (intros Hnil; rewrite Hnil in Hsame; cbn [List.length] in Hsame; lia).
    now rewrite <- app_assoc.
Qed.

End WorkerLoop.

(** The worker loop of [processQueue] ends whatever batches fail, when
    the batch size is at least one and nothing is queued meanwhile: the
    queue is empty after no more rounds than the items have tries left
    (three for an item that has not failed yet), and the batches served
    hold no more items than that. *)
Theorem processQueue_drains (fails : nat -> bool) (fuel size : nat)
    (queue : list QueueItem.t) :
  1 <= size ->
  SteamDataService.workLeft queue <= fuel ->
  snd (SteamDataService.processLoop fuel fails 0 size queue []) = [] /\
  list_sum (List.map List.length
              (fst (SteamDataService.processLoop fuel fails 0 size queue [])))
  <= SteamDataService.workLeft queue /\
  SteamDataService.workLeft queue <= 3 * List.length queue.
Proof.
  intros Hsize Hfuel.
  destruct (processLoop_spends fuel fails size Hsize 0 queue [] Hfuel)
    as [Hempty Hspent].
  split; [exact Hempty|]. split; [exact Hspent|].
  clear. induction queue as [|item queue IH]; [apply Nat.le_refl|].
  rewrite workLeft_cons. unfold SteamDataService.roundsLeft.
  cbn [List.length]. lia.
Qed.

Lemma processQueue_drains_witness :
  1 <= 2 /\
  SteamDataService.workLeft Sample.queue <= 9 /\
  snd (SteamDataService.processLoop 9 (fun round => Nat.even round) 0 2
         Sample.queue []) = [].
Proof.
  assert (Hsize : 1 <= 2) by lia.
  assert (Hfuel : SteamDataService.workLeft Sample.queue <= 9)
    by (vm_compute; lia).
  split; [exact Hsize|]. split; [exact Hfuel|].
  exact (proj1 (processQueue_drains (fun round => Nat.even round) 9 2
                  Sample.queue Hsize Hfuel)).
Defined.

(** When no batch fails, the worker loop of [processQueue] serves the
    queue sorted once and cut into batches of [batchSize], every batch
    but the last one full: sorting again before every batch changes
    nothing.  The loop ends with the queue empty, and the batches put
    end to end are the sorted queue. *)
Theorem processQueue_serves_sorted_queue (fails : nat -> bool)
    (fuel size : nat) (queue : list QueueItem.t) :
  1 <= size ->
  List.length queue <= fuel ->
  (forall round, fails round = false) ->
  SteamDataService.processLoop fuel fails 0 size queue []
  = (JS.chunks size (JS.sort SteamDataService.compareItems queue), []) /\
  concat (fst (SteamDataService.processLoop fuel fails 0 size queue []))
  = JS.sort SteamDataService.compareItems queue.
Proof.
  intros Hsize Hfuel Hfails. split.
  - now rewrite (processLoop_chunks fuel size fails Hsize Hfails 0 queue []).
  - now rewrite (processLoop_in_order fuel size fails Hsize Hfails 0 queue []).
Qed.

Lemma processQueue_serves_sorted_queue_witness :
  1 <= 2 /\
  List.length Sample.queue <= 3 /\
  SteamDataService.processLoop 3 (fun _ => false) 0 2 Sample.queue []
  = (JS.chunks 2 (JS.sort SteamDataService.compareItems Sample.queue), []).
Proof.
  assert (Hsize : 1 <= 2) by lia.
  assert (Hfuel : List.length Sample.queue <= 3) by (vm_compute; lia).
  split; [exact Hsize|]. split; [exact Hfuel|].
  exact (proj1 (processQueue_serves_sorted_queue (fun _ => false) 3 2
                  Sample.queue Hsize Hfuel (fun _ => eq_refl))).
Defined.

(** ** The rule stages of the classifiers *)

Section RuleStageReview.

Import MLService.

Lemma spanScore_half (matched total : nat) : (0.5 <= spanScore matched total)%Q.
Proof.
  unfold spanScore.
  apply Qle_trans with (0 + 0.5)%Q; [apply Qle_refl|].
  apply Qplus_le_compat; [apply ratio_nonneg | apply Qle_refl].
Qed.

Lemma fold_grows (text : string) (entries : list (string * Regex.regex)) :
  forall acc, (snd acc <= snd (fold_left (visit text) entries acc))%Q.
Proof.
  induction entries as [|entry entries IH]; intros acc; [apply Qle_refl|].
  cbn [fold_left]. eapply Qle_trans; [apply visit_grows | apply IH].
Qed.

(** The loop ends as it began when no detector matches, and with a
    detector's name and a score of one half or more otherwise. *)
Lemma scan_from_start (text : string) (names : list string)
    (entries : list (string * Regex.regex)) :
  List.Forall (fun entry => In (fst entry) names) entries ->
  (List.Forall (fun entry => Regex.matchedLength (snd entry) text = None) entries /\
   fold_left (visit text) entries (None, 0%Q) = (None, 0%Q)) \/
  (List.Exists (fun entry => Regex.matchedLength (snd entry) text <> None) entries /\
   exists g, fst (fold_left (visit text) entries (None, 0%Q)) = Some g /\
             In g names /\
             (0.5 <= snd (fold_left (visit text) entries (None, 0%Q)))%Q).
Proof.
  induction entries as [|entry entries IH]; intros Hnames.
  - left. split; [constructor | reflexivity].
  - apply Forall_cons in Hnames as [Hname Hnames].
    cbn [fold_left]. unfold visit at 2 4 6. cbn [fst snd].
    destruct (Regex.matchedLength (snd entry) text) as [matched|] eqn:Ematch.
    + right. split; [left; congruence|].
      replace (Qltb 0 (spanScore matched (String.length text))) with true
        by (symmetry; apply Qltb_true, spanScore_pos).
      destruct (fold_keeps names text entries
                  (Some (fst entry), spanScore matched (String.length text)))
        as (g & Hg & Hin);
        [eexists; split; [reflexivity | exact Hname] | exact Hnames |].
      exists g. split; [exact Hg|]. split; [exact Hin|].
      eapply Qle_trans; [apply (spanScore_half matched (String.length text))|].
      apply (fold_grows text entries
               (Some (fst entry), spanScore matched (String.length text))).
    + destruct (IH Hnames) as [[Hnone Hsame] | [Hsome Hgood]].
      * left. split; [now constructor | exact Hsame].
      * right. split; [now right | exact Hgood].
Qed.

End RuleStageReview.

(** The rule stage of the game-mode classifier asks for a review exactly
    when no detector matches, which is exactly when it answers "unknown",
    with confidence 0.  When a detector matches, the answer is that
    detector's name with a confidence from 0.5 to 0.95 and no review is
    asked for: the stage never marks a guess of its own as doubtful. *)
Theorem rule_stage_review (text : string) :
  let result := MLService.ruleStage text in
  (GamemodePrediction.needs_review result = true <->
     GamemodePrediction.gamemode result = "unknown"%string) /\
  (GamemodePrediction.needs_review result = true <->
     List.Forall
       (fun entry : string * Regex.regex =>
          Regex.matchedLength (snd entry) text = None)
       MLService.gamemodePatterns) /\
  (GamemodePrediction.needs_review result = true ->
     GamemodePrediction.confidence result = 0%Q /\
     GamemodePrediction.prediction_reason result = "No pattern match"%string) /\
  (GamemodePrediction.needs_review result = false ->
     (0.5 <= GamemodePrediction.confidence result)%Q /\
     (GamemodePrediction.confidence result <= 0.95)%Q /\
     In (GamemodePrediction.gamemode result)
        (List.map fst MLService.gamemodePatterns) /\
     GamemodePrediction.prediction_reason result
     = ("Rule-based match: " ++ GamemodePrediction.gamemode result)%string).
Proof.
  cbv zeta. unfold MLService.ruleStage, MLService.scan.
  destruct (scan_from_start text (List.map fst MLService.gamemodePatterns)
              MLService.gamemodePatterns)
    as [[Hnone Hsame] | [Hsome (g & Hg & Hin & Hscore)]].
  { apply List.Forall_forall. intros entry Hentry. now apply in_map. }
  - rewrite Hsame.
    cbn [GamemodePrediction.needs_review GamemodePrediction.gamemode
         GamemodePrediction.confidence GamemodePrediction.prediction_reason
         JS.orElse].
    assert (Hreview : MLService.Qltb 0 MLService.reviewThreshold = true)
      by reflexivity.
    rewrite Hreview.
    split; [split; reflexivity|]. split; [split; [intros _; exact Hnone | reflexivity]|].
    split; [intros _; split; reflexivity | discriminate].
  - destruct (fold_left (MLService.visit text) MLService.gamemodePatterns (None, 0%Q))
      as [bestMatch highestScore].
    cbn [fst snd] in Hg, Hscore. subst bestMatch.
    cbn [GamemodePrediction.needs_review GamemodePrediction.gamemode
         GamemodePrediction.confidence GamemodePrediction.prediction_reason].
    assert (Hreview : MLService.Qltb highestScore MLService.reviewThreshold = false)
      by (apply Qltb_false; exact Hscore).
    rewrite Hreview.
    assert (Hname : JS.orElse (Some g) "unknown" = g /\ String.eqb g "" = false).
    { revert Hin. unfold MLService.gamemodePatterns. cbn [List.map fst In].
      intros Hin. repeat (destruct Hin as [<- | Hin]; [split; reflexivity|]).
      contradiction. }
    destruct Hname as [Hname Hfilled]. rewrite Hname, Hfilled.
    split; [split; [discriminate|]|].
    { intros Hunknown. exfalso.
      apply (names_not_unknown g Hin). now rewrite Hname. }
    split; [split; [discriminate|]|].
    { intros Hnone. exfalso.
      apply List.Exists_exists in Hsome as (entry & Hentry & Hmatch).
      rewrite List.Forall_forall in Hnone. exact (Hmatch (Hnone entry Hentry)). }
    split; [discriminate|]. intros _.
    split; [apply Q.min_glb; [exact Hscore | discriminate]|].
    split; [apply Q.le_min_r|]. split; [exact Hin | reflexivity].
Qed.

(** [predictGamemode] never blends: it answers with the rule stage's
    prediction or with the model's.  The model's is taken exactly when the
    rule stage is at 0.6 or below and the model is strictly more
    confident; the test against 0.8 in [combineGamemodePredictions]
    never decides there.  The answer is at least as confident as the rule
    stage. *)
Theorem predictGamemode_choice (serverData : MLServerData.t)
    (mlResult : GamemodePrediction.t) :
  let ruleBased := MLService.predictGamemodeRuleBased serverData in
  let result := MLService.predictGamemode serverData mlResult in
  result
  = (if Qle_bool (GamemodePrediction.confidence ruleBased) 0.6
        && MLService.Qltb (GamemodePrediction.confidence ruleBased)
             (GamemodePrediction.confidence mlResult)
     then mlResult else ruleBased) /\
  (GamemodePrediction.confidence ruleBased
     <= GamemodePrediction.confidence result)%Q.
Proof.
  cbv zeta. unfold MLService.predictGamemode, MLService.combineGamemodePredictions,
    MLService.gamemodeConfidenceThreshold.
  set (ruleBased := MLService.predictGamemodeRuleBased serverData).
  change (MLService.Qltb 0.6 (GamemodePrediction.confidence ruleBased))
    with (negb (Qle_bool (GamemodePrediction.confidence ruleBased) 0.6)).
  destruct (Qle_bool (GamemodePrediction.confidence ruleBased) 0.6) eqn:Elow;
    cbn [negb andb].
  - assert (Hhigh : MLService.Qltb 0.8 (GamemodePrediction.confidence ruleBased)
                    = false).
    { apply Qltb_false. apply Qle_bool_iff in Elow.
      eapply Qle_trans; [exact Elow | discriminate]. }
    rewrite Hhigh.
    destruct (MLService.Qltb (GamemodePrediction.confidence ruleBased)
                (GamemodePrediction.confidence mlResult)) eqn:Emore.
    + split; [reflexivity|]. apply Qltb_true in Emore.
      apply Qlt_le_weak. exact Emore.
    + split; [reflexivity | apply Qle_refl].
  - split; [reflexivity | apply Qle_refl].
Qed.

Section PolishHits.

Import MLService.

(** The loop over the detectors is the loop over the detectors that hit. *)
Lemma fold_hits (hit : detector -> bool) (detectors : list detector) :
  forall acc,
    fold_left (polishStep hit) detectors acc
    = fold_left (polishStep (fun _ => true)) (List.filter hit detectors) acc.
Proof.
  induction detectors as [|d detectors IH]; intros acc; [reflexivity|].
  cbn [fold_left List.filter]. unfold polishStep at 2.
  destruct (hit d); [cbn [fold_left]|]; apply IH.
Qed.

Lemma filter_hit (hit : detector -> bool) (d : detector)
    (detectors : list detector) :
  hit d = true -> List.filter hit (d :: detectors) = d :: List.filter hit detectors.
Proof. intros E. cbn [List.filter]. now rewrite E. Qed.

Lemma filter_miss (hit : detector -> bool) (d : detector)
    (detectors : list detector) :
  hit d = false -> List.filter hit (d :: detectors) = List.filter hit detectors.
Proof. intros E. cbn [List.filter]. now rewrite E. Qed.

End PolishHits.

Ltac decide_hits :=
  repeat match goal with
         | |- context [List.filter ?hit (?d :: ?detectors)] =>
             let E := fresh "E" in
             destruct (hit d) eqn:E;
             [ rewrite !(filter_hit hit d detectors E)
             | rewrite !(filter_miss hit d detectors E) ]
         end.

(** The rule stage of the regional classifier, whatever detectors hit:
    it says Polish exactly when at least one detector hits; its
    confidence is 0 with no hit, the weight of the detector (0.6, 0.8 or
    0.9) with one hit and 0.95 with two or more; it asks for a review
    exactly when a single detector of weight 0.6 hits. *)
Theorem polish_rule_stage (hit : MLService.detector -> bool) :
  let result := fst (MLService.polishRule hit) in
  let hits := List.filter hit MLService.polishPatterns in
  PolishPrediction.is_polish result = negb (List.length hits =? 0) /\
  PolishPrediction.confidence result
  = match hits with
    | [] => 0%float
    | [d] => MLService.strength d
    | _ => 0.95%float
    end /\
  PolishPrediction.needs_review result
  = match hits with
    | [d] => (MLService.strength d =? 0.6)%float
    | _ => false
    end /\
  snd (MLService.polishRule hit)
  = ("Rule-based: " ++ JS.decimal (N.of_nat (List.length hits))
       ++ " patterns matched")%string.
Proof.
  cbv zeta. unfold MLService.polishRule. rewrite fold_hits.
  unfold MLService.polishPatterns.
  decide_hits; cbn [List.filter]; clear;
    repeat split; vm_compute; reflexivity.
Qed.

(** ** Feature vectors and vocabularies *)

Section Features.

Import MLService.

Lemma mark_length (vocabulary : gmap string nat) (features : list nat)
    (word : string) :
  List.length (mark vocabulary features word) = List.length features.
Proof.
  unfold mark. destruct (vocabulary !! word) as [index|]; [|reflexivity].
  destruct (index <? List.length features); [apply length_insert | reflexivity].
Qed.

Lemma marks_length (vocabulary : gmap string nat) (words : list string) :
  forall features,
    List.length (fold_left (mark vocabulary) words features)
    = List.length features.
Proof.
  induction words as [|word words IH]; intros features; [reflexivity|].
  cbn [fold_left]. now rewrite IH, mark_length.
Qed.

Lemma mark_lookup (vocabulary : gmap string nat) (features : list nat)
    (word : string) (i value : nat) :
  mark vocabulary features word !! i = Some value <->
  (vocabulary !! word = Some i /\ i < List.length features /\ value = 1) \/
  (vocabulary !! word <> Some i /\ features !! i = Some value).
Proof.
  unfold mark. destruct (vocabulary !! word) as [index|] eqn:Eword.
  - destruct (Nat.ltb_spec index (List.length features)) as [Hin | Hout].
    + rewrite list_lookup_insert_Some. split.
      * intros [(-> & <- & Hi) | (Hne & Hold)]; [left; auto|].
        right. split; [congruence | exact Hold].
      * intros [([= ->] & Hi & ->) | (Hne & Hold)]; [left; auto|].
        right. split; [congruence | exact Hold].
    + split.
      * intros Hold. right. split; [|exact Hold].
        intros [= ->]. apply lookup_lt_Some in Hold. lia.
      * intros [([= ->] & Hi & _) | (_ & Hold)]; [lia | exact Hold].
  - split.
    + intros Hold. right. split; [discriminate | exact Hold].
    + intros [(Hword & _) | (_ & Hold)]; [discriminate | exact Hold].
Qed.

(** What the loop leaves at a position of a vector of zeros and ones. *)
Lemma marks_lookup (vocabulary : gmap string nat) (words : list string) :
  forall (features : list nat) (i : nat),
    i < List.length features ->
    (features !! i = Some 0 \/ features !! i = Some 1) ->
    (fold_left (mark vocabulary) words features !! i = Some 1 <->
       features !! i = Some 1 \/
       exists word, In word words /\ vocabulary !! word = Some i) /\
    (fold_left (mark vocabulary) words features !! i = Some 0 \/
     fold_left (mark vocabulary) words features !! i = Some 1).
Proof.
  induction words as [|word words IH]; intros features i Hi Hbit.
  - cbn [fold_left]. split; [|exact Hbit].
    split; [now left|]. intros [Hone | (word & [] & _)]. exact Hone.
  - cbn [fold_left].
    assert (Hstep : mark vocabulary features word !! i = Some 0 \/
                    mark vocabulary features word !! i = Some 1).
    { destruct (decide (vocabulary !! word = Some i)) as [Hword | Hword].
      - right. apply mark_lookup. left. auto.
      - destruct Hbit as [Hbit | Hbit]; [left | right];
          apply mark_lookup; right; auto. }
    destruct (IH (mark vocabulary features word) i
                ltac:(now rewrite mark_length) Hstep) as [Hone Hbits].
    split; [|exact Hbits]. rewrite Hone. rewrite mark_lookup. split.
    + intros [[(Hword & _ & _) | (_ & Hold)] | (other & Hin & Hother)].
      * right. exists word. split; [now left | exact Hword].
      * now left.
      * right. exists other. split; [now right | exact Hother].
    + intros [Hold | (other & [<- | Hin] & Hother)].
      * left. destruct (decide (vocabulary !! word = Some i)) as [Hword | Hword];
          [left; auto | right; auto].
      * left. left. auto.
      * right. exists other. auto.
Qed.

End Features.

(** [extractFeatures] gives a vector of exactly 100 entries, each 0 or 1;
    the entry at a position is 1 exactly when one of the words of the
    text (longer than two characters) has that position in the
    vocabulary.  A word whose position in the vocabulary is 100 or more
    leaves no trace. *)
Theorem extractFeatures_bag_of_words (serverData : MLServerData.t)
    (vocabulary : gmap string nat) :
  let features := MLService.extractFeatures serverData vocabulary in
  List.length features = 100 /\
  forall i : nat,
    (100 <= i -> features !! i = None) /\
    (i < 100 ->
       (features !! i = Some 0 \/ features !! i = Some 1) /\
       (features !! i = Some 1 <->
          exists word,
            In word (MLService.wordsOf (MLService.blob serverData)) /\
            2 < String.length word /\
            vocabulary !! word = Some i)).
Proof.
  cbv zeta. unfold MLService.extractFeatures.
  set (words := MLService.wordsOf (MLService.blob serverData)).
  assert (Hlength : List.length
                      (fold_left (MLService.mark vocabulary) words (replicate 100 0))
                    = 100)
    by now rewrite marks_length, length_replicate.
  split; [exact Hlength|]. intros i. split.
  - intros Hout. apply lookup_ge_None. lia.
  - intros Hin.
    assert (Hzero : replicate 100 0 !! i = Some 0)
      by (apply lookup_replicate_2; exact Hin).
    destruct (marks_lookup vocabulary words (replicate 100 0) i
                ltac:(now rewrite length_replicate) ltac:(now left))
      as [Hone Hbits].
    split; [exact Hbits|]. rewrite Hone. split.
    + intros [Hold | (word & Hword & Hindex)]; [congruence|].
      exists word. split; [exact Hword|]. split; [|exact Hindex].
      subst words. unfold MLService.wordsOf in Hword.
      apply filter_In in Hword as [_ Hlong]. now apply Nat.ltb_lt in Hlong.
    + intros (word & Hword & _ & Hindex). right. exists word. auto.
Qed.

Section Vocabulary.

Import MLService.

Lemma collect_in (rows : list ServerRow.t) :
  forall (set : list string) (y : string),
    In y (fold_left (fun set server => JS.setAddAll set (wordsOf (rowText server)))
            rows set)
    <-> In y set \/ exists r, In r rows /\ In y (wordsOf (rowText r)).
Proof.
  induction rows as [|r rows IH]; intros set y; cbn [fold_left].
  - split; [now left|]. intros [Hin | (r & [] & _)]. exact Hin.
  - rewrite IH, setAddAll_In. split.
    + intros [[Hin | Hin] | (r' & Hr' & Hin)].
      * now left.
      * right. exists r. split; [now left | exact Hin].
      * right. exists r'. split; [now right | exact Hin].
    + intros [Hin | (r' & [<- | Hr'] & Hin)].
      * left. now left.
      * left. now right.
      * right. exists r'. auto.
Qed.

Lemma collect_NoDup (rows : list ServerRow.t) :
  forall set,
    NoDup set ->
    NoDup
      (fold_left (fun set server => JS.setAddAll set (wordsOf (rowText server)))
         rows set).
Proof.
  induction rows as [|r rows IH]; intros set Hset; [exact Hset|].
  cbn [fold_left]. apply IH. now apply setAddAll_NoDup.
Qed.

Lemma indexFrom_other (words : list string) :
  forall (first : nat) (vocabulary : gmap string nat) (word : string),
    ~ In word words ->
    indexFrom first words vocabulary !! word = vocabulary !! word.
Proof.
  induction words as [|x words IH]; intros first vocabulary word Hout;
    [reflexivity|].
  cbn [indexFrom]. rewrite IH by (intros Hin; apply Hout; now right).
  apply lookup_insert_ne. intros ->. apply Hout. now left.
Qed.

Lemma indexFrom_position (words : list string) :
  forall (first : nat) (vocabulary : gmap string nat) (word : string) (i : nat),
    NoDup words ->
    words !! i = Some word ->
    indexFrom first words vocabulary !! word = Some (first + i).
Proof.
  induction words as [|x words IH]; intros first vocabulary word i Hwords Hi;
    [discriminate|].
  apply NoDup_cons in Hwords as [Hfresh Hwords]. cbn [indexFrom].
  destruct i as [|i].
  - injection Hi as ->.
    rewrite indexFrom_other
      by (intros Hin; apply Hfresh; now apply list_elem_of_In).
    rewrite lookup_insert_eq. f_equal. lia.
  - cbn in Hi. rewrite (IH (S first) _ word i Hwords Hi). f_equal. lia.
Qed.

End Vocabulary.

(** [buildVocabularies] numbers the distinct words of the named rows in
    the order of their first appearance: the vocabulary holds a word at
    position [i] exactly when it is the [i]-th distinct word, so no two
    words share a position and the positions are those below the number
    of words; the words are those longer than two characters of the rows
    that have a name. *)
Theorem buildVocabularies_numbers_words (db : Database.t) :
  let vocabulary := MLService.buildVocabularies db in
  (forall (word : string) (i : nat),
     vocabulary !! word = Some i <-> MLService.allText db !! i = Some word) /\
  (forall (word other : string) (i : nat),
     vocabulary !! word = Some i -> vocabulary !! other = Some i ->
     word = other) /\
  (forall word : string,
     is_Some (vocabulary !! word) <->
     exists r,
       In r (Database.servers db) /\ ServerRow.name r <> None /\
       In word (MLService.wordsOf (MLService.rowText r))).
Proof.
  cbv zeta. unfold MLService.buildVocabularies.
  assert (Hdistinct : NoDup (MLService.allText db))
    by (apply collect_NoDup; constructor).
  assert (Hnumbers : forall (word : string) (i : nat),
            MLService.indexFrom 0 (MLService.allText db) ∅ !! word = Some i
            <-> MLService.allText db !! i = Some word).
  { intros word i. split.
    - intros Hword.
      destruct (in_dec string_dec word (MLService.allText db)) as [Hin | Hout].
      + apply list_elem_of_In, list_elem_of_lookup in Hin as (k & Hk).
        rewrite (indexFrom_position _ 0 ∅ word k Hdistinct Hk) in Hword.
        injection Hword as <-. exact Hk.
      + rewrite indexFrom_other in Hword by exact Hout.
        now rewrite lookup_empty in Hword.
    - intros Hi. now rewrite (indexFrom_position _ 0 ∅ word i Hdistinct Hi). }
  split; [exact Hnumbers|]. split.
  - intros word other i Hword Hother.
    apply Hnumbers in Hword, Hother. congruence.
  - intros word. split.
    + intros [i Hi]. apply Hnumbers in Hi.
      apply list_elem_of_lookup_2, list_elem_of_In in Hi.
      unfold MLService.allText in Hi.
      apply collect_in in Hi as [[] | (r & Hr & Hword)].
      apply filter_In in Hr as [Hr Hname].
      exists r. split; [exact Hr|]. split; [|exact Hword].
      now destruct (ServerRow.name r).
    + intros (r & Hr & Hname & Hword).
      assert (Hin : In word (MLService.allText db)).
      { unfold MLService.allText. apply collect_in. right. exists r.
        split; [|exact Hword]. apply filter_In. split; [exact Hr|].
        now destruct (ServerRow.name r). }
      apply list_elem_of_In, list_elem_of_lookup in Hin as (k & Hk).
      exists k. now apply Hnumbers.
Qed.

(** With the window full at the reading 30 and its oldest timestamp at
    0, the call resolves at 1000 or later. *)
Lemma checkRateLimit_waits_witness :
  (SteamAPIClient.rateLimitWindow Sample.fullWindow <= 2147483647)%Z /\
  SteamAPIClient.maxRequestsPerWindow Sample.fullWindow
    <= List.length
         (SteamAPIClient.prune (SteamAPIClient.rateLimitWindow Sample.fullWindow)
            30 (SteamAPIClient.requestHistory Sample.fullWindow)) /\
  (0 + SteamAPIClient.rateLimitWindow Sample.fullWindow
   <= fst (SteamAPIClient.checkRateLimit 0 30 Sample.fullWindow))%Z.
Proof.
  assert (Hwindow :
            (SteamAPIClient.rateLimitWindow Sample.fullWindow <= 2147483647)%Z)
    by (cbn; lia).
  assert (Hpast : Forall (fun timestamp => (timestamp <= 30)%Z)
                    (SteamAPIClient.requestHistory Sample.fullWindow))
    by (repeat constructor; lia).
  assert (Hfull : SteamAPIClient.maxRequestsPerWindow Sample.fullWindow
                  <= List.length
                       (SteamAPIClient.prune
                          (SteamAPIClient.rateLimitWindow Sample.fullWindow)
                          30 (SteamAPIClient.requestHistory Sample.fullWindow)))
    by (vm_compute; lia).
  split; [exact Hwindow|]. split; [exact Hfull|].
  exact (checkRateLimit_waits 0 30 Sample.fullWindow 0 Hwindow Hpast Hfull
           eq_refl).
Defined.

(** ** What a probe and the queue keep *)

(** The player list a server answers with is decoded and then dropped:
    with the same info answer, two probes that differ only in the players
    returned leave the same counters and the same database.  When the
    probe is counted online, the [player_count] of the snapshot it
    writes is the count byte of the info answer; when its save is
    rejected, it is counted offline and writes no snapshot. *)
Theorem player_list_is_not_stored (now : Z) (ip : string) (port : N)
    (info : Info.t) (players players' : list Player.t)
    (self : ServerScannerService.t) (db : Database.t) :
  let result :=
    ServerScannerService.queryServer now ip port
      (JS.Returned info) (JS.Returned players) (self, db) in
  result
  = ServerScannerService.queryServer now ip port
      (JS.Returned info) (JS.Returned players') (self, db) /\
  ((ScanStats.offlineServers (ServerScannerService.scanStats (fst result))
    = (ScanStats.offlineServers (ServerScannerService.scanStats self) + 1)%N /\
    Database.server_snapshots (snd result) = Database.server_snapshots db) \/
   (ScanStats.onlineServers (ServerScannerService.scanStats (fst result))
    = (ScanStats.onlineServers (ServerScannerService.scanStats self) + 1)%N /\
    SnapshotData.player_count ∘ SnapshotRow.data
      <$> last (Database.server_snapshots (snd result))
    = Some (ServerScannerService.byteOrZero (Info.players info)))).
Proof.
  cbv zeta. split.
  - unfold ServerScannerService.queryServer.
    cbn [ServerScannerService.promiseAll].
    rewrite !bool_decide_eq_true_2 by (eexists; reflexivity). reflexivity.
  - destruct (queryServer_answered now ip port info players self db)
      as [[_ ->] | [Haccepted ->]]; [left; split; reflexivity|].
    right. split;
      [now destruct (ServerScannerService.isPolishServer (Some info))|].
    cbn [snd].
    destruct (saveServerData_cases now ip
                (if (port =? 0)%N then 27015%N else port)
                (Some info) (Some players) db) as [[_ E] | (_ & _ & E)];
      rewrite E in *; [discriminate Haccepted|].
    unfold Database.appendSnapshot.
    cbn [snd Database.server_snapshots]. rewrite last_snoc. reflexivity.
Qed.

(** [addToQueue] loses and invents nothing: the batch the worker takes at
    once, if it takes one, and the queue left make up the queue before
    and one new item per Steam ID, stamped with the time of the call and
    no retries.  A running worker is not started again. *)
Theorem addToQueue_keeps_every_item (now : Z) (steamIds : list string)
    (priority : string) (self : SteamDataService.t) :
  let result := SteamDataService.addToQueue now steamIds priority self in
  Permutation
    (default [] (snd result) ++ SteamDataService.processingQueue (fst result))
    (SteamDataService.processingQueue self
       ++ List.map
            (fun steamId =>
               {| QueueItem.steamId := steamId; QueueItem.priority := priority;
                  QueueItem.addedAt := now; QueueItem.retryCount := 0 |})
            steamIds) /\
  (SteamDataService.isProcessing self = true ->
   snd result = None /\ SteamDataService.isProcessing (fst result) = true) /\
  (SteamDataService.isProcessing self = false ->
   (snd result = None <-> SteamDataService.processingQueue self = [] /\ steamIds = [])).
Proof.
  cbv zeta. unfold SteamDataService.addToQueue.
  set (items := List.map _ steamIds).
  assert (Hqueue : Permutation
            (SteamDataService.enqueue now steamIds priority
               (SteamDataService.processingQueue self))
            (SteamDataService.processingQueue self ++ items)).
  { unfold SteamDataService.enqueue. fold items.
    destruct (String.eqb priority "high");
      [apply Permutation_app_comm | reflexivity]. }
  assert (Hempty : List.length
                     (SteamDataService.enqueue now steamIds priority
                        (SteamDataService.processingQueue self)) = 0
                   <-> SteamDataService.processingQueue self = [] /\ steamIds = []).
  { rewrite (Permutation_length Hqueue), length_app. subst items.
    rewrite List.length_map.
    destruct (SteamDataService.processingQueue self), steamIds;
      cbn [List.length]; split; try lia; try (intros [? ?]; discriminate);
      auto. }
  destruct (SteamDataService.isProcessing self) eqn:Eworking; cbn [orb].
  - cbn [fst snd default SteamDataService.processingQueue
         SteamDataService.isProcessing app].
    split; [exact Hqueue|]. split; [auto | discriminate].
  - destruct (Nat.eqb_spec
                (List.length
                   (SteamDataService.enqueue now steamIds priority
                      (SteamDataService.processingQueue self))) 0)
      as [Hnone | Hsome].
    + cbn [fst snd default SteamDataService.processingQueue app].
      split; [exact Hqueue|]. split; [discriminate|].
      intros _. split; [intros _; now apply Hempty | reflexivity].
    + unfold SteamDataService.nextBatch. cbv beta iota zeta.
      cbn [fst snd default SteamDataService.processingQueue].
      unfold id. rewrite take_drop. split.
      * etransitivity; [apply sort_perm | exact Hqueue].
      * split; [discriminate|]. intros _. split; [discriminate|].
        intros Hboth. exfalso. apply Hsome. now apply Hempty.
Qed.
